(** * Numeric Suite (FX graph mode): probes, aggregation, comparison, sweep

    A shallow embedding of [torch/ao/ns/_numeric_suite_fx.py]:

    - [OutputLogger.forward], the pass-through probe;
    - [_extract_logger_info_one_model], which flattens the probes of a model
      into the nested results dictionary;
    - [extend_logger_results_with_comparison], which enriches the results of
      one model with a comparison against another;
    - the subgraph/candidate loops of [prepare_n_shadows_model];
    - [OutputLogger.__init__], [_extract_weights_one_model],
      [_extract_weights_impl], [convert_n_shadows_model],
      [extract_results_n_shadows_model], [group_results_by_subgraph],
      [create_results_comparison] and [print_n_shadows_summary].

    Python values are a tagged variant, exceptions are an error monad,
    insertion-ordered dictionaries are association lists, and the attribute
    table of the carrier module is a finite map. *)

From Stdlib Require Import ZArith String Ascii List DecimalString Permutation Sorted.
From stdpp Require Import base option list strings gmap.

Open Scope Z_scope.
Open Scope string_scope.
Open Scope list_scope.

Set Warnings "-clear-no-such-hyp".

(* ===================================================================== *)
(** * Part I: definitions                                                  *)
(* ===================================================================== *)

(** ** Exceptions *)

Inductive exn : Type :=
| TypeError
| AttributeError
| AssertionError
| KeyError
| IndexError.

Inductive result (A : Type) : Type :=
| Ok (a : A)
| Raise (e : exn).
Arguments Ok {A} a.
Arguments Raise {A} e.

#[global] Instance exn_eq_dec : EqDecision exn.
Proof. solve_decision. Defined.

#[global] Instance result_ret : MRet result := fun A a => Ok a.

#[global] Instance result_bind : MBind result := fun A B f m =>
  match m with
  | Ok a => f a
  | Raise e => Raise e
  end.

#[global] Instance result_fmap : FMap result := fun A B f m =>
  match m with
  | Ok a => Ok (f a)
  | Raise e => Raise e
  end.

(** [assert c] *)
Definition py_assert (c : bool) : result unit :=
  if c then Ok tt else Raise AssertionError.

(** A loop whose body threads a state and may raise. *)
Fixpoint for_each {A S : Type} (body : A -> S -> result S)
    (items : list A) (s : S) : result S :=
  match items with
  | [] => Ok s
  | x :: rest => s' ← body x s; for_each body rest s'
  end.

(** ** Tensors and Python values *)

(** A tensor is its shape, its elements in row-major order (the element type
    is kept abstract as an integer payload: no arithmetic is done on it
    here) and whether it is attached to the autograd graph. *)
Record Tensor : Type := mkTensor {
  shape : list nat;
  elems : list Z;
  requires_grad : bool
}.

(** [t.detach()]: same data, never requires gradient. *)
Definition detach (t : Tensor) : Tensor :=
  {| shape := shape t; elems := elems t; requires_grad := false |}.

(** [len(t)]: the size of the first dimension; a 0-d tensor has no length. *)
Definition tensor_len (t : Tensor) : result nat :=
  match shape t with
  | [] => Raise TypeError
  | n :: _ => Ok n
  end.

(** [t[i]] for a non-negative [i]: the [i]-th slice along dimension 0. *)
Definition tensor_select (t : Tensor) (i : nat) : result Tensor :=
  match shape t with
  | [] => Raise IndexError
  | n :: sh =>
      if (i <? n)%nat then
        let k := fold_right Nat.mul 1%nat sh in
        Ok {| shape := sh;
              elems := take k (drop (i * k) (elems t));
              requires_grad := requires_grad t |}
      else Raise IndexError
  end.

#[warnings="-register-all"]
Inductive value : Type :=
| VNone
| VInt (n : Z)
| VTensor (t : Tensor)
| VTuple (items : list value)
| VList (items : list value).

#[global] Instance Tensor_eq_dec : EqDecision Tensor.
Proof. solve_decision. Defined.

Fixpoint value_eq_dec (x y : value) {struct x} : {x = y} + {x <> y}.
Proof.
  decide equality;
    [apply Z.eq_dec | apply Tensor_eq_dec
     | apply (List.list_eq_dec value_eq_dec)
     | apply (List.list_eq_dec value_eq_dec)].
Defined.

#[global] Instance value_eq_decision : EqDecision value := value_eq_dec.

Definition isinstance_Tensor (x : value) : bool :=
  match x with VTensor _ => true | _ => false end.

Definition isinstance_tuple (x : value) : bool :=
  match x with VTuple _ => true | _ => false end.

(** [len(x)] *)
Definition py_len (x : value) : result nat :=
  match x with
  | VTuple items | VList items => Ok (length items)
  | VTensor t => tensor_len t
  | VNone | VInt _ => Raise TypeError
  end.

(** [x[i]] for a non-negative [i] *)
Definition py_getitem (x : value) (i : nat) : result value :=
  match x with
  | VTuple items | VList items =>
      match items !! i with
      | Some v => Ok v
      | None => Raise IndexError
      end
  | VTensor t => VTensor <$> tensor_select t i
  | VNone | VInt _ => Raise TypeError
  end.

(** [x.detach()]: only tensors have the method. *)
Definition py_detach (x : value) : result value :=
  match x with
  | VTensor t => Ok (VTensor (detach t))
  | _ => Raise AttributeError
  end.

(** ** OutputLogger *)

Record OutputLogger : Type := mkOutputLogger {
  stats : list value;
  stats_rnn : list value;
  ref_node_name : string;
  prev_node_name : string;
  model_name : string;
  ref_name : string;
  prev_node_target_type : string;
  ref_node_target_type : string;
  results_type : string;
  index_within_arg : Z;
  index_of_arg : Z;
  fqn : option string;
  enabled : bool;
  qconfig_str : option string
}.

(** [self.stats.append(v)] *)
Definition stats_append (v : value) (self : OutputLogger) : OutputLogger :=
  {| stats := stats self ++ [v];
     stats_rnn := stats_rnn self;
     ref_node_name := ref_node_name self;
     prev_node_name := prev_node_name self;
     model_name := model_name self;
     ref_name := ref_name self;
     prev_node_target_type := prev_node_target_type self;
     ref_node_target_type := ref_node_target_type self;
     results_type := results_type self;
     index_within_arg := index_within_arg self;
     index_of_arg := index_of_arg self;
     fqn := fqn self;
     enabled := enabled self;
     qconfig_str := qconfig_str self |}.

(** [self.stats_rnn.append(v)] *)
Definition stats_rnn_append (v : value) (self : OutputLogger) : OutputLogger :=
  {| stats := stats self;
     stats_rnn := stats_rnn self ++ [v];
     ref_node_name := ref_node_name self;
     prev_node_name := prev_node_name self;
     model_name := model_name self;
     ref_name := ref_name self;
     prev_node_target_type := prev_node_target_type self;
     ref_node_target_type := ref_node_target_type self;
     results_type := results_type self;
     index_within_arg := index_within_arg self;
     index_of_arg := index_of_arg self;
     fqn := fqn self;
     enabled := enabled self;
     qconfig_str := qconfig_str self |}.

(** [OutputLogger.forward]: the returned pair is the value handed to the
    consumers and the logger after the call. *)
Definition forward (self : OutputLogger) (x : value)
    : result (value * OutputLogger) :=
  if negb (enabled self) then Ok (x, self)
  else if isinstance_Tensor x then
    d ← py_detach x;
    Ok (x, stats_append d self)
  else if isinstance_tuple x then
    n ← py_len x;
    if (n =? 2)%nat then
      x1 ← py_getitem x 1;
      n1 ← py_len x1;
      if (n1 =? 2)%nat then
        x0 ← py_getitem x 0;
        a ← py_detach x0;
        x10 ← py_getitem x1 0;
        b ← py_detach x10;
        x11 ← py_getitem x1 1;
        c ← py_detach x11;
        let new_res := VTuple [a; VTuple [b; c]] in
        Ok (x, stats_rnn_append new_res self)
      else Ok (x, self)
    else Ok (x, self)
  else Ok (x, self).

(** ** Dictionaries

    A Python [dict] keeps its keys in insertion order and [items()] iterates
    in that order, so a dictionary with string keys is an association list;
    assigning to a key that is present replaces its value in place, assigning
    to a new key appends. *)

Abbreviation dict V := (list (string * V)).

Fixpoint dict_get {V : Type} (k : string) (d : dict V) : option V :=
  match d with
  | [] => None
  | (k', v) :: rest => if decide (k = k') then Some v else dict_get k rest
  end.

(** [k in d] *)
Definition dict_in {V : Type} (k : string) (d : dict V) : bool :=
  match dict_get k d with Some _ => true | None => false end.

(** [d[k]] *)
Definition dict_getitem {V : Type} (k : string) (d : dict V) : result V :=
  match dict_get k d with
  | Some v => Ok v
  | None => Raise KeyError
  end.

(** [d[k] = v] *)
Fixpoint dict_set {V : Type} (k : string) (v : V) (d : dict V) : dict V :=
  match d with
  | [] => [(k, v)]
  | (k', v') :: rest =>
      if decide (k = k') then (k, v) :: rest else (k', v') :: dict_set k v rest
  end.

(** ** Capture records and the results structure *)

Module Res.

(** One capture record.  The ten keys written by
    [_extract_logger_info_one_model] are fields, typed as they are written.
    [comparisons] holds, in the order of their first assignment, the keys
    that [extend_logger_results_with_comparison] assigned afterwards, each
    with the list it holds.  A comparison stored under ['values'] replaces
    the captured values.  A comparison stored under another of the ten keys
    takes the place of what extraction wrote there: from then on the key
    holds that list, which is what [getitem_index_within_arg] and
    [getitem_index_of_arg] return for the two keys that the comparison reads
    back. *)
Record t : Type := mk {
  type : string;
  values : list value;
  ref_node_name : string;
  ref_node_target_type : string;
  prev_node_name : string;
  prev_node_target_type : string;
  index_within_arg : Z;
  index_of_arg : Z;
  fqn : option string;
  qconfig_str : option string;
  comparisons : dict (list value)
}.


(** Those of them that [extend_logger_results_with_comparison] reads. *)
Definition compared_keys : list string :=
  ["index_within_arg"; "index_of_arg"; "values"].

(** [res[name] = v] for a list [v]: whatever the key held is replaced. *)
Definition set_comparison (name : string) (v : list value) (res : t) : t :=
  if decide (name = "values") then
    {| type := type res;
       values := v;
       ref_node_name := ref_node_name res;
       ref_node_target_type := ref_node_target_type res;
       prev_node_name := prev_node_name res;
       prev_node_target_type := prev_node_target_type res;
       index_within_arg := index_within_arg res;
       index_of_arg := index_of_arg res;
       fqn := fqn res;
       qconfig_str := qconfig_str res;
       comparisons := comparisons res |}
  else
    {| type := type res;
       values := values res;
       ref_node_name := ref_node_name res;
       ref_node_target_type := ref_node_target_type res;
       prev_node_name := prev_node_name res;
       prev_node_target_type := prev_node_target_type res;
       index_within_arg := index_within_arg res;
       index_of_arg := index_of_arg res;
       fqn := fqn res;
       qconfig_str := qconfig_str res;
       comparisons := dict_set name v (comparisons res) |}.

(** The list that the record holds under [name], when it holds one. *)
Definition get_comparison (name : string) (res : t) : option (list value) :=
  if decide (name = "values") then Some (values res)
  else dict_get name (comparisons res).

(** [res['index_within_arg']]: the integer written by extraction, unless a
    comparison has been stored under this key since. *)
Definition getitem_index_within_arg (res : t) : value :=
  match dict_get "index_within_arg" (comparisons res) with
  | Some compared => VList compared
  | None => VInt (index_within_arg res)
  end.

(** [res['index_of_arg']], likewise. *)
Definition getitem_index_of_arg (res : t) : value :=
  match dict_get "index_of_arg" (comparisons res) with
  | Some compared => VList compared
  | None => VInt (index_of_arg res)
  end.

End Res.

(** [NSResultsType]: match name, then result type, then model name, then the
    list of records. *)
Abbreviation NSResultsType := (dict (dict (dict (list Res.t)))).

(** [str(n)] for an integer *)
Definition str_of_int (n : Z) : string := NilZero.string_of_int (Z.to_int n).

(** The sort key [f"{res['index_of_arg']}:{res['index_within_arg']}"] *)
Definition sort_key (res : Res.t) : string :=
  str_of_int (Res.index_of_arg res) ++ ":" ++ str_of_int (Res.index_within_arg res).

(** [list.sort(key=sort_key)]: the sort is stable and compares the keys as
    strings; a stable sort has one result, given here by insertion. *)
Fixpoint sort_insert (res : Res.t) (sorted : list Res.t) : list Res.t :=
  match sorted with
  | [] => [res]
  | r :: rest =>
      if String.ltb (sort_key res) (sort_key r) then res :: r :: rest
      else r :: sort_insert res rest
  end.

Definition list_sort (l : list Res.t) : list Res.t :=
  fold_left (fun sorted res => sort_insert res sorted) l [].

(** ** Logger-info extraction *)

(** The modules of a model as [named_modules()] yields them. *)
Inductive nn_module : Type :=
| LoggerModule (l : OutputLogger)
| ScriptedLoggerModule (l : OutputLogger)
| OtherModule.

(** [isinstance(mod, logger_cls)], or a scripted module whose original name
    is [OutputLogger]. *)
Definition as_logger (mod_ : nn_module) : option OutputLogger :=
  match mod_ with
  | LoggerModule l | ScriptedLoggerModule l => Some l
  | OtherModule => None
  end.

(** The record appended for one logger. *)
Definition logger_record (mod_ : OutputLogger) : Res.t :=
  let stats_to_use :=
    if (0 <? length (stats_rnn mod_))%nat then stats_rnn mod_ else stats mod_ in
  {| Res.type := results_type mod_;
     Res.values := stats_to_use;
     Res.ref_node_name := ref_node_name mod_;
     Res.ref_node_target_type := ref_node_target_type mod_;
     Res.prev_node_name := prev_node_name mod_;
     Res.prev_node_target_type := prev_node_target_type mod_;
     Res.index_within_arg := index_within_arg mod_;
     Res.index_of_arg := index_of_arg mod_;
     Res.fqn := fqn mod_;
     Res.qconfig_str := qconfig_str mod_;
     Res.comparisons := [] |}.

(** The body of the loop of [_extract_logger_info_one_model] for a logger. *)
Definition extract_logger (mod_ : OutputLogger) (results : NSResultsType)
    : result NSResultsType :=
  let key := ref_name mod_ in
  let results := if dict_in key results then results else dict_set key [] results in
  by_key ← dict_getitem key results;
  _ ← py_assert (negb (dict_in (model_name mod_) by_key));
  let by_key :=
    if dict_in (results_type mod_) by_key then by_key
    else dict_set (results_type mod_) [] by_key in
  by_type ← dict_getitem (results_type mod_) by_key;
  let by_type :=
    if dict_in (model_name mod_) by_type then by_type
    else dict_set (model_name mod_) [] by_type in
  records ← dict_getitem (model_name mod_) by_type;
  let records := list_sort (records ++ [logger_record mod_]) in
  Ok (dict_set key
        (dict_set (results_type mod_)
           (dict_set (model_name mod_) records by_type) by_key) results).

Definition _extract_logger_info_one_model
    (model : list (string * nn_module)) (results : NSResultsType)
    : result NSResultsType :=
  for_each
    (fun '(gm_name, mod_) results =>
       match as_logger mod_ with
       | Some l => extract_logger l results
       | None => Ok results
       end)
    model results.

(** [results[key][results_type][model_name]], when all three keys exist. *)
Definition results_group (key rtype name : string) (results : NSResultsType)
    : option (list Res.t) :=
  by_key ← dict_get key results;
  by_type ← dict_get rtype by_key;
  dict_get name by_type.

(** ** Comparison *)

Section Comparison.

Variable model_name_1 model_name_2 : string.
Variable comparison_fn : value -> value -> value.
Variable comparison_name : string.

(** [index_1 == index_2] on what an index key of two records holds: two
    integers are compared by value, a list is never equal to an integer, and
    two lists are equal when they hold the same items in the same order. *)
Definition index_eq (index_1 index_2 : value) : bool :=
  bool_decide (index_1 = index_2).

(** The inner search for the record of model 1 at the same position. *)
Fixpoint find_result_1 (index_within_arg_2 index_of_arg_2 : value)
    (results_1 : list Res.t) : option Res.t :=
  match results_1 with
  | [] => None
  | cur_result_1 :: rest =>
      let index_within_arg_1 := Res.getitem_index_within_arg cur_result_1 in
      let index_of_arg_1 := Res.getitem_index_of_arg cur_result_1 in
      if index_eq index_within_arg_1 index_within_arg_2
         && index_eq index_of_arg_1 index_of_arg_2
      then Some cur_result_1
      else find_result_1 index_within_arg_2 index_of_arg_2 rest
  end.

(** [for value_1, value_2 in zip(values_1, values_2): acc.append(...)] *)
Fixpoint compare_values (values_1 values_2 acc : list value) : list value :=
  match values_1, values_2 with
  | value_1 :: rest_1, value_2 :: rest_2 =>
      compare_values rest_1 rest_2 (acc ++ [comparison_fn value_1 value_2])
  | _, _ => acc
  end.

(** The body of [for result_2 in results_2], for the record at position
    [i].  The two lists are read from the group at each step: when both
    model names are the same, the list scanned for [result_1] is the list
    whose records are being updated, so that a record found there may
    already hold a comparison under the key that is read. *)
Definition compare_result_2 (i : nat) (model_name_to_results : dict (list Res.t))
    : result (dict (list Res.t)) :=
  results_1 ← dict_getitem model_name_1 model_name_to_results;
  results_2 ← dict_getitem model_name_2 model_name_to_results;
  match results_2 !! i with
  | None => Raise IndexError
  | Some result_2 =>
      let index_within_arg_2 := Res.getitem_index_within_arg result_2 in
      let index_of_arg_2 := Res.getitem_index_of_arg result_2 in
      match find_result_1 index_within_arg_2 index_of_arg_2 results_1 with
      | None => Raise AssertionError
      | Some result_1 =>
          let compared :=
            compare_values (Res.values result_1) (Res.values result_2) [] in
          let result_2 := Res.set_comparison comparison_name compared result_2 in
          Ok (dict_set model_name_2 (<[i := result_2]> results_2)
                model_name_to_results)
      end
  end.

(** The body of the loop over the model-name dictionaries of one result
    type. *)
Definition compare_group (model_name_to_results : dict (list Res.t))
    : result (dict (list Res.t)) :=
  _ ← py_assert (dict_in model_name_1 model_name_to_results);
  _ ← py_assert (dict_in model_name_2 model_name_to_results);
  results_2 ← dict_getitem model_name_2 model_name_to_results;
  for_each compare_result_2 (seq 0 (length results_2)) model_name_to_results.

(** A loop over [d.items()] whose body updates the value in place. *)
Fixpoint for_items {V : Type} (body : V -> result V) (d : dict V)
    : result (dict V) :=
  match d with
  | [] => Ok []
  | (k, v) :: rest =>
      v' ← body v;
      rest' ← for_items body rest;
      Ok ((k, v') :: rest')
  end.

Definition extend_logger_results_with_comparison (results : NSResultsType)
    : result NSResultsType :=
  for_items (for_items compare_group) results.

End Comparison.

(** ** The N-variant sweep builder *)

(** An argument of a graph node: another node (by its unique name), a list
    or tuple of arguments, or anything else. *)
#[warnings="-register-all"]
Inductive argument : Type :=
| ArgNode (name : string)
| ArgSeq (items : list argument)
| ArgOther.

Definition isinstance_Node (arg : argument) : bool :=
  match arg with ArgNode _ => true | _ => false end.

Module Node.

Record t : Type := mk {
  name : string;
  op : string;
  target : string;
  args : list argument;
  kwargs : dict argument;
  (** the example value recorded by output propagation, when there is one *)
  traced_result : option value
}.

End Node.

(** What a deduplicated subgraph lists: graph nodes, or non-nodes (tuples
    and the like). *)
Inductive subgraph_entry : Type :=
| EntryNode (n : Node.t)
| EntryOther.

Definition entry_is_Node (e : subgraph_entry) : bool :=
  match e with EntryNode _ => true | EntryOther => false end.

(** What [get_normalized_nth_input] hands back: a list of nodes, a tuple of
    nodes, a node, or an object that is none of these. *)
Inductive nth_input : Type :=
| InputList (nodes : list Node.t)
| InputTuple (nodes : list Node.t)
| InputNode (n : Node.t)
| InputOther.

(** The example inputs handed to [prepare_fx]: a list of values, a
    generator over the nodes of a tuple (not yet run), or a 1-tuple. *)
Inductive example_inputs : Type :=
| ExampleList (vs : list value)
| ExampleGenerator (nodes : list Node.t)
| ExampleTuple (vs : list value).

(** The attributes of the carrier module. *)
Inductive attribute (Submodule : Type) : Type :=
| AttrLogger (l : OutputLogger)
| AttrWrapper (w : Submodule)
| AttrOther.
Arguments AttrLogger {Submodule} l.
Arguments AttrWrapper {Submodule} w.
Arguments AttrOther {Submodule}.

(** The traced model [mt]: its attribute table and its graph, the nodes in
    execution order. *)
Record GraphModule (Submodule : Type) : Type := mkGraphModule {
  attrs : gmap string (attribute Submodule);
  graph : list Node.t
}.
Arguments mkGraphModule {Submodule} attrs graph.
Arguments attrs {Submodule} g.
Arguments graph {Submodule} g.

(** The collaborators of the sweep builder: helpers of
    [torch.ao.ns.fx.n_shadows_utils], [torch.ao.ns.fx.utils] and the
    quantization compiler.  Their code is not part of this file; they are
    parameters of the model. *)
Class SweepEnv : Type := {
  QConfig : Type;
  Submodule : Type;
  _get_attr_name : nat -> nat -> string;
  _get_attr_wrapper_name : nat -> nat -> string;
  get_normalized_nth_input : Node.t -> GraphModule Submodule -> nat -> nth_input;
  _get_logger_for_subgraph :
    GraphModule Submodule -> Node.t -> Node.t -> nat -> nat -> string -> OutputLogger;
  create_submodule_from_subgraph :
    GraphModule Submodule -> Node.t -> Node.t -> Submodule;
  _add_logger_to_subgraph_wrapper : Submodule -> nat -> nat -> string -> Submodule;
  (** [QConfigMapping().set_global(qconfig)] is passed as its [qconfig] *)
  prepare_fx : Submodule -> QConfig -> example_inputs -> Submodule;
  str_of_qconfig : QConfig -> string;
  format_node : Node.t -> string
}.

Section Sweep.

Context `{env : SweepEnv}.

Definition hasattr (mt : GraphModule Submodule) (attr_name : string) : bool :=
  bool_decide (is_Some (attrs mt !! attr_name)).

Definition setattr (mt : GraphModule Submodule) (attr_name : string)
    (v : attribute Submodule) : GraphModule Submodule :=
  {| attrs := <[attr_name := v]> (attrs mt); graph := graph mt |}.

(** [mt.graph.call_module(attr_name, args, kwargs)]; the graph names the
    new node after its target. *)
Definition call_module (attr_name : string) (args : list argument)
    (kwargs : dict argument) : Node.t :=
  {| Node.name := attr_name;
     Node.op := "call_module";
     Node.target := attr_name;
     Node.args := args;
     Node.kwargs := kwargs;
     Node.traced_result := None |}.

(** The insertion points; the anchor is a node of the graph. *)
Fixpoint insert_after (anchor : string) (new_node : Node.t)
    (nodes : list Node.t) : list Node.t :=
  match nodes with
  | [] => [new_node]
  | n :: rest =>
      if decide (Node.name n = anchor) then n :: new_node :: rest
      else n :: insert_after anchor new_node rest
  end.

Fixpoint insert_before (anchor : string) (new_node : Node.t)
    (nodes : list Node.t) : list Node.t :=
  match nodes with
  | [] => [new_node]
  | n :: rest =>
      if decide (Node.name n = anchor) then new_node :: n :: rest
      else n :: insert_before anchor new_node rest
  end.

Definition inserting_after (anchor new_node : Node.t)
    (mt : GraphModule Submodule) : GraphModule Submodule :=
  {| attrs := attrs mt;
     graph := insert_after (Node.name anchor) new_node (graph mt) |}.

Definition inserting_before (anchor new_node : Node.t)
    (mt : GraphModule Submodule) : GraphModule Submodule :=
  {| attrs := attrs mt;
     graph := insert_before (Node.name anchor) new_node (graph mt) |}.

(** The positional arguments passed to a wrapper: the node arguments of
    the first node, lists and tuples of nodes flattened. *)
Definition new_args_of_arg (arg : argument) : list argument :=
  match arg with
  | ArgNode _ => [arg]
  | ArgSeq (inner_0 :: rest) =>
      if isinstance_Node inner_0 then filter (fun a => isinstance_Node a = true) (inner_0 :: rest)
      else []
  | _ => []
  end.

(** The keyword arguments passed to a wrapper, and the positional
    arguments the list-valued keyword arguments add. *)
Definition new_kwargs_of_kwarg (name : string) (old_kwarg : argument)
    (acc : list argument * dict argument) : list argument * dict argument :=
  let '(new_args, new_kwargs) := acc in
  match old_kwarg with
  | ArgNode _ => (new_args, dict_set name old_kwarg new_kwargs)
  | ArgSeq (inner_0 :: rest) => (new_args ++ inner_0 :: rest, new_kwargs)
  | _ => (new_args, new_kwargs)
  end.

Definition wrapper_call_arguments (first_node : Node.t)
    : list argument * dict argument :=
  let new_args := concat (map new_args_of_arg (Node.args first_node)) in
  fold_left (fun acc '(name, old_kwarg) => new_kwargs_of_kwarg name old_kwarg acc)
    (Node.kwargs first_node) (new_args, []).

(** The body of [for subgraph_candidate_idx in range(len(qconfig_mappings) + 1)]. *)
Definition shadow_candidate (subgraph_idx : nat) (first_node last_node : Node.t)
    (example : example_inputs)
    (list_of_node_name_to_qconfig : list (gmap string (option QConfig)))
    (subgraph_candidate_idx : nat) (mt : GraphModule Submodule)
    : result (GraphModule Submodule) :=
  if (subgraph_candidate_idx =? 0)%nat then
    let qconfig_str := "" in
    let logger_mod_orig :=
      _get_logger_for_subgraph mt first_node last_node subgraph_idx
        subgraph_candidate_idx qconfig_str in
    let attr_name := _get_attr_name subgraph_idx subgraph_candidate_idx in
    _ ← py_assert (negb (hasattr mt attr_name));
    let mt := setattr mt attr_name (AttrLogger logger_mod_orig) in
    let new_node := call_module attr_name [ArgNode (Node.name last_node)] [] in
    Ok (inserting_after last_node new_node mt)
  else
    match list_of_node_name_to_qconfig !! (subgraph_candidate_idx - 1)%nat with
    | None => Raise IndexError
    | Some node_name_to_qconfig =>
        match node_name_to_qconfig !! Node.name first_node with
        | None => Raise KeyError
        | Some None => Ok mt
        | Some (Some qconfig) =>
            let orig_mod_copy_wrapped :=
              create_submodule_from_subgraph mt first_node last_node in
            let orig_mod_copy_wrapped :=
              _add_logger_to_subgraph_wrapper orig_mod_copy_wrapped subgraph_idx
                subgraph_candidate_idx (str_of_qconfig qconfig) in
            let orig_mod_copy_wrapped :=
              prepare_fx orig_mod_copy_wrapped qconfig example in
            let attr_name :=
              _get_attr_wrapper_name subgraph_idx subgraph_candidate_idx in
            _ ← py_assert (negb (hasattr mt attr_name));
            let mt := setattr mt attr_name (AttrWrapper orig_mod_copy_wrapped) in
            let '(new_args, new_kwargs) := wrapper_call_arguments first_node in
            let new_node := call_module attr_name new_args new_kwargs in
            Ok (inserting_before first_node new_node mt)
        end
    end.

(** The console and the carrier module, the state of the outer loop. *)
Record sweep_state : Type := mkSweepState {
  mt_of : GraphModule Submodule;
  stdout : list string
}.

Definition print (line : string) (st : sweep_state) : sweep_state :=
  {| mt_of := mt_of st; stdout := stdout st ++ [line] |}.

(** [x.traced_result] *)
Definition getattr_traced_result (x : Node.t) : result value :=
  match Node.traced_result x with
  | Some v => Ok v
  | None => Raise AttributeError
  end.

Fixpoint list_comprehension {A B : Type} (f : A -> result B) (l : list A)
    : result (list B) :=
  match l with
  | [] => Ok []
  | x :: rest => y ← f x; ys ← list_comprehension f rest; Ok (y :: ys)
  end.

(** The example inputs of a subgraph from the input of its first node;
    [None] stands for the branch that prints and skips. *)
Definition example_inputs_of (prev_node : nth_input)
    : result (option example_inputs) :=
  match prev_node with
  | InputList nodes =>
      vs ← list_comprehension getattr_traced_result nodes;
      Ok (Some (ExampleList vs))
  | InputTuple nodes => Ok (Some (ExampleGenerator nodes))
  | InputNode n =>
      match Node.traced_result n with
      | Some v => Ok (Some (ExampleTuple [v]))
      | None => Ok None
      end
  | InputOther => Ok None
  end.

(** [nodes_in_this_subgraph[i]], once every entry is known to be a node *)
Definition entry_node (e : option subgraph_entry) : result Node.t :=
  match e with
  | Some (EntryNode n) => Ok n
  | Some EntryOther => Raise TypeError
  | None => Raise IndexError
  end.

(** The body of the loop over the deduplicated subgraphs. *)
Definition shadow_subgraph
    (list_of_node_name_to_qconfig : list (gmap string (option QConfig)))
    (subgraph_idx : nat) (nodes_in_this_subgraph : list subgraph_entry)
    (st : sweep_state) : result sweep_state :=
  if existsb (fun node => negb (entry_is_Node node)) nodes_in_this_subgraph
  then Ok st
  else
    first_node ← entry_node (head nodes_in_this_subgraph);
    last_node ← entry_node (last nodes_in_this_subgraph);
    let prev_node := get_normalized_nth_input first_node (mt_of st) 0 in
    example ← example_inputs_of prev_node;
    match example with
    | None =>
        Ok (print ("unable to get example input for node "
                     ++ format_node first_node ++ ", skipping") st)
    | Some example =>
        mt ← for_each
               (shadow_candidate subgraph_idx first_node last_node example
                  list_of_node_name_to_qconfig)
               (seq 0 (length list_of_node_name_to_qconfig + 1))
               (mt_of st);
        Ok {| mt_of := mt; stdout := stdout st |}
    end.

(** [for subgraph_idx, (match_name, nodes) in enumerate(subgraphs_dedup.items())] *)
Fixpoint shadow_subgraphs
    (list_of_node_name_to_qconfig : list (gmap string (option QConfig)))
    (subgraphs_dedup : dict (list subgraph_entry)) (subgraph_idx : nat)
    (st : sweep_state) : result sweep_state :=
  match subgraphs_dedup with
  | [] => Ok st
  | (match_name, nodes_in_this_subgraph) :: rest =>
      st' ← shadow_subgraph list_of_node_name_to_qconfig subgraph_idx
              nodes_in_this_subgraph st;
      shadow_subgraphs list_of_node_name_to_qconfig rest (S subgraph_idx) st'
  end.

(** [prepare_n_shadows_model] from the traced model on: the subgraphs and
    the per-candidate node-to-qconfig maps are what the matcher and the
    resolver returned for it. *)
Definition prepare_n_shadows_model (mt : GraphModule Submodule)
    (subgraphs_dedup : dict (list subgraph_entry))
    (list_of_node_name_to_qconfig : list (gmap string (option QConfig)))
    : result sweep_state :=
  shadow_subgraphs list_of_node_name_to_qconfig subgraphs_dedup 0
    {| mt_of := mt; stdout := [] |}.

End Sweep.

(** ** Concrete data used by the examples *)

Definition tensor_x : Tensor :=
  {| shape := [2%nat]; elems := [3; 4]; requires_grad := true |}.

Definition tensor_h : Tensor :=
  {| shape := [1%nat]; elems := [5]; requires_grad := true |}.

Definition tensor_c : Tensor :=
  {| shape := [1%nat]; elems := [6]; requires_grad := false |}.

(** A logger of model [name] for reference [ref] at the given position. *)
Definition logger_at (ref name rtype : string) (of_arg within_arg : Z)
    (on : bool) : OutputLogger :=
  {| stats := []; stats_rnn := [];
     ref_node_name := ref; prev_node_name := ref;
     model_name := name; ref_name := ref;
     prev_node_target_type := "torch.nn.Linear";
     ref_node_target_type := "torch.nn.Linear";
     results_type := rtype;
     index_within_arg := within_arg; index_of_arg := of_arg;
     fqn := None; enabled := on; qconfig_str := Some "" |}.

(** The output of an attention layer called without weights: [(out, None)]. *)
Definition attention_output : value := VTuple [VTensor tensor_x; VNone].

(** ** Notions used to state the properties of the aggregation *)

(** The loggers among the modules of a model, in traversal order. *)
Definition loggers_of (model : list (string * nn_module)) : list OutputLogger :=
  omap (fun '(gm_name, mod_) => as_logger mod_) model.

(** The logger reports into the group [key]/[rtype]/[name]. *)
Definition logger_in_group (key rtype name : string) (l : OutputLogger) : Prop :=
  ref_name l = key /\ results_type l = rtype /\ model_name l = name.

#[global] Instance logger_in_group_dec key rtype name l :
  Decision (logger_in_group key rtype name l).
Proof. unfold logger_in_group. apply _. Defined.

(** Ascending order of the numeric pair [(index_of_arg, index_within_arg)]. *)
Definition index_pair_le (r1 r2 : Res.t) : Prop :=
  Res.index_of_arg r1 < Res.index_of_arg r2
  \/ (Res.index_of_arg r1 = Res.index_of_arg r2
      /\ Res.index_within_arg r1 <= Res.index_within_arg r2).

Definition sorted_by_index_pair (l : list Res.t) : Prop :=
  StronglySorted index_pair_le l.

(** Ascending order of the sort keys, compared as strings. *)
Definition sort_key_le (r1 r2 : Res.t) : Prop :=
  String.ltb (sort_key r2) (sort_key r1) = false.

(** The input loggers of a [torch.cat] over eleven tensors, at positions 2
    and 10 of its first argument. *)
Definition cat_logger_2 : OutputLogger :=
  logger_at "cat" "a" "node_input" 0 2 true.

Definition cat_logger_10 : OutputLogger :=
  logger_at "cat" "a" "node_input" 0 10 true.

(** The two input loggers of an [add], both of model [a]. *)
Definition add_logger_0 : OutputLogger :=
  logger_at "add" "a" "node_input" 0 0 true.

Definition add_logger_1 : OutputLogger :=
  logger_at "add" "a" "node_input" 1 0 true.

(** A logger that has captured both a plain tensor and a recurrent value. *)
Definition mixed_logger : OutputLogger :=
  {| stats := [VTensor (detach tensor_x)];
     stats_rnn :=
       [VTuple [VTensor (detach tensor_x);
                VTuple [VTensor (detach tensor_h); VTensor (detach tensor_c)]]];
     ref_node_name := "lstm"; prev_node_name := "lstm";
     model_name := "a"; ref_name := "lstm";
     prev_node_target_type := "torch.nn.LSTM";
     ref_node_target_type := "torch.nn.LSTM";
     results_type := "node_output";
     index_within_arg := 0; index_of_arg := 0;
     fqn := None; enabled := true; qconfig_str := Some "" |}.


(** ** The comparison as the specification words it

    For every group, every record of model 2 is paired with the record of
    model 1 that has the same [(index_of_arg, index_within_arg)]; the two
    value sequences are paired element-wise in capture order, the comparison
    function is applied to each pair, and the list of results is stored in
    the record of model 2 under the comparison name. *)

Section ComparisonSpec.

Variable model_name_1 model_name_2 : string.
Variable comparison_fn : value -> value -> value.
Variable comparison_name : string.

(** Two records at the same position: they hold the same thing under
    ['index_of_arg'] and under ['index_within_arg']. *)
Definition same_index_pair (r1 r2 : Res.t) : Prop :=
  Res.getitem_index_of_arg r1 = Res.getitem_index_of_arg r2
  /\ Res.getitem_index_within_arg r1 = Res.getitem_index_within_arg r2.

#[global] Instance same_index_pair_dec r1 r2 : Decision (same_index_pair r1 r2).
Proof. unfold same_index_pair. apply _. Defined.

(** The record of model 1 paired with [result_2]. *)
Definition counterpart (results_1 : list Res.t) (result_2 : Res.t)
    : option Res.t :=
  List.find (fun r1 => bool_decide (same_index_pair r1 result_2)) results_1.

Definition with_comparison (results_1 : list Res.t) (result_2 : Res.t) : Res.t :=
  match counterpart results_1 result_2 with
  | Some result_1 =>
      Res.set_comparison comparison_name
        (zip_with comparison_fn (Res.values result_1) (Res.values result_2))
        result_2
  | None => result_2
  end.

(** Both models have a record list in the group and every record of
    model 2 has a record of model 1 at the same position. *)
Definition group_comparable (model_name_to_results : dict (list Res.t)) : Prop :=
  match dict_get model_name_1 model_name_to_results,
        dict_get model_name_2 model_name_to_results with
  | Some results_1, Some results_2 =>
      Forall (fun r2 => Exists (fun r1 => same_index_pair r1 r2) results_1) results_2
  | _, _ => False
  end.

#[global] Instance group_comparable_dec m : Decision (group_comparable m).
Proof.
  unfold group_comparable.
  destruct (dict_get model_name_1 m), (dict_get model_name_2 m); apply _.
Defined.

Definition compared_group (model_name_to_results : dict (list Res.t))
    : dict (list Res.t) :=
  match dict_get model_name_1 model_name_to_results,
        dict_get model_name_2 model_name_to_results with
  | Some results_1, Some results_2 =>
      dict_set model_name_2 (map (with_comparison results_1) results_2)
        model_name_to_results
  | _, _ => model_name_to_results
  end.

Definition results_comparable (results : NSResultsType) : Prop :=
  Forall (fun kv => Forall (fun tv => group_comparable tv.2) kv.2) results.

#[global] Instance results_comparable_dec results :
  Decision (results_comparable results).
Proof. unfold results_comparable. apply _. Defined.

Definition compared_results (results : NSResultsType) : NSResultsType :=
  map (fun kv => (kv.1, map (fun tv => (tv.1, compared_group tv.2)) kv.2)) results.

End ComparisonSpec.

(** Two models with one output record each for a [linear], model [a] having
    captured two batches and model [b] three; the metric is the pair. *)
Definition linear_record (vals : list value) : Res.t :=
  {| Res.type := "node_output"; Res.values := vals;
     Res.ref_node_name := "linear"; Res.ref_node_target_type := "torch.nn.Linear";
     Res.prev_node_name := "linear"; Res.prev_node_target_type := "torch.nn.Linear";
     Res.index_within_arg := 0; Res.index_of_arg := 0;
     Res.fqn := Some "linear"; Res.qconfig_str := Some "";
     Res.comparisons := [] |}.

Definition linear_results : NSResultsType :=
  [("linear", [("node_output",
       [("a", [linear_record [VInt 1; VInt 2]]);
        ("b", [linear_record [VInt 10; VInt 20; VInt 30]])])])].

Definition pair_metric (v1 v2 : value) : value := VTuple [v1; v2].

(** Two records of one model at the same position, with one capture each. *)
Definition twin_records : list Res.t :=
  [linear_record [VInt 1]; linear_record [VInt 2]].


(** Two records that agree on what the comparison reads of a record. *)
Definition same_core (r r' : Res.t) : Prop :=
  Res.getitem_index_of_arg r = Res.getitem_index_of_arg r'
  /\ Res.getitem_index_within_arg r = Res.getitem_index_within_arg r'
  /\ Res.values r = Res.values r'.


(** ** Notions used to state the properties of the sweep builder *)

Section SweepNotions.

Context `{env : SweepEnv}.

(** The attribute name derived for a (subgraph, candidate) pair: the logger
    name for candidate 0, the wrapper name for the others. *)
Definition derived_name (subgraph_idx subgraph_candidate_idx : nat) : string :=
  if (subgraph_candidate_idx =? 0)%nat
  then _get_attr_name subgraph_idx subgraph_candidate_idx
  else _get_attr_wrapper_name subgraph_idx subgraph_candidate_idx.

(** The names derived for the candidates [0..N] of one subgraph, and for
    all the pairs of a sweep over [n] subgraphs. *)
Definition derived_names_of (subgraph_idx N : nat) : list string :=
  derived_name subgraph_idx <$> seq 0 (N + 1).

Definition derived_names (n N : nat) : list string :=
  concat ((fun subgraph_idx => derived_names_of subgraph_idx N) <$> seq 0 n).

(** The per-node config a candidate mapping resolves to for the first node
    of the subgraph is null. *)
Definition resolves_to_null (first_node : Node.t)
    (node_name_to_qconfig : gmap string (option QConfig)) : bool :=
  match node_name_to_qconfig !! Node.name first_node with
  | Some None => true
  | _ => false
  end.

(** A candidate for which the builder attaches an attribute: candidate 0,
    and every candidate whose resolved config is not null. *)
Definition attaches (first_node : Node.t)
    (list_of_node_name_to_qconfig : list (gmap string (option QConfig)))
    (subgraph_candidate_idx : nat) : bool :=
  if (subgraph_candidate_idx =? 0)%nat then true
  else
    match list_of_node_name_to_qconfig !! (subgraph_candidate_idx - 1)%nat with
    | Some node_name_to_qconfig =>
        match node_name_to_qconfig !! Node.name first_node with
        | Some (Some _) => true
        | _ => false
        end
    | None => false
    end.




(** The diagnostic printed for a subgraph that has no example input. *)
Definition skip_message (first_node : Node.t) : string :=
  ("unable to get example input for node " ++ format_node first_node
   ++ ", skipping")%string.

End SweepNotions.

(** ** A concrete sweep environment for the examples *)

(** The wrapper sub-units as the terms that build them. *)
Inductive example_submodule : Type :=
| Wrapped (first_node last_node : string)
| WithLogger (w : example_submodule) (subgraph_idx subgraph_candidate_idx : nat)
    (qconfig_str : string)
| Prepared (w : example_submodule) (qconfig : string) (example : example_inputs).

Definition find_node (name : string) (nodes : list Node.t) : option Node.t :=
  List.find (fun n => bool_decide (Node.name n = name)) nodes.

Definition example_nth_input (n : Node.t) (mt : GraphModule example_submodule)
    (idx : nat) : nth_input :=
  match Node.args n !! idx with
  | Some (ArgNode name) =>
      match find_node name (graph mt) with
      | Some p => InputNode p
      | None => InputOther
      end
  | Some (ArgSeq items) =>
      InputList
        (omap (fun a => match a with
                        | ArgNode name => find_node name (graph mt)
                        | _ => None
                        end) items)
  | _ => InputOther
  end.

Definition nat_str (n : nat) : string := str_of_int (Z.of_nat n).

Definition example_env : SweepEnv :=
  {| QConfig := string;
     Submodule := example_submodule;
     _get_attr_name :=
       fun i j => ("shadow_" ++ nat_str i ++ "_" ++ nat_str j)%string;
     _get_attr_wrapper_name :=
       fun i j => ("shadow_wrapper_" ++ nat_str i ++ "_" ++ nat_str j)%string;
     get_normalized_nth_input := example_nth_input;
     _get_logger_for_subgraph :=
       fun mt first_node last_node i j qconfig_str =>
         logger_at ("subgraph_" ++ nat_str i ++ "_0")%string
           ("subgraph_" ++ nat_str i ++ "_" ++ nat_str j)%string
           "node_output" 0 0 false;
     create_submodule_from_subgraph :=
       fun mt first_node last_node =>
         Wrapped (Node.name first_node) (Node.name last_node);
     _add_logger_to_subgraph_wrapper := WithLogger;
     prepare_fx := Prepared;
     str_of_qconfig := fun q => q;
     format_node := Node.name |}.

(** The graph [x -> linear -> relu], the input carrying an example value. *)
Definition node_x (example : option value) : Node.t :=
  {| Node.name := "x"; Node.op := "placeholder"; Node.target := "x";
     Node.args := []; Node.kwargs := []; Node.traced_result := example |}.

Definition node_linear : Node.t :=
  {| Node.name := "linear"; Node.op := "call_module"; Node.target := "linear";
     Node.args := [ArgNode "x"]; Node.kwargs := [];
     Node.traced_result := Some (VTensor tensor_x) |}.

Definition node_relu : Node.t :=
  {| Node.name := "relu"; Node.op := "call_module"; Node.target := "relu";
     Node.args := [ArgNode "linear"]; Node.kwargs := [];
     Node.traced_result := Some (VTensor tensor_x) |}.

(** [torch.cat([x, y])] as the first node of a subgraph. *)
Definition node_y (example : option value) : Node.t :=
  {| Node.name := "y"; Node.op := "placeholder"; Node.target := "y";
     Node.args := []; Node.kwargs := []; Node.traced_result := example |}.

Definition node_cat : Node.t :=
  {| Node.name := "cat"; Node.op := "call_function"; Node.target := "torch.cat";
     Node.args := [ArgSeq [ArgNode "x"; ArgNode "y"]]; Node.kwargs := [];
     Node.traced_result := Some (VTensor tensor_x) |}.

Definition example_mt (nodes : list Node.t) : GraphModule example_submodule :=
  {| attrs := {["linear" := AttrOther; "relu" := AttrOther]}; graph := nodes |}.

(** Two candidate mappings: the first resolves to a config for every node,
    the second to null for [linear]. *)
Definition example_qconfigs : list (gmap string (option string)) :=
  [ {["linear" := Some "int8"; "relu" := Some "int8"; "cat" := Some "int8"]};
    {["linear" := None; "relu" := Some "fp16"; "cat" := Some "fp16"]} ].


(** The traced model [x -> linear -> relu] before the sweep, the input
    with or without a recorded example value. *)
Definition linear_relu_model (example : option value)
    : GraphModule example_submodule :=
  example_mt [node_x example; node_linear; node_relu].

Definition initial_state (mt : GraphModule example_submodule)
    : @sweep_state example_env :=
  @mkSweepState example_env mt [].

(** The model [x, y -> cat] where [y] has no recorded example value. *)
Definition cat_model : GraphModule example_submodule :=
  example_mt [node_x (Some (VTensor tensor_x)); node_y None; node_cat].




(** The sweep of the subgraph [linear -> relu] with the two candidates:
    the probe of candidate 0 after [relu], the wrapper of candidate 1
    before [linear], nothing for candidate 2 (null for [linear]). *)
Definition linear_relu_swept : @sweep_state example_env :=
  @mkSweepState example_env
    {| attrs :=
         <["shadow_wrapper_0_1" :=
             AttrWrapper
               (Prepared (WithLogger (Wrapped "linear" "relu") 0 1 "int8") "int8"
                  (ExampleTuple [VTensor tensor_x]))]>
           (<["shadow_0_0" :=
                AttrLogger
                  (logger_at "subgraph_0_0" "subgraph_0_0" "node_output" 0 0 false)]>
              (attrs (linear_relu_model (Some (VTensor tensor_x)))));
       graph :=
         [node_x (Some (VTensor tensor_x));
          {| Node.name := "shadow_wrapper_0_1"; Node.op := "call_module";
             Node.target := "shadow_wrapper_0_1"; Node.args := [ArgNode "x"];
             Node.kwargs := []; Node.traced_result := None |};
          node_linear; node_relu;
          {| Node.name := "shadow_0_0"; Node.op := "call_module";
             Node.target := "shadow_0_0"; Node.args := [ArgNode "relu"];
             Node.kwargs := []; Node.traced_result := None |}] |}
    [].


(* ===================================================================== *)
(** * Part I, continued: the rest of the module                            *)
(* ===================================================================== *)

(** ** The life of a logger *)

(** [OutputLogger.__init__]: a new logger has captured nothing and is
    enabled. *)
Definition OutputLogger__init__
    (ref_node_name prev_node_name model_name ref_name prev_node_target_type
       ref_node_target_type results_type : string)
    (index_within_arg index_of_arg : Z) (fqn : option string)
    (qconfig_str : option string) : OutputLogger :=
  {| stats := [];
     stats_rnn := [];
     ref_node_name := ref_node_name;
     prev_node_name := prev_node_name;
     model_name := model_name;
     ref_name := ref_name;
     prev_node_target_type := prev_node_target_type;
     ref_node_target_type := ref_node_target_type;
     results_type := results_type;
     index_within_arg := index_within_arg;
     index_of_arg := index_of_arg;
     fqn := fqn;
     enabled := true;
     qconfig_str := qconfig_str |}.

(** The logger called on the values [xs] one after the other, as the host
    graph does on successive batches: the values handed to the consumers and
    the logger after the last call. *)
Fixpoint forward_calls (self : OutputLogger) (xs : list value)
    : result (list value * OutputLogger) :=
  match xs with
  | [] => Ok ([], self)
  | x :: rest =>
      '(y, self) ← forward self x;
      '(ys, self) ← forward_calls self rest;
      Ok (y :: ys, self)
  end.

(** No tensor inside the value is attached to the autograd graph. *)
Fixpoint value_detached (v : value) : bool :=
  match v with
  | VTensor t => negb (requires_grad t)
  | VTuple items | VList items => forallb value_detached items
  | VNone | VInt _ => true
  end.

(** What a call of [forward] leaves alone: everything but the two capture
    lists. *)
Definition same_metadata (self self' : OutputLogger) : Prop :=
  ref_node_name self' = ref_node_name self
  /\ prev_node_name self' = prev_node_name self
  /\ model_name self' = model_name self
  /\ ref_name self' = ref_name self
  /\ prev_node_target_type self' = prev_node_target_type self
  /\ ref_node_target_type self' = ref_node_target_type self
  /\ results_type self' = results_type self
  /\ index_within_arg self' = index_within_arg self
  /\ index_of_arg self' = index_of_arg self
  /\ fqn self' = fqn self
  /\ enabled self' = enabled self
  /\ qconfig_str self' = qconfig_str self.

(** Both position indices of the record are single decimal digits. *)
Definition single_digit_indices (r : Res.t) : Prop :=
  (0 <= Res.index_of_arg r < 10) /\ (0 <= Res.index_within_arg r < 10).

(** The sort key of a record with the given position. *)
Definition sort_key_of (index_of_arg index_within_arg : Z) : string :=
  str_of_int index_of_arg ++ ":" ++ str_of_int index_within_arg.

(** For single-digit positions the order of the sort keys, compared as
    strings, is the order of the numeric pairs (checked on the hundred
    positions). *)
Definition digits : list Z := [0; 1; 2; 3; 4; 5; 6; 7; 8; 9].

Definition digit_keys_agree : bool :=
  forallb (fun a => forallb (fun b => forallb (fun c => forallb (fun d =>
    implb (negb (String.ltb (sort_key_of c d) (sort_key_of a b)))
          ((a <? c)%Z || ((a =? c)%Z && (b <=? d)%Z)))
    digits) digits) digits) digits.


(** [results[key][rtype]], the dictionary from model names to record lists. *)
Definition results_by_model (key rtype : string) (results : NSResultsType)
    : option (dict (list Res.t)) :=
  by_key ← dict_get key results;
  dict_get rtype by_key.

(** ** Weight extraction *)

(** A matched subgraph as the matcher returns it. *)
Record NSSubgraph : Type := mkNSSubgraph {
  start_node : Node.t;
  end_node : Node.t;
  base_op_node : Node.t
}.

Section Weights.

(** The models the weights are read from, and the collaborators of
    [torch.ao.ns.fx]: [NSSingleResultValuesType.WEIGHT.value],
    [extract_weight_from_node] (with the table of extraction functions it
    is given), [maybe_add_missing_fqns] and
    [rekey_logger_info_on_node_name_of_model]. *)
Context {Model : Type}.
Variable WEIGHT : string.
Variable extract_weight_from_node : Node.t -> Model -> option Res.t.
Variable maybe_add_missing_fqns : NSResultsType -> NSResultsType.
Variable rekey_logger_info_on_node_name_of_model : NSResultsType -> string -> NSResultsType.

(** The body of the loop of [_extract_weights_one_model]; the test
    [if extracted_weight:] holds for a record, a dictionary that is not
    empty, and fails for [None]. *)
Definition extract_weight (model_name : string) (model : Model)
    (node_and_name : Node.t * string) (results : NSResultsType)
    : result NSResultsType :=
  let '(node, ref_name) := node_and_name in
  let res_type := WEIGHT in
  match extract_weight_from_node node model with
  | Some extracted_weight =>
      let results :=
        if dict_in ref_name results then results
        else dict_set ref_name [(res_type, [])] results in
      by_ref ← dict_getitem ref_name results;
      by_type ← dict_getitem res_type by_ref;
      Ok (dict_set ref_name
            (dict_set res_type
               (dict_set model_name [extracted_weight] by_type) by_ref) results)
  | None => Ok results
  end.

Definition _extract_weights_one_model (model_name : string) (model : Model)
    (nodes_and_names_to_instrument : list (Node.t * string))
    (results : NSResultsType) : result NSResultsType :=
  for_each (extract_weight model_name model) nodes_and_names_to_instrument results.

(** [_extract_weights_impl] from the matched subgraph pairs on. *)
Definition _extract_weights_impl (model_name_a : string) (gm_a : Model)
    (model_name_b : string) (gm_b : Model)
    (matched_subgraph_pairs : dict (NSSubgraph * NSSubgraph))
    : result NSResultsType :=
  let nodes_and_names_to_instrument_a :=
    map (fun '(match_name, (subgraph_a, subgraph_b)) =>
           (base_op_node subgraph_a, match_name)) matched_subgraph_pairs in
  let nodes_and_names_to_instrument_b :=
    map (fun '(match_name, (subgraph_a, subgraph_b)) =>
           (base_op_node subgraph_b, match_name)) matched_subgraph_pairs in
  let results : NSResultsType := [] in
  results ← _extract_weights_one_model model_name_a gm_a
              nodes_and_names_to_instrument_a results;
  results ← _extract_weights_one_model model_name_b gm_b
              nodes_and_names_to_instrument_b results;
  let results := maybe_add_missing_fqns results in
  Ok (rekey_logger_info_on_node_name_of_model results model_name_b).

(** The weights found for the reference name [ref_name], in the order of
    the nodes. *)
Definition weights_for (model : Model) (ref_name : string)
    (nodes_and_names : list (Node.t * string)) : list Res.t :=
  omap (fun '(node, name) =>
          if decide (name = ref_name) then extract_weight_from_node node model
          else None)
    nodes_and_names.

(** The reference name has an entry, but none for the weights in it. *)
Definition lacks_weight_key (ref_name : string) (results : NSResultsType) : Prop :=
  exists by_ref,
    dict_get ref_name results = Some by_ref /\ dict_get WEIGHT by_ref = None.

End Weights.

(** A model as its table of weights, by the target of the node that owns
    them; the weight of a node is reported as a one-tensor record. *)
Definition weight_record (node : Node.t) (w : Tensor) : Res.t :=
  {| Res.type := "weight"; Res.values := [VTensor w];
     Res.ref_node_name := Node.name node;
     Res.ref_node_target_type := Node.target node;
     Res.prev_node_name := Node.name node;
     Res.prev_node_target_type := Node.target node;
     Res.index_within_arg := 0; Res.index_of_arg := 0;
     Res.fqn := None; Res.qconfig_str := None;
     Res.comparisons := [] |}.

Definition example_weight_from_node (node : Node.t) (model : dict Tensor)
    : option Res.t :=
  weight_record node <$> dict_get (Node.target node) model.

Definition example_subgraph (n : Node.t) : NSSubgraph :=
  {| start_node := n; end_node := n; base_op_node := n |}.

(** ** Conversion of a swept model *)

(** The collaborators of [convert_n_shadows_model]: the name prefix of the
    wrapper nodes (a constant of [torch.ao.ns.fx.n_shadows_utils]), the
    quantization compiler's [convert_fx], which may fail, and the effect of
    switching on the loggers that sit inside a wrapper. *)
Class ConvertEnv `{env : SweepEnv} : Type := {
  SHADOW_WRAPPER_NODE_NAME_PREFIX : string;
  convert_fx : attribute Submodule -> result (attribute Submodule);
  enable_loggers_inside : Submodule -> Submodule
}.

(** [child.enabled = True] *)
Definition set_enabled (on : bool) (self : OutputLogger) : OutputLogger :=
  {| stats := stats self;
     stats_rnn := stats_rnn self;
     ref_node_name := ref_node_name self;
     prev_node_name := prev_node_name self;
     model_name := model_name self;
     ref_name := ref_name self;
     prev_node_target_type := prev_node_target_type self;
     ref_node_target_type := ref_node_target_type self;
     results_type := results_type self;
     index_within_arg := index_within_arg self;
     index_of_arg := index_of_arg self;
     fqn := fqn self;
     enabled := on;
     qconfig_str := qconfig_str self |}.

Section Convert.

Context `{cenv : ConvertEnv}.

(** The body of the loop over the nodes of the graph. *)
Definition convert_node (node : Node.t) (model : GraphModule Submodule)
    : result (GraphModule Submodule) :=
  if String.prefix SHADOW_WRAPPER_NODE_NAME_PREFIX (Node.name node) then
    match attrs model !! Node.name node with
    | None => Raise AttributeError
    | Some orig_mod =>
        converted_mod ← convert_fx orig_mod;
        Ok (setattr model (Node.name node) converted_mod)
    end
  else Ok model.

(** The loop over [named_modules()] on one attribute: a logger is switched
    on, and so are the loggers inside a wrapper. *)
Definition enable_loggers (a : attribute Submodule) : attribute Submodule :=
  match a with
  | AttrLogger child => AttrLogger (set_enabled true child)
  | AttrWrapper w => AttrWrapper (enable_loggers_inside w)
  | AttrOther => AttrOther
  end.

Definition convert_n_shadows_model (model : GraphModule Submodule)
    : result (GraphModule Submodule) :=
  model ← for_each convert_node (graph model) model;
  Ok {| attrs := enable_loggers <$> attrs model; graph := graph model |}.

(** The node is one of those the conversion replaces the attribute of. *)
Definition is_wrapper_node (node : Node.t) : Prop :=
  String.prefix SHADOW_WRAPPER_NODE_NAME_PREFIX (Node.name node) = true.

End Convert.


(** A conversion for the examples: the converter hands back the module it
    is given, and the wrappers hold no logger. *)
#[global] Instance example_convert_env : @ConvertEnv example_env :=
  {| SHADOW_WRAPPER_NODE_NAME_PREFIX := "shadow_wrapper";
     convert_fx := fun a => Ok a;
     enable_loggers_inside := fun w => w |}.

(** An attribute the sweep attaches: a logger or a wrapper. *)
Definition is_branch_attribute {Submodule : Type} (v : attribute Submodule) : Prop :=
  (exists l, v = AttrLogger l) \/ (exists w, v = AttrWrapper w).

(** ** Grouping the results of a sweep *)

(** [s.split(sep)] for a one-character separator: the piece before the
    first separator and the pieces after it. *)
Fixpoint str_split_pieces (sep : ascii) (s : string) : string * list string :=
  match s with
  | EmptyString => (EmptyString, [])
  | String c rest =>
      let '(piece, pieces) := str_split_pieces sep rest in
      if Ascii.eqb c sep then (EmptyString, piece :: pieces)
      else (String c piece, pieces)
  end.

Definition str_split (sep : ascii) (s : string) : list string :=
  let '(piece, pieces) := str_split_pieces sep s in piece :: pieces.

Module Grouped.

(** What [group_results_by_subgraph] keeps of the first record of a
    candidate. *)
Record t : Type := mk {
  ref_node_name : string;
  values : list value;
  qconfig_str : option string
}.

End Grouped.

(** The outcome of a function that can also raise an exception that is not
    one of the five above (the [ValueError] of an unpacking, the
    [NameError] of a name that was never bound, an error of the tensor
    library): such an exception is given by the name of its class. *)
Inductive outcome (A : Type) : Type :=
| Returns (a : A)
| Raises (e : exn)
| RaisesOther (cls : string).
Arguments Returns {A} a.
Arguments Raises {A} e.
Arguments RaisesOther {A} cls.

#[global] Instance outcome_ret : MRet outcome := fun A a => Returns a.

#[global] Instance outcome_bind : MBind outcome := fun A B f m =>
  match m with
  | Returns a => f a
  | Raises e => Raises e
  | RaisesOther cls => RaisesOther cls
  end.

(** The body of the loop of [group_results_by_subgraph]; the accumulator is
    a [defaultdict(dict)]. *)
Definition group_subgraph (item : string * list Res.t)
    (subgraph_name_to_subgraph_results : dict (dict Grouped.t))
    : outcome (dict (dict Grouped.t)) :=
  let '(subgraph_name_with_idx, subgraph_candidate_results) := item in
  match str_split "_" subgraph_name_with_idx with
  | [subgraph_str; subgraph_idx; subgraph_candidate_idx] =>
      let subgraph_name := (subgraph_str ++ "_" ++ subgraph_idx)%string in
      match subgraph_candidate_results !! 0%nat with
      | None => Raises IndexError
      | Some first =>
          let subgraph_results :=
            {| Grouped.ref_node_name := Res.ref_node_name first;
               Grouped.values := Res.values first;
               Grouped.qconfig_str := Res.qconfig_str first |} in
          let by_candidate :=
            default [] (dict_get subgraph_name subgraph_name_to_subgraph_results) in
          Returns
            (dict_set subgraph_name
               (dict_set subgraph_candidate_idx subgraph_results by_candidate)
               subgraph_name_to_subgraph_results)
      end
  | _ => RaisesOther "ValueError"
  end.

Fixpoint group_subgraphs (items : dict (list Res.t))
    (subgraph_name_to_subgraph_results : dict (dict Grouped.t))
    : outcome (dict (dict Grouped.t)) :=
  match items with
  | [] => Returns subgraph_name_to_subgraph_results
  | item :: rest =>
      acc ← group_subgraph item subgraph_name_to_subgraph_results;
      group_subgraphs rest acc
  end.

Definition group_results_by_subgraph (results : NSResultsType)
    : outcome (dict (dict Grouped.t)) :=
  match dict_get "model" results with
  | None => Raises KeyError
  | Some by_type =>
      match dict_get "node_output" by_type with
      | None => Raises KeyError
      | Some items => group_subgraphs items []
      end
  end.

(** The number of occurrences of a character in a string. *)
Fixpoint occurrences (c : ascii) (s : string) : nat :=
  match s with
  | EmptyString => 0%nat
  | String c' rest => ((if Ascii.eqb c' c then 1 else 0) + occurrences c rest)%nat
  end.


(** What the grouping keeps of a record. *)
Definition summary_of (first : Res.t) : Grouped.t :=
  {| Grouped.ref_node_name := Res.ref_node_name first;
     Grouped.values := Res.values first;
     Grouped.qconfig_str := Res.qconfig_str first |}.


(** ** More concrete data for the examples *)




Definition swept_grouped : dict (dict Grouped.t) :=
  [("subgraph_0",
    [("0", {| Grouped.ref_node_name := "linear"; Grouped.values := [VInt 1];
              Grouped.qconfig_str := Some "subgraph_0_0" |});
     ("1", {| Grouped.ref_node_name := "linear"; Grouped.values := [VInt 2];
              Grouped.qconfig_str := Some "subgraph_0_1" |})])].

(** The comparison of [linear_results]. *)
Definition linear_compared : NSResultsType :=
  [("linear", [("node_output",
      [("a", [linear_record [VInt 1; VInt 2]]);
       ("b", [{| Res.type := "node_output";
                 Res.values := [VInt 10; VInt 20; VInt 30];
                 Res.ref_node_name := "linear";
                 Res.ref_node_target_type := "torch.nn.Linear";
                 Res.prev_node_name := "linear";
                 Res.prev_node_target_type := "torch.nn.Linear";
                 Res.index_within_arg := 0; Res.index_of_arg := 0;
                 Res.fqn := Some "linear"; Res.qconfig_str := Some "";
                 Res.comparisons :=
                   [("sqnr", [VTuple [VInt 1; VInt 10];
                              VTuple [VInt 2; VInt 20]])] |}])])])].

(** The weights of a model with one linear layer. *)
Definition linear_weights (w : Tensor) : dict Tensor := [("linear", w)].

Definition linear_weight_results : NSResultsType :=
  [("base_op_linear_0",
    [("weight", [("a", [weight_record node_linear tensor_x]);
                 ("b", [weight_record node_linear tensor_h])])])].


(** ** Comparing the candidates of a sweep with their baseline *)

Module Candidate.

(** The comparison of one candidate with the baseline. *)
Record t : Type := mk {
  qconfig_str : option string;
  cmp_fn_name : string;
  cmp_raw : value;
  cmp_mean : value
}.

End Candidate.

Module Compared.

(** The comparisons of the candidates of one subgraph. *)
Record t : Type := mk {
  ref_node_name : string;
  candidates : dict Candidate.t
}.

End Compared.

(** A loop whose body threads a state and has an [outcome]. *)
Fixpoint outcome_for_each {A S : Type} (body : A -> S -> outcome S)
    (items : list A) (s : S) : outcome S :=
  match items with
  | [] => Returns s
  | x :: rest => s' ← body x s; outcome_for_each body rest s'
  end.

Section ResultsComparison.

(** The comparison function and its name, and [torch.stack] and
    [torch.mean] of the tensor library, which may fail. *)
Variable comparison_fn : value -> value -> value.
Variable comparison_fn_name : string.
Variable torch_stack : list value -> outcome value.
Variable torch_mean : value -> outcome value.

(** The body of the loop over the candidates of a subgraph. *)
Definition compare_candidate (baseline_values : list value)
    (item : string * Grouped.t) (candidates : dict Candidate.t)
    : outcome (dict Candidate.t) :=
  let '(subgraph_inner_name, subgraph_inner_result) := item in
  if decide (subgraph_inner_name = "0") then Returns candidates
  else
    let candidate_values := Grouped.values subgraph_inner_result in
    let cmp_raw :=
      compare_values comparison_fn baseline_values candidate_values [] in
    cmp_raw_tensor ← torch_stack cmp_raw;
    cmp_mean ← torch_mean cmp_raw_tensor;
    Returns
      (dict_set subgraph_inner_name
         {| Candidate.qconfig_str := Grouped.qconfig_str subgraph_inner_result;
            Candidate.cmp_fn_name := comparison_fn_name;
            Candidate.cmp_raw := cmp_raw_tensor;
            Candidate.cmp_mean := cmp_mean |}
         candidates).

(** The body of the loop over the subgraphs. *)
Definition compare_subgraph (item : string * dict Grouped.t)
    (results_comparison : dict Compared.t) : outcome (dict Compared.t) :=
  let '(subgraph_name, subgraph_results) := item in
  match dict_get "0" subgraph_results with
  | None => Raises KeyError
  | Some baseline =>
      let baseline_values := Grouped.values baseline in
      candidates ← outcome_for_each (compare_candidate baseline_values)
                     subgraph_results [];
      Returns
        (dict_set subgraph_name
           {| Compared.ref_node_name := Grouped.ref_node_name baseline;
              Compared.candidates := candidates |}
           results_comparison)
  end.

Definition create_results_comparison (results_grouped : dict (dict Grouped.t))
    : outcome (dict Compared.t) :=
  outcome_for_each compare_subgraph results_grouped [].

End ResultsComparison.

(** ** The summary table *)

(** A cell of a row of the table: a string, the index of the best
    candidate, or a mean. *)
Inductive cell : Type :=
| CellStr (s : string)
| CellBest (best_candidate : option nat)
| CellValue (v : value).

(** [len(c)] for a cell: only a string has a length here. *)
Definition cell_len (c : cell) : result nat :=
  match c with
  | CellStr s => Ok (String.length s)
  | CellBest _ | CellValue _ => Raise TypeError
  end.

Section Summary.

(** Whether [tabulate] can be imported, and its rendering of the rows under
    the headers; the float [-10000.0] as a value, and the truth value
    of [val > best_val]. *)
Variable tabulate_found : bool.
Variable tabulate : list (list cell) -> list string -> string.
Variable minus_10000 : value.
Variable value_gt : value -> value -> bool.

(** [for idx, val in enumerate(mean_all_candidates)], from position [idx]. *)
Fixpoint find_top_candidate (mean_all_candidates : list value) (idx : nat)
    (best_val : value) (best_candidate : option nat) : value * option nat :=
  match mean_all_candidates with
  | [] => (best_val, best_candidate)
  | val :: rest =>
      if value_gt val best_val
      then find_top_candidate rest (S idx) val (Some (idx + 1)%nat)
      else find_top_candidate rest (S idx) best_val best_candidate
  end.

(** The body of the loop over the subgraphs: the row of one subgraph. *)
Definition data_row_of (item : string * Compared.t) : list cell :=
  let '(subgraph_name, subgraph_data) := item in
  let mean_all_candidates :=
    map (fun '(candidate_name, candidate) => Candidate.cmp_mean candidate)
      (Compared.candidates subgraph_data) in
  let '(best_val, best_candidate) :=
    find_top_candidate mean_all_candidates 0 minus_10000 None in
  [CellStr subgraph_name; CellStr (Compared.ref_node_name subgraph_data);
   CellBest best_candidate] ++ map CellValue mean_all_candidates.

(** [max(max_candidate_idx_len, len(data_row[1]))] over the rows. *)
Definition max_candidate_idx_len_step (data_row : list cell)
    (max_candidate_idx_len : Z) : result Z :=
  match data_row !! 1%nat with
  | None => Raise IndexError
  | Some c =>
      n ← cell_len c;
      Ok (Z.max max_candidate_idx_len (Z.of_nat n))
  end.

(** [range(n)] *)
Definition range (n : Z) : list Z := map Z.of_nat (seq 0 (Z.to_nat n)).

(** What the function computes before it prints: the rows and the headers. *)
Definition summary_table (results_comparison : dict Compared.t)
    : result (list (list cell) * list string) :=
  let results := map data_row_of results_comparison in
  max_candidate_idx_len ← for_each max_candidate_idx_len_step results (-1);
  let candidate_idx_headers :=
    map (fun x => str_of_int (x + 1)) (range max_candidate_idx_len) in
  let headers :=
    ["subgraph_idx"; "ref_node_name"; "best_idx"] ++ candidate_idx_headers in
  Ok (results, headers).

(** [print_n_shadows_summary]: the lines printed and the outcome.  When the
    import fails the hint is printed and the name [tabulate] stays unbound
    in the function, so the call at the end raises [UnboundLocalError]. *)
Definition print_n_shadows_summary (results_comparison : dict Compared.t)
    : list string * outcome unit :=
  let stdout :=
    if tabulate_found then []
    else ["`print_tabular` relies on the library `tabulate`, which could not be found on this machine. Run `pip install tabulate` to install the library."] in
  match summary_table results_comparison with
  | Raise e => (stdout, Raises e)
  | Ok (results, headers) =>
      if tabulate_found
      then (stdout ++ [tabulate results headers], Returns tt)
      else (stdout, RaisesOther "UnboundLocalError")
  end.

End Summary.

(** The longest reference node name of a comparison, in characters. *)
Definition longest_ref_node_name (results_comparison : dict Compared.t) : nat :=
  max_list (map (fun item => String.length (Compared.ref_node_name item.2))
              results_comparison).

(** ** Concrete data for the examples of the report *)

(** The difference of two integers as the comparison. *)
Definition int_difference (v1 v2 : value) : value :=
  match v1, v2 with
  | VInt a, VInt b => VInt (a - b)
  | _, _ => VNone
  end.

(** A tensor library for the examples: stacking keeps the list and fails on
    the empty list, the mean of a list of integers is their integer mean. *)
Definition example_stack (l : list value) : outcome value :=
  match l with
  | [] => RaisesOther "RuntimeError"
  | _ => Returns (VList l)
  end.

Definition int_of (v : value) : Z :=
  match v with VInt n => n | _ => 0 end.

Definition example_mean (v : value) : outcome value :=
  match v with
  | VList (x :: l) =>
      Returns (VInt (fold_right Z.add 0 (map int_of (x :: l))
                     / Z.of_nat (length (x :: l))))
  | _ => RaisesOther "RuntimeError"
  end.

(** The order of the integer payloads. *)
Definition example_value_gt (v w : value) : bool := (int_of w <? int_of v)%Z.

(** The comparison of [swept_grouped]. *)
Definition swept_comparison : dict Compared.t :=
  [("subgraph_0",
    {| Compared.ref_node_name := "linear";
       Compared.candidates :=
         [("1", {| Candidate.qconfig_str := Some "subgraph_0_1";
                   Candidate.cmp_fn_name := "difference";
                   Candidate.cmp_raw := VList [VInt (-1)];
                   Candidate.cmp_mean := VInt (-1) |})] |})].


(* ===================================================================== *)
(** * Part II: properties                                                  *)
(* ===================================================================== *)

(** ** The error monad *)

Lemma bind_Ok {A B : Type} (m : result A) (f : A -> result B) (b : B) :
  m ≫= f = Ok b -> exists a, m = Ok a /\ f a = Ok b.
Proof. destruct m as [a|e]; simpl; [eauto | discriminate]. Qed.

Lemma bind_Raise {A B : Type} (m : result A) (f : A -> result B) (e : exn) :
  m ≫= f = Raise e -> m = Raise e \/ exists a, m = Ok a /\ f a = Raise e.
Proof. destruct m as [a|e']; simpl; [eauto | intros [= ->]; auto]. Qed.


(** ** OutputLogger.forward *)

Lemma forward_returns_input (self : OutputLogger) (x : value)
    (r : value * OutputLogger) :
  forward self x = Ok r -> r.1 = x.
Proof.
  unfold forward. intros H.
  repeat match type of H with
  | (if ?c then _ else _) = _ => destruct c
  | _ ≫= _ = Ok _ => apply bind_Ok in H as (? & _ & H)
  | Ok _ = Ok _ => injection H as <-
  end; reflexivity.
Qed.

(** C4. With [enabled] false, [forward] returns its input and leaves the
    logger as it was: nothing is appended to [stats] or [stats_rnn]. *)
Theorem forward_disabled_noop (self : OutputLogger) (x : value) :
  enabled self = false -> forward self x = Ok (x, self).
Proof. intros H. unfold forward. rewrite H. reflexivity. Qed.

Lemma forward_disabled_noop_witness :
  enabled (logger_at "linear" "a" "node_output" 0 0 false) = false
  /\ forward (logger_at "linear" "a" "node_output" 0 0 false) attention_output
     = Ok (attention_output, logger_at "linear" "a" "node_output" 0 0 false).
Proof.
  split; [reflexivity |].
  apply (forward_disabled_noop (logger_at "linear" "a" "node_output" 0 0 false)).
  reflexivity.
Defined.




(** ** Dictionaries *)

Section DictFacts.

Context {V : Type}.
Implicit Types (d : dict V) (k : string) (v : V).

Lemma dict_in_get k d : dict_in k d = true <-> is_Some (dict_get k d).
Proof.
  unfold dict_in. destruct (dict_get k d); split; intros H;
    eauto; try discriminate. by destruct H.
Qed.

Lemma dict_in_false k d : dict_in k d = false <-> dict_get k d = None.
Proof. unfold dict_in. destruct (dict_get k d); split; intros H; done. Qed.

Lemma dict_get_set_eq k v d : dict_get k (dict_set k v d) = Some v.
Proof.
  induction d as [| [k' v'] d IH]; simpl.
  - by rewrite decide_True.
  - destruct (decide (k = k')) as [-> | Hne]; simpl.
    + by rewrite decide_True.
    + by rewrite decide_False.
Qed.

Lemma dict_get_set_ne k k' v d :
  k <> k' -> dict_get k' (dict_set k v d) = dict_get k' d.
Proof.
  intros Hne. induction d as [| [k0 v0] d IH]; simpl.
  - by rewrite decide_False.
  - destruct (decide (k = k0)) as [-> | Hne0]; simpl.
    + by rewrite !decide_False.
    + destruct (decide (k' = k0)); [done | apply IH].
Qed.

Lemma dict_get_set k k' v d :
  dict_get k' (dict_set k v d) = if decide (k = k') then Some v else dict_get k' d.
Proof.
  destruct (decide (k = k')) as [-> | Hne];
    [apply dict_get_set_eq | by apply dict_get_set_ne].
Qed.

Lemma dict_set_set k v v' d : dict_set k v (dict_set k v' d) = dict_set k v d.
Proof.
  induction d as [| [k0 v0] d IH]; simpl.
  - by rewrite decide_True.
  - destruct (decide (k = k0)) as [-> | Hne]; simpl.
    + by rewrite decide_True.
    + rewrite decide_False by done. by rewrite IH.
Qed.

Lemma dict_getitem_Ok k d v : dict_get k d = Some v -> dict_getitem k d = Ok v.
Proof. unfold dict_getitem. by intros ->. Qed.

Lemma dict_in_set k k' v d :
  dict_in k' (dict_set k v d) = if decide (k = k') then true else dict_in k' d.
Proof. unfold dict_in. rewrite dict_get_set. by destruct (decide (k = k')). Qed.

(** Ensuring a key is present, as [if k not in d: d[k] = v] does. *)
Lemma dict_get_ensure k v d :
  dict_get k (if dict_in k d then d else dict_set k v d)
  = Some (default v (dict_get k d)).
Proof.
  unfold dict_in. destruct (dict_get k d) eqn:E; simpl; [done |].
  apply dict_get_set_eq.
Qed.

Lemma dict_set_ensure k v v0 d :
  dict_set k v (if dict_in k d then d else dict_set k v0 d) = dict_set k v d.
Proof. destruct (dict_in k d); [done | apply dict_set_set]. Qed.

End DictFacts.

(** ** Sorting the records of a group *)

Lemma sort_insert_perm (res : Res.t) (l : list Res.t) :
  sort_insert res l ≡ₚ res :: l.
Proof.
  induction l as [| r l IH]; simpl; [done |].
  destruct (String.ltb _ _); [done |].
  rewrite IH. apply Permutation_swap.
Qed.

Lemma list_sort_perm (l : list Res.t) : list_sort l ≡ₚ l.
Proof.
  unfold list_sort.
  enough (H : forall acc, fold_left (fun sorted res => sort_insert res sorted) l acc
                          ≡ₚ acc ++ l) by apply (H []).
  induction l as [| r l IH]; intros acc; simpl.
  - by rewrite app_nil_r.
  - rewrite IH, sort_insert_perm. simpl. apply Permutation_middle.
Qed.

Lemma sort_insert_sorted (res : Res.t) (l : list Res.t) :
  Sorted sort_key_le l -> Sorted sort_key_le (sort_insert res l).
Proof.
  induction l as [| r l IH]; simpl; intros Hs.
  - repeat constructor.
  - destruct (String.ltb (sort_key res) (sort_key r)) eqn:Hlt.
    + constructor; [done |]. constructor. unfold sort_key_le.
      unfold String.ltb in *. rewrite String.compare_antisym.
      destruct (String.compare (sort_key res) (sort_key r)); done.
    + apply Sorted_inv in Hs as [Hs Hhd]. constructor; [by apply IH |].
      destruct l as [| r' l]; simpl.
      * by constructor.
      * destruct (String.ltb (sort_key res) (sort_key r')); constructor; try done.
        by apply HdRel_inv in Hhd.
Qed.

(** What the code's sort does establish: ascending order of the string
    keys. *)
Lemma list_sort_sorted_by_key (l : list Res.t) :
  Sorted sort_key_le (list_sort l).
Proof.
  unfold list_sort.
  enough (H : forall acc, Sorted sort_key_le acc ->
                Sorted sort_key_le
                  (fold_left (fun sorted res => sort_insert res sorted) l acc))
    by (apply H; constructor).
  induction l as [| r l IH]; intros acc Hacc; simpl; [done |].
  apply IH. by apply sort_insert_sorted.
Qed.

(** ** Logger-info extraction *)

(** The step for one logger in closed form: the assertion looks the model
    name up among the result types recorded under the match name; when it
    holds, the record is appended to the group and the group is sorted. *)
Lemma extract_logger_char (mod_ : OutputLogger) (results : NSResultsType) :
  let by_key := default [] (dict_get (ref_name mod_) results) in
  let by_type := default [] (dict_get (results_type mod_) by_key) in
  let records := default [] (dict_get (model_name mod_) by_type) in
  extract_logger mod_ results =
    if dict_in (model_name mod_) by_key then Raise AssertionError
    else Ok (dict_set (ref_name mod_)
               (dict_set (results_type mod_)
                  (dict_set (model_name mod_)
                     (list_sort (records ++ [logger_record mod_])) by_type)
                  by_key)
               results).
Proof.
  intros by_key by_type records. unfold extract_logger.
  rewrite (dict_getitem_Ok _ _ _ (dict_get_ensure _ _ _)). simpl.
  fold by_key. destruct (dict_in (model_name mod_) by_key); simpl; [done |].
  rewrite (dict_getitem_Ok _ _ _ (dict_get_ensure _ _ _)). simpl.
  fold by_type.
  rewrite (dict_getitem_Ok _ _ _ (dict_get_ensure _ _ _)). simpl.
  fold records.
  by rewrite !dict_set_ensure.
Qed.

Lemma results_group_unfold (key rtype name : string) (results : NSResultsType) :
  results_group key rtype name results
  = dict_get name (default [] (dict_get rtype (default [] (dict_get key results)))).
Proof.
  unfold results_group. destruct (dict_get key results) as [by_key|]; simpl; [| done].
  destruct (dict_get rtype by_key); done.
Qed.

(** The groups after a successful step: the logger's own group gains its
    record, every other group is as before. *)
Lemma extract_logger_group (mod_ : OutputLogger) (results results' : NSResultsType)
    (key rtype name : string) :
  extract_logger mod_ results = Ok results' ->
  results_group key rtype name results' =
    if decide (logger_in_group key rtype name mod_)
    then Some (list_sort (default [] (results_group key rtype name results)
                            ++ [logger_record mod_]))
    else results_group key rtype name results.
Proof.
  rewrite extract_logger_char. simpl.
  destruct (dict_in _ _); [done |]. intros [= <-].
  rewrite !results_group_unfold. unfold logger_in_group.
  rewrite dict_get_set.
  destruct (decide (ref_name mod_ = key)) as [<- | Hk]; simpl.
  - rewrite dict_get_set.
    destruct (decide (results_type mod_ = rtype)) as [<- | Ht]; simpl.
    + rewrite dict_get_set.
      destruct (decide (model_name mod_ = name)) as [<- | Hn]; simpl.
      * by rewrite decide_True.
      * rewrite decide_False; [done | by intros (? & ? & ?)].
    + rewrite decide_False; [done | by intros (? & ? & ?)].
  - rewrite decide_False; [done | by intros (? & ? & ?)].
Qed.

Lemma extract_model_loggers (model : list (string * nn_module))
    (results : NSResultsType) :
  _extract_logger_info_one_model model results
  = for_each extract_logger (loggers_of model) results.
Proof.
  unfold _extract_logger_info_one_model, loggers_of.
  revert results. induction model as [| [gm_name mod_] model IH]; intros results;
    simpl; [done |].
  destruct (as_logger mod_) as [l|]; simpl.
  - destruct (extract_logger l results); simpl; [apply IH | done].
  - apply IH.
Qed.

(** C10. After the step for a logger, its group holds the logger's record,
    and the [values] of that record are [stats_rnn] as soon as [stats_rnn]
    is non-empty, whatever [stats] holds; they are [stats] only when
    [stats_rnn] is empty. *)
Theorem extract_prefers_stats_rnn (mod_ : OutputLogger)
    (results results' : NSResultsType) :
  extract_logger mod_ results = Ok results' ->
  exists records,
    results_group (ref_name mod_) (results_type mod_) (model_name mod_) results'
    = Some records
    /\ logger_record mod_ ∈ records
    /\ (stats_rnn mod_ <> [] -> Res.values (logger_record mod_) = stats_rnn mod_)
    /\ (stats_rnn mod_ = [] -> Res.values (logger_record mod_) = stats mod_).
Proof.
  intros H. eexists. split.
  - rewrite (extract_logger_group _ _ _ _ _ _ H).
    rewrite decide_True by done. reflexivity.
  - split.
    + rewrite list_sort_perm. apply elem_of_app. right. apply list_elem_of_singleton.
      reflexivity.
    + unfold logger_record. simpl.
      split; intros Hrnn; destruct (stats_rnn mod_); simpl; done.
Qed.

Lemma extract_prefers_stats_rnn_witness :
  exists records,
    results_group "lstm" "node_output" "a"
      [("lstm", [("node_output",
                  [("a", [logger_record mixed_logger])])])]
    = Some records
    /\ logger_record mixed_logger ∈ records
    /\ (stats_rnn mixed_logger <> [] ->
        Res.values (logger_record mixed_logger) = stats_rnn mixed_logger)
    /\ (stats_rnn mixed_logger = [] ->
        Res.values (logger_record mixed_logger) = stats mixed_logger).
Proof.
  apply (extract_prefers_stats_rnn mixed_logger []). reflexivity.
Defined.

(** C2: the group is sorted by the string ["index_of_arg:index_within_arg"],
    not by the pair of numbers.  With the records of positions 2 and 10 of
    one argument, whichever logger is traversed first, position 10 comes
    out before position 2. *)
Theorem extract_sorts_keys_as_strings :
  _extract_logger_info_one_model
    [("cat_2", LoggerModule cat_logger_2); ("cat_10", LoggerModule cat_logger_10)] []
  = Ok [("cat", [("node_input",
                  [("a", [logger_record cat_logger_10; logger_record cat_logger_2])])])]
  /\ _extract_logger_info_one_model
       [("cat_10", LoggerModule cat_logger_10); ("cat_2", LoggerModule cat_logger_2)] []
     = Ok [("cat", [("node_input",
                     [("a", [logger_record cat_logger_10; logger_record cat_logger_2])])])]
  /\ ~ sorted_by_index_pair [logger_record cat_logger_10; logger_record cat_logger_2].
Proof.
  split; [vm_compute; reflexivity |]. split; [vm_compute; reflexivity |].
  intros Hs. apply StronglySorted_inv in Hs as [_ Hall].
  apply Forall_inv in Hall. unfold index_pair_le in Hall. simpl in Hall. lia.
Qed.

(** The result types recorded under every match name are among [types]. *)
Lemma extract_loggers_recorded (ls : list OutputLogger) (types : list string)
    (results : NSResultsType) :
  (forall l, l ∈ ls -> results_type l ∈ types /\ model_name l ∉ types) ->
  (forall key by_key t,
      dict_get key results = Some by_key -> dict_in t by_key = true -> t ∈ types) ->
  exists results',
    for_each extract_logger ls results = Ok results'
    /\ forall key rtype name,
         default [] (results_group key rtype name results')
         ≡ₚ default [] (results_group key rtype name results)
            ++ map logger_record (filter (logger_in_group key rtype name) ls).
Proof.
  revert results. induction ls as [| l ls IH]; intros results Hls Hres; simpl.
  - exists results. split; [done |]. intros. by rewrite app_nil_r.
  - destruct (Hls l) as [Hty Hname]; [left |].
    assert (Hstep : exists results1, extract_logger l results = Ok results1).
    { rewrite extract_logger_char. simpl.
      destruct (dict_in (model_name l) _) eqn:Hin; [| eauto].
      destruct (dict_get (ref_name l) results) as [by_key|] eqn:Hk; simpl in Hin;
        [| done].
      destruct Hname. by eapply Hres. }
    destruct Hstep as [results1 Hstep]. rewrite Hstep. simpl.
    destruct (IH results1) as (results' & Hrun & Hgroups).
    { intros l' Hl'. apply Hls. by right. }
    { intros key by_key t Hget Hin.
      pose proof Hstep as Hchar. rewrite extract_logger_char in Hchar. simpl in Hchar.
      destruct (dict_in (model_name l) _); [done |]. injection Hchar as <-.
      rewrite dict_get_set in Hget.
      destruct (decide (ref_name l = key)) as [<- | Hne]; [| by eapply Hres].
      injection Hget as <-. rewrite dict_in_set in Hin.
      destruct (decide (results_type l = t)) as [<- | Hnet]; [done |].
      destruct (dict_get (ref_name l) results) as [by_key|] eqn:Hk; simpl in Hin;
        [by eapply Hres | done]. }
    exists results'. split; [done |].
    intros key rtype name. rewrite Hgroups.
    rewrite (extract_logger_group _ _ _ _ _ _ Hstep).
    rewrite filter_cons.
    destruct (decide (logger_in_group key rtype name l)); simpl.
    + rewrite list_sort_perm. by rewrite <- app_assoc.
    + done.
Qed.

(** C3, as stated, fails: the two input loggers of an [add] carry the same
    model name for the same match name and result type, and the aggregation
    returns a results structure holding both records. *)
Lemma extract_same_model_name_twice :
  ref_name add_logger_0 = ref_name add_logger_1
  /\ results_type add_logger_0 = results_type add_logger_1
  /\ model_name add_logger_0 = model_name add_logger_1
  /\ _extract_logger_info_one_model
       [("add_0", LoggerModule add_logger_0); ("add_1", LoggerModule add_logger_1)] []
     = Ok [("add", [("node_input",
                     [("a", [logger_record add_logger_0; logger_record add_logger_1])])])].
Proof. repeat split; vm_compute; reflexivity. Qed.

(** C3, amended.  When no logger's model name is also the result type of a
    logger, the aggregation of a model from empty results does not raise,
    however many loggers share a model name within one match-name and
    result-type pair: the list of every group holds exactly one record per
    logger of that group. *)
Theorem extract_records_every_logger (model : list (string * nn_module)) :
  Forall (fun l => Forall (fun l' => model_name l <> results_type l')
                     (loggers_of model)) (loggers_of model) ->
  exists results,
    _extract_logger_info_one_model model [] = Ok results
    /\ forall key rtype name,
         default [] (results_group key rtype name results)
         ≡ₚ map logger_record
              (filter (logger_in_group key rtype name) (loggers_of model)).
Proof.
  intros Hdistinct. rewrite extract_model_loggers.
  destruct (extract_loggers_recorded (loggers_of model)
              (map results_type (loggers_of model)) []) as (results & Hrun & Hgroups).
  - intros l Hl. split.
    + apply list_elem_of_fmap. eauto.
    + intros (l' & Heq & Hl')%list_elem_of_fmap.
      rewrite Forall_forall in Hdistinct. specialize (Hdistinct l Hl).
      rewrite Forall_forall in Hdistinct. by apply (Hdistinct l' Hl').
  - intros key by_key t Hget. discriminate.
  - exists results. split; [done |]. intros key rtype name.
    by rewrite Hgroups.
Qed.

Lemma extract_records_every_logger_witness :
  exists results,
    _extract_logger_info_one_model
      [("add_0", LoggerModule add_logger_0); ("relu", OtherModule);
       ("add_1", LoggerModule add_logger_1)] [] = Ok results
    /\ forall key rtype name,
         default [] (results_group key rtype name results)
         ≡ₚ map logger_record
              (filter (logger_in_group key rtype name) [add_logger_0; add_logger_1]).
Proof.
  apply (extract_records_every_logger
           [("add_0", LoggerModule add_logger_0); ("relu", OtherModule);
            ("add_1", LoggerModule add_logger_1)]).
  repeat constructor; discriminate.
Defined.

(** ** Comparison *)

Lemma set_comparison_values (name : string) (v : list value) (r : Res.t) :
  name <> "values" -> Res.values (Res.set_comparison name v r) = Res.values r.
Proof. intros Hne. unfold Res.set_comparison. by rewrite decide_False. Qed.

Lemma set_comparison_index_within_arg (name : string) (v : list value) (r : Res.t) :
  name <> "index_within_arg" ->
  Res.getitem_index_within_arg (Res.set_comparison name v r)
  = Res.getitem_index_within_arg r.
Proof.
  intros Hne. unfold Res.set_comparison, Res.getitem_index_within_arg.
  destruct (decide (name = "values")); simpl; [done |].
  by rewrite dict_get_set_ne.
Qed.

Lemma set_comparison_index_of_arg (name : string) (v : list value) (r : Res.t) :
  name <> "index_of_arg" ->
  Res.getitem_index_of_arg (Res.set_comparison name v r)
  = Res.getitem_index_of_arg r.
Proof.
  intros Hne. unfold Res.set_comparison, Res.getitem_index_of_arg.
  destruct (decide (name = "values")); simpl; [done |].
  by rewrite dict_get_set_ne.
Qed.

Lemma get_set_comparison (name : string) (v : list value) (r : Res.t) :
  Res.get_comparison name (Res.set_comparison name v r) = Some v.
Proof.
  unfold Res.get_comparison, Res.set_comparison.
  destruct (decide (name = "values")); simpl; [done |].
  apply dict_get_set_eq.
Qed.

Lemma not_compared_key (name : string) :
  name ∉ Res.compared_keys ->
  name <> "index_within_arg" /\ name <> "index_of_arg" /\ name <> "values".
Proof.
  unfold Res.compared_keys. rewrite !not_elem_of_cons. tauto.
Qed.

Lemma dict_get_map_values {V W : Type} (g : V -> W) (k : string) (d : dict V) :
  dict_get k (map (fun kv => (kv.1, g kv.2)) d) = g <$> dict_get k d.
Proof.
  induction d as [|[k' v] d IH]; [done|]. simpl.
  destruct (decide (k = k')); [done|exact IH].
Qed.

Lemma dict_get_elem_of {V : Type} (k : string) (d : dict V) (v : V) :
  dict_get k d = Some v -> (k, v) ∈ d.
Proof.
  induction d as [|[k' v'] d IH]; [done|]. simpl.
  destruct (decide (k = k')) as [->|]; [intros [= ->]; left|right; auto].
Qed.

Section ComparisonFacts.

Variable model_name_1 model_name_2 : string.
Variable comparison_fn : value -> value -> value.
Variable comparison_name : string.

#[local] Abbreviation W := (with_comparison comparison_fn comparison_name).
#[local] Abbreviation step := (compare_result_2 model_name_1 model_name_2 comparison_fn
                    comparison_name).

Lemma find_result_1_counterpart (results_1 : list Res.t) (result_2 : Res.t) :
  find_result_1 (Res.getitem_index_within_arg result_2)
    (Res.getitem_index_of_arg result_2) results_1
  = counterpart results_1 result_2.
Proof.
  unfold counterpart. induction results_1 as [| r l IH]; simpl; [done |].
  rewrite IH. unfold same_index_pair, index_eq.
  destruct (bool_decide_reflect
              (Res.getitem_index_within_arg r = Res.getitem_index_within_arg result_2));
    destruct (bool_decide_reflect
                (Res.getitem_index_of_arg r = Res.getitem_index_of_arg result_2));
    simpl.
  - by rewrite bool_decide_eq_true_2.
  - rewrite bool_decide_eq_false_2; [done | by intros [? ?]].
  - rewrite bool_decide_eq_false_2; [done | by intros [? ?]].
  - rewrite bool_decide_eq_false_2; [done | by intros [? ?]].
Qed.

Lemma compare_values_zip (values_1 values_2 acc : list value) :
  compare_values comparison_fn values_1 values_2 acc
  = acc ++ zip_with comparison_fn values_1 values_2.
Proof.
  revert values_2 acc. induction values_1 as [| v1 l1 IH]; intros [| v2 l2] acc;
    simpl; rewrite ?app_nil_r; try reflexivity.
  rewrite IH. by rewrite <- app_assoc.
Qed.

Lemma counterpart_same_core (l l' : list Res.t) (result_2 : Res.t) :
  Forall2 same_core l l' ->
  option_Forall2 same_core (counterpart l result_2) (counterpart l' result_2).
Proof.
  unfold counterpart. induction 1 as [| r r' l l' (Ha & Hb & Hc) _ IH]; simpl.
  - constructor.
  - rewrite (bool_decide_ext (same_index_pair r' result_2)
               (same_index_pair r result_2))
      by (unfold same_index_pair; rewrite Ha, Hb; done).
    destruct (bool_decide _); [by constructor | done].
Qed.

Lemma counterpart_is_Some (results_1 : list Res.t) (result_2 : Res.t) :
  is_Some (counterpart results_1 result_2)
  <-> Exists (fun r1 => same_index_pair r1 result_2) results_1.
Proof.
  unfold counterpart. induction results_1 as [| r l IH]; simpl.
  - split; [by intros [? ?] | by intros ?%Exists_nil].
  - rewrite Exists_cons. destruct (bool_decide_reflect (same_index_pair r result_2)).
    + split; eauto.
    + rewrite IH. split; [by right | by intros [? | ?]].
Qed.

(** A comparison stored under a key that the comparison does not read
    leaves what it reads as it was. *)
Lemma with_comparison_same_core (results_1 : list Res.t) (r : Res.t) :
  comparison_name ∉ Res.compared_keys -> same_core r (W results_1 r).
Proof.
  intros (Hw & Ho & Hv)%not_compared_key.
  unfold with_comparison, same_core. destruct (counterpart _ _); [| done].
  by rewrite set_comparison_index_of_arg, set_comparison_index_within_arg,
    set_comparison_values.
Qed.

Lemma dict_set_id {V : Type} (k : string) (v : V) (d : dict V) :
  dict_get k d = Some v -> dict_set k v d = d.
Proof.
  induction d as [| [k' v'] d IH]; simpl; [done |].
  destruct (decide (k = k')) as [-> | Hne]; [by intros [= ->] |].
  intros H. by rewrite IH.
Qed.

(** One step of the loop over the records of model 2. *)
Lemma compare_result_2_step (m : dict (list Res.t)) (got_1 cur : list Res.t)
    (i : nat) (r2 : Res.t) :
  dict_get model_name_1 m = Some got_1 ->
  dict_get model_name_2 m = Some cur ->
  cur !! i = Some r2 ->
  step i m =
    match counterpart got_1 r2 with
    | Some r1 =>
        Ok (dict_set model_name_2
              (<[i := Res.set_comparison comparison_name
                        (zip_with comparison_fn (Res.values r1) (Res.values r2))
                        r2]> cur) m)
    | None => Raise AssertionError
    end.
Proof.
  intros H1 H2 Hi. unfold compare_result_2, dict_getitem.
  rewrite H1, H2. simpl. rewrite Hi. cbv zeta. rewrite find_result_1_counterpart.
  destruct (counterpart got_1 r2); [| done].
  by rewrite compare_values_zip.
Qed.

(** The loop over the records of model 2, from position [i] on, when the
    records before [i] already carry their comparison and the records read
    are as they were before the loop: the two names differ, or the
    comparison is stored under a key that is not read. *)
Lemma compare_records_loop (m : dict (list Res.t)) (results_1 results_2 : list Res.t)
    (n i : nat) :
  model_name_1 <> model_name_2 \/ comparison_name ∉ Res.compared_keys ->
  dict_get model_name_1 m = Some results_1 ->
  dict_get model_name_2 m = Some results_2 ->
  (i + n = length results_2)%nat ->
  for_each step (seq i n)
    (dict_set model_name_2
       (map (W results_1) (take i results_2) ++ drop i results_2) m)
  = if decide (Forall (fun r2 => Exists (fun r1 => same_index_pair r1 r2) results_1)
                 (drop i results_2))
    then Ok (dict_set model_name_2 (map (W results_1) results_2) m)
    else Raise AssertionError.
Proof.
  intros Hsafe H1 H2. revert i. induction n as [| n IH]; intros i Hlen; simpl.
  - rewrite Nat.add_0_r in Hlen. subst i. rewrite take_ge, drop_ge by done.
    rewrite app_nil_r. by rewrite decide_True by constructor.
  - assert (Hi : (i < length results_2)%nat) by lia.
    destruct (lookup_lt_is_Some_2 results_2 i Hi) as [r2 Hr2].
    rewrite (drop_S _ _ _ Hr2).
    set (cur := map (W results_1) (take i results_2) ++ r2 :: drop (S i) results_2).
    assert (Hcur : cur !! i = Some r2).
    { unfold cur. rewrite lookup_app_r; rewrite length_map, length_take_le by lia;
        [| done]. by rewrite Nat.sub_diag. }
    assert (Hgot : exists got_1,
               dict_get model_name_1 (dict_set model_name_2 cur m) = Some got_1
               /\ Forall2 same_core results_1 got_1).
    { rewrite dict_get_set. destruct (decide (model_name_2 = model_name_1)) as [e|].
      - destruct Hsafe as [Hne | Hname]; [by destruct Hne |].
        exists cur. split; [done |].
        rewrite e, H1 in H2. injection H2 as <-. unfold cur.
        rewrite <- (take_drop_middle results_1 i r2 Hr2) at 1.
        apply Forall2_app; [| apply Forall_Forall2_diag, Forall_true; done].
        apply Forall2_fmap_r, Forall_Forall2_diag, Forall_true.
        intros r. by apply with_comparison_same_core.
      - exists results_1. split; [done |].
        by apply Forall_Forall2_diag, Forall_true. }
    destruct Hgot as (got_1 & Hgot & Hcore).
    rewrite (compare_result_2_step _ got_1 cur i r2 Hgot (dict_get_set_eq _ _ _) Hcur).
    pose proof (counterpart_same_core _ _ r2 Hcore) as Hcp.
    pose proof (counterpart_is_Some results_1 r2) as Hsome.
    destruct (counterpart results_1 r2) as [a|] eqn:Ea;
      destruct (counterpart got_1 r2) as [b|] eqn:Eb;
      inversion Hcp as [? ? (_ & _ & Hval) |]; subst.
    + simpl. rewrite dict_set_set.
      assert (Hnext : <[i := Res.set_comparison comparison_name
                               (zip_with comparison_fn (Res.values b) (Res.values r2))
                               r2]> cur
                      = map (W results_1) (take (S i) results_2)
                        ++ drop (S i) results_2).
      { unfold cur. rewrite insert_app_r_alt;
          rewrite length_map, length_take_le by lia; [| done].
        rewrite Nat.sub_diag. simpl.
        rewrite (take_S_r _ _ _ Hr2), map_app. simpl. rewrite <- app_assoc. simpl.
        do 3 f_equal. unfold with_comparison. by rewrite Ea, Hval. }
      rewrite Hnext. rewrite IH by lia.
      destruct (decide (Forall _ (drop (S i) results_2))) as [Hd | Hd].
      * rewrite decide_True; [done |]. constructor; [| done].
        apply Hsome. eauto.
      * rewrite decide_False; [done |]. by intros [_ ?]%Forall_cons.
    + simpl. rewrite decide_False; [done |].
      intros [Hex _]%Forall_cons. apply Hsome in Hex. by destruct Hex.
Qed.

(** The loop over one group in closed form. *)
Lemma compare_group_char (m : dict (list Res.t)) :
  model_name_1 <> model_name_2 \/ comparison_name ∉ Res.compared_keys ->
  compare_group model_name_1 model_name_2 comparison_fn comparison_name m
  = if decide (group_comparable model_name_1 model_name_2 m)
    then Ok (compared_group model_name_1 model_name_2 comparison_fn
               comparison_name m)
    else Raise AssertionError.
Proof.
  intros Hsafe.
  destruct (decide (group_comparable model_name_1 model_name_2 m)) as [Hd | Hd];
    unfold group_comparable in Hd;
    unfold compare_group, compared_group, dict_in, dict_getitem;
    destruct (dict_get model_name_1 m) as [results_1|] eqn:H1; simpl; try done;
    destruct (dict_get model_name_2 m) as [results_2|] eqn:H2; simpl; try done.
  - pose proof (compare_records_loop m results_1 results_2 (length results_2) 0
                  Hsafe H1 H2 eq_refl) as Hloop.
    rewrite take_0, drop_0 in Hloop. simpl in Hloop.
    rewrite (dict_set_id _ _ _ H2) in Hloop. rewrite Hloop.
    by rewrite decide_True.
  - pose proof (compare_records_loop m results_1 results_2 (length results_2) 0
                  Hsafe H1 H2 eq_refl) as Hloop.
    rewrite take_0, drop_0 in Hloop. simpl in Hloop.
    rewrite (dict_set_id _ _ _ H2) in Hloop. rewrite Hloop.
    by rewrite decide_False.
Qed.

(** A loop over the items of a dictionary whose body either maps the value
    or fails the assertion. *)
Lemma for_items_char {V : Type} (body : V -> result V) (P : V -> Prop)
    `{!forall v, Decision (P v)} (g : V -> V) (d : dict V) :
  (forall v, body v = if decide (P v) then Ok (g v) else Raise AssertionError) ->
  for_items body d
  = if decide (Forall (fun kv => P kv.2) d)
    then Ok (map (fun kv => (kv.1, g kv.2)) d)
    else Raise AssertionError.
Proof.
  intros Hbody. induction d as [| [k v] d IH].
  - cbn [for_items].
    destruct (decide (Forall (fun kv : string * V => P kv.2) [])) as [_ | Hd];
      [done |]. destruct Hd. constructor.
  - cbn [for_items]. rewrite Hbody, IH.
    destruct (decide (P v)) as [Hv | Hv];
      destruct (decide (Forall (fun kv : string * V => P kv.2) d)) as [Hd | Hd];
      destruct (decide (Forall (fun kv : string * V => P kv.2) ((k, v) :: d)))
        as [Hc | Hc]; simpl; try done;
      try (destruct Hc; by constructor);
      apply Forall_cons in Hc as [? ?]; done.
Qed.

(** The whole call in closed form, when the records read are as they were
    before the call: it fails an assertion when some group is not
    comparable, and otherwise returns the results the specification
    describes. *)
Lemma extend_char (results : NSResultsType) :
  model_name_1 <> model_name_2 \/ comparison_name ∉ Res.compared_keys ->
  extend_logger_results_with_comparison model_name_1 model_name_2 comparison_fn
    comparison_name results
  = if decide (results_comparable model_name_1 model_name_2 results)
    then Ok (compared_results model_name_1 model_name_2 comparison_fn
               comparison_name results)
    else Raise AssertionError.
Proof.
  intros Hsafe.
  unfold extend_logger_results_with_comparison, results_comparable, compared_results.
  apply (for_items_char _
           (fun by_type => Forall (fun tv => group_comparable model_name_1
                                               model_name_2 tv.2) by_type)).
  intros by_type.
  apply (for_items_char _ (group_comparable model_name_1 model_name_2)).
  intros m. by apply compare_group_char.
Qed.

(** When both names are the same, every record finds a record at its
    position in the list that is being updated, itself at the latest. *)
Lemma compare_records_same_model (m : dict (list Res.t)) (n : nat) :
  model_name_1 = model_name_2 ->
  forall (i : nat) (cur : list Res.t),
    (i + n = length cur)%nat ->
    exists cur',
      for_each step (seq i n) (dict_set model_name_2 cur m)
      = Ok (dict_set model_name_2 cur' m).
Proof.
  intros Heq. induction n as [| n IH]; intros i cur Hlen; simpl.
  - by exists cur.
  - destruct (lookup_lt_is_Some_2 cur i) as [r2 Hr2]; [lia |].
    assert (H1 : dict_get model_name_1 (dict_set model_name_2 cur m) = Some cur).
    { rewrite Heq. apply dict_get_set_eq. }
    rewrite (compare_result_2_step _ cur cur i r2 H1 (dict_get_set_eq _ _ _) Hr2).
    destruct (proj2 (counterpart_is_Some cur r2)) as [r1 Hr1].
    { apply Exists_exists. exists r2. split; [| done].
      by eapply list_elem_of_lookup_2. }
    rewrite Hr1. simpl. rewrite dict_set_set.
    apply IH. rewrite length_insert. lia.
Qed.

(** One group makes the call raise exactly when it is not comparable. *)
Lemma compare_group_raises (m : dict (list Res.t)) :
  (exists e,
      compare_group model_name_1 model_name_2 comparison_fn comparison_name m
      = Raise e)
  <-> ~ group_comparable model_name_1 model_name_2 m.
Proof.
  destruct (decide (model_name_1 = model_name_2)) as [Heq | Hne].
  - unfold compare_group, group_comparable, dict_in, dict_getitem.
    rewrite <- Heq.
    destruct (dict_get model_name_1 m) as [l|] eqn:E; simpl.
    + destruct (compare_records_same_model m (length l) Heq 0 l eq_refl)
        as [cur' Hloop].
      rewrite <- Heq in Hloop. rewrite (dict_set_id _ _ _ E) in Hloop.
      rewrite Hloop.
      split; [by intros [e ?] |]. intros Hno. destruct Hno.
      apply Forall_forall. intros r2 Hin. apply Exists_exists. by exists r2.
    + split; [tauto | eauto].
  - rewrite compare_group_char by (by left).
    destruct (decide (group_comparable model_name_1 model_name_2 m));
      split; try done; [by intros [e ?] | eauto].
Qed.

(** A loop over the items of a dictionary raises exactly when its body
    raises on one of the values. *)
Lemma for_items_raises {V : Type} (body : V -> result V) (d : dict V) :
  (exists e, for_items body d = Raise e)
  <-> exists k v, (k, v) ∈ d /\ exists e, body v = Raise e.
Proof.
  induction d as [| [k v] d IH]; cbn [for_items].
  - split; [by intros [e ?] |]. by intros (k & v & ?%elem_of_nil & _).
  - destruct (body v) as [v' |e] eqn:Ev; simpl.
    + destruct (for_items body d) as [rest' | e'] eqn:Ed; simpl.
      * split; [by intros [e ?] |].
        intros (k0 & v0 & [[= -> ->] | Hin]%elem_of_cons & e & He).
        -- rewrite Ev in He. discriminate.
        -- destruct (proj2 IH) as [? ?]; [| done]. eauto.
      * split; [| eauto]. intros _.
        destruct (proj1 IH) as (k0 & v0 & Hin & He); [eauto |].
        exists k0, v0. split; [by right | done].
    + split; [| eauto]. intros _. exists k, v. split; [left | eauto].
Qed.

Lemma not_group_comparable (m : dict (list Res.t)) :
  ~ group_comparable model_name_1 model_name_2 m
  <-> dict_get model_name_1 m = None
      \/ dict_get model_name_2 m = None
      \/ exists results_1 results_2 r2,
           dict_get model_name_1 m = Some results_1
           /\ dict_get model_name_2 m = Some results_2
           /\ r2 ∈ results_2
           /\ ~ exists r1, r1 ∈ results_1 /\ same_index_pair r1 r2.
Proof.
  unfold group_comparable.
  destruct (dict_get model_name_1 m) as [results_1|];
    [| split; [by left | tauto]].
  destruct (dict_get model_name_2 m) as [results_2|];
    [| split; [by right; left | tauto]].
  split.
  - intros Hnot. apply not_Forall_Exists in Hnot; [| apply _].
    apply Exists_exists in Hnot as (r2 & Hin & Hno). simpl in Hno.
    right. right. exists results_1, results_2, r2.
    repeat split; try done. intros (r1 & Hr1 & Hsame). apply Hno.
    apply Exists_exists. eauto.
  - intros [? | [? | (l1 & l2 & r2 & [= <-] & [= <-] & Hin & Hno)]]; try done.
    intros Hall. rewrite Forall_forall in Hall.
    apply Hno. specialize (Hall r2 Hin). by apply Exists_exists in Hall.
Qed.

(** C5. The call raises exactly when some match-name/result-type group
    lacks the record list of one of the two models, or holds a record of
    model 2 with no record of model 1 at the same
    [(index_of_arg, index_within_arg)]; otherwise it returns. *)
Theorem extend_raises_iff (results : NSResultsType) :
  (exists e,
      extend_logger_results_with_comparison model_name_1 model_name_2
        comparison_fn comparison_name results = Raise e)
  <-> exists key by_type rtype m,
        (key, by_type) ∈ results
        /\ (rtype, m) ∈ by_type
        /\ (dict_get model_name_1 m = None
            \/ dict_get model_name_2 m = None
            \/ exists results_1 results_2 r2,
                 dict_get model_name_1 m = Some results_1
                 /\ dict_get model_name_2 m = Some results_2
                 /\ r2 ∈ results_2
                 /\ ~ exists r1, r1 ∈ results_1 /\ same_index_pair r1 r2).
Proof.
  unfold extend_logger_results_with_comparison. rewrite for_items_raises. split.
  - intros (key & by_type & Hk & Hr).
    apply for_items_raises in Hr as (rtype & m & Ht & Hr).
    apply compare_group_raises, not_group_comparable in Hr.
    by exists key, by_type, rtype, m.
  - intros (key & by_type & rtype & m & Hk & Ht & Hbad).
    exists key, by_type. split; [done |].
    apply for_items_raises. exists rtype, m. split; [done |].
    by apply compare_group_raises, not_group_comparable.
Qed.

(** The group of a model in the results the specification describes. *)
Lemma compared_results_group (key rtype name : string) (results : NSResultsType) :
  results_group key rtype name
    (compared_results model_name_1 model_name_2 comparison_fn comparison_name
       results)
  = m ← (by_key ← dict_get key results; dict_get rtype by_key);
    dict_get name
      (compared_group model_name_1 model_name_2 comparison_fn comparison_name m).
Proof.
  unfold results_group, compared_results.
  rewrite (dict_get_map_values
             (fun by_key : dict (dict (list Res.t)) =>
                map (fun tv => (tv.1, compared_group model_name_1 model_name_2
                                        comparison_fn comparison_name tv.2))
                  by_key)).
  destruct (dict_get key results) as [by_key|]; [|done]. simpl.
  rewrite (dict_get_map_values
             (compared_group model_name_1 model_name_2 comparison_fn
                comparison_name)).
  by destruct (dict_get rtype by_key).
Qed.

(** C6, amended.  When no group makes the call raise, and either the two
    model names differ or the comparison name is none of
    ['index_within_arg'], ['index_of_arg'] and ['values'], the call returns
    the results the specification describes: in every group, every record of
    model 2 is paired with the first record of model 1 that holds the same
    [(index_of_arg, index_within_arg)], and the record that takes its place
    holds, under the comparison name, the comparison function applied
    element-wise, in capture order, to the captured values of the two
    records. *)
Theorem extend_computes_comparisons (results : NSResultsType) :
  model_name_1 <> model_name_2 \/ comparison_name ∉ Res.compared_keys ->
  results_comparable model_name_1 model_name_2 results ->
  exists results',
    extend_logger_results_with_comparison model_name_1 model_name_2 comparison_fn
      comparison_name results = Ok results'
    /\ results'
       = compared_results model_name_1 model_name_2 comparison_fn comparison_name
           results
    /\ forall key rtype results_1 results_2,
         results_group key rtype model_name_1 results = Some results_1 ->
         results_group key rtype model_name_2 results = Some results_2 ->
         exists results_2',
           results_group key rtype model_name_2 results' = Some results_2'
           /\ Forall2
                (fun result_2 result_2' =>
                   exists result_1,
                     counterpart results_1 result_2 = Some result_1
                     /\ Res.get_comparison comparison_name result_2'
                        = Some (zip_with comparison_fn (Res.values result_1)
                                  (Res.values result_2)))
                results_2 results_2'.
Proof.
  intros Hsafe Hc. eexists. split; [| split; [reflexivity |]].
  { rewrite extend_char by done. by rewrite decide_True. }
  intros key rtype results_1 results_2 E1 E2.
  rewrite compared_results_group. unfold results_group in E1, E2.
  destruct (dict_get key results) as [by_key|] eqn:Ek; [| done]. simpl in *.
  destruct (dict_get rtype by_key) as [m|] eqn:Em; [| done]. simpl in *.
  unfold compared_group. rewrite E1, E2, dict_get_set_eq.
  eexists. split; [done |].
  assert (Hm : group_comparable model_name_1 model_name_2 m).
  { unfold results_comparable in Hc. rewrite Forall_forall in Hc.
    specialize (Hc _ (dict_get_elem_of _ _ _ Ek)). simpl in Hc.
    rewrite Forall_forall in Hc.
    exact (Hc _ (dict_get_elem_of _ _ _ Em)). }
  unfold group_comparable in Hm. rewrite E1, E2 in Hm.
  apply Forall2_fmap_r, Forall_Forall2_diag.
  eapply Forall_impl; [exact Hm |]. intros r2 Hex. simpl.
  apply counterpart_is_Some in Hex as [r1 Hr1].
  exists r1. split; [done |].
  unfold with_comparison. rewrite Hr1. apply get_set_comparison.
Qed.

End ComparisonFacts.

Lemma extend_computes_comparisons_witness :
  exists results',
    extend_logger_results_with_comparison "a" "b" pair_metric "sqnr"
      linear_results = Ok results'
    /\ results' = compared_results "a" "b" pair_metric "sqnr" linear_results
    /\ forall key rtype results_1 results_2,
         results_group key rtype "a" linear_results = Some results_1 ->
         results_group key rtype "b" linear_results = Some results_2 ->
         exists results_2',
           results_group key rtype "b" results' = Some results_2'
           /\ Forall2
                (fun result_2 result_2' =>
                   exists result_1,
                     counterpart results_1 result_2 = Some result_1
                     /\ Res.get_comparison "sqnr" result_2'
                        = Some (zip_with pair_metric (Res.values result_1)
                                  (Res.values result_2)))
                results_2 results_2'.
Proof.
  apply (extend_computes_comparisons "a" "b" pair_metric "sqnr" linear_results).
  - left. discriminate.
  - repeat constructor.
Defined.

(** The results of that call: the record of model [b] holds the two pairs
    under ['sqnr'], and the third batch of [b] has no partner. *)
Example extend_linear_results :
  extend_logger_results_with_comparison "a" "b" pair_metric "sqnr" linear_results
  = Ok [("linear", [("node_output",
          [("a", [linear_record [VInt 1; VInt 2]]);
           ("b", [{| Res.type := "node_output";
                     Res.values := [VInt 10; VInt 20; VInt 30];
                     Res.ref_node_name := "linear";
                     Res.ref_node_target_type := "torch.nn.Linear";
                     Res.prev_node_name := "linear";
                     Res.prev_node_target_type := "torch.nn.Linear";
                     Res.index_within_arg := 0; Res.index_of_arg := 0;
                     Res.fqn := Some "linear"; Res.qconfig_str := Some "";
                     Res.comparisons :=
                       [("sqnr", [VTuple [VInt 1; VInt 10];
                                  VTuple [VInt 2; VInt 20]])] |}])])])].
Proof. reflexivity. Qed.

(** C6, as stated, fails when the same model name is given twice and the
    comparison is stored under ['values']: the second of two records at the
    same position is paired with the first one after the first one's
    captured values have been replaced, so what is stored in the second
    record compares the stored comparison of the first record, not its
    captured value, with the captured value of the second. *)
Lemma extend_same_model_compares_stored_values :
  counterpart twin_records (linear_record [VInt 2]) = Some (linear_record [VInt 1])
  /\ zip_with pair_metric (Res.values (linear_record [VInt 1]))
       (Res.values (linear_record [VInt 2]))
     = [VTuple [VInt 1; VInt 2]]
  /\ extend_logger_results_with_comparison "a" "a" pair_metric "values"
       [("linear", [("node_output", [("a", twin_records)])])]
     = Ok [("linear", [("node_output",
             [("a", [linear_record [VTuple [VInt 1; VInt 1]];
                     linear_record [VTuple [VTuple [VInt 1; VInt 1]; VInt 2]]])])])].
Proof. repeat split; vm_compute; reflexivity. Qed.

(** A comparison against a model that was not instrumented fails. *)
Example extend_absent_model_raises :
  extend_logger_results_with_comparison "a" "c" pair_metric "sqnr" linear_results
  = Raise AssertionError.
Proof. reflexivity. Qed.

(** A comparison stored under ['index_of_arg'] takes the place of the
    position of the record: a second call finds no record of model [a] at
    that position any more. *)
Example extend_index_of_arg_twice :
  (extend_logger_results_with_comparison "a" "b" pair_metric "index_of_arg"
     linear_results
   ≫= extend_logger_results_with_comparison "a" "b" pair_metric "index_of_arg")
  = Raise AssertionError.
Proof. reflexivity. Qed.

(** ** The sweep builder *)

Section SweepFacts.

Context `{env : SweepEnv}.

Lemma insert_after_perm (anchor : string) (new_node : Node.t) (nodes : list Node.t) :
  insert_after anchor new_node nodes ≡ₚ new_node :: nodes.
Proof.
  induction nodes as [| n nodes IH]; simpl; [done |].
  destruct (decide _); [apply Permutation_swap |].
  rewrite IH. apply Permutation_swap.
Qed.

Lemma insert_before_perm (anchor : string) (new_node : Node.t) (nodes : list Node.t) :
  insert_before anchor new_node nodes ≡ₚ new_node :: nodes.
Proof.
  induction nodes as [| n nodes IH]; simpl; [done |].
  destruct (decide _); [done |].
  rewrite IH. apply Permutation_swap.
Qed.

Lemma hasattr_true (mt : GraphModule Submodule) (attr_name : string) :
  hasattr mt attr_name = true <-> attr_name ∈ dom (attrs mt).
Proof. unfold hasattr. rewrite bool_decide_eq_true. by rewrite elem_of_dom. Qed.

(** What one candidate does when it returns: either it attaches a fresh
    attribute under the derived name and inserts one call of it, or its
    resolved config is null and the model is left as it was. *)
Lemma shadow_candidate_Ok (subgraph_idx : nat) (first_node last_node : Node.t)
    (example : example_inputs)
    (cfgs : list (gmap string (option QConfig))) (j : nat)
    (mt mt' : GraphModule Submodule) :
  shadow_candidate subgraph_idx first_node last_node example cfgs j mt = Ok mt' ->
  (attaches first_node cfgs j = true
   /\ hasattr mt (derived_name subgraph_idx j) = false
   /\ exists v new_node,
        attrs mt' = <[derived_name subgraph_idx j := v]> (attrs mt)
        /\ graph mt' ≡ₚ new_node :: graph mt
        /\ Node.op new_node = "call_module"
        /\ Node.target new_node = derived_name subgraph_idx j)
  \/ (attaches first_node cfgs j = false
      /\ mt' = mt
      /\ exists c, cfgs !! (j - 1)%nat = Some c /\ resolves_to_null first_node c = true).
Proof.
  unfold shadow_candidate, attaches, derived_name, resolves_to_null.
  destruct (j =? 0)%nat eqn:Hj.
  - unfold py_assert. destruct (hasattr mt _) eqn:Hh; simpl; [done |].
    intros [= <-]. left. repeat split. eexists _, _.
    split; [reflexivity |]. split; [apply insert_after_perm |]. done.
  - destruct (cfgs !! (j - 1)%nat) as [c|]; [| done].
    destruct (c !! Node.name first_node) as [[q|]|] eqn:Hc; [| | done].
    + unfold py_assert. destruct (hasattr mt _) eqn:Hh; simpl; [done |].
      destruct (wrapper_call_arguments first_node) as [new_args new_kwargs].
      intros [= <-]. left. repeat split. eexists _, _.
      split; [reflexivity |]. split; [apply insert_before_perm |]. done.
    + intros [= <-]. right. repeat split. exists c. by rewrite Hc.
Qed.

(** The assertion of a candidate fails exactly when the candidate attaches
    an attribute and the carrier module already has one of that name. *)
Lemma shadow_candidate_assert (subgraph_idx : nat) (first_node last_node : Node.t)
    (example : example_inputs)
    (cfgs : list (gmap string (option QConfig))) (j : nat)
    (mt : GraphModule Submodule) :
  shadow_candidate subgraph_idx first_node last_node example cfgs j mt
  = Raise AssertionError
  <-> attaches first_node cfgs j = true
      /\ hasattr mt (derived_name subgraph_idx j) = true.
Proof.
  unfold shadow_candidate, attaches, derived_name.
  destruct (j =? 0)%nat eqn:Hj.
  - unfold py_assert. destruct (hasattr mt _) eqn:Hh; simpl; [done |].
    split; [done | by intros [_ ?]].
  - destruct (cfgs !! (j - 1)%nat) as [c|]; [| split; [done | by intros [? _]]].
    destruct (c !! Node.name first_node) as [[q|]|] eqn:Hc;
      [| split; [done | by intros [? _]] | split; [done | by intros [? _]]].
    unfold py_assert. destruct (hasattr mt _) eqn:Hh; simpl; [done |].
    destruct (wrapper_call_arguments first_node) as [new_args new_kwargs].
    split; [done | by intros [_ ?]].
Qed.

(** What a candidate that returns has done to the carrier. *)
Lemma shadow_candidate_inv (subgraph_idx : nat) (first_node last_node : Node.t)
    (example : example_inputs) (cfgs : list (gmap string (option QConfig)))
    (j : nat) (mt mt' : GraphModule Submodule) :
  shadow_candidate subgraph_idx first_node last_node example cfgs j mt = Ok mt' ->
  (j = 0%nat
   /\ hasattr mt (_get_attr_name subgraph_idx 0) = false
   /\ mt' = inserting_after last_node
              (call_module (_get_attr_name subgraph_idx 0)
                 [ArgNode (Node.name last_node)] [])
              (setattr mt (_get_attr_name subgraph_idx 0)
                 (AttrLogger (_get_logger_for_subgraph mt first_node last_node
                                subgraph_idx 0 ""))))
  \/ (j <> 0%nat
      /\ (exists c, cfgs !! (j - 1)%nat = Some c
                    /\ c !! Node.name first_node = Some None)
      /\ mt' = mt)
  \/ (j <> 0%nat
      /\ exists c qconfig,
           cfgs !! (j - 1)%nat = Some c
           /\ c !! Node.name first_node = Some (Some qconfig)
           /\ hasattr mt (_get_attr_wrapper_name subgraph_idx j) = false
           /\ mt' = inserting_before first_node
                      (call_module (_get_attr_wrapper_name subgraph_idx j)
                         (wrapper_call_arguments first_node).1
                         (wrapper_call_arguments first_node).2)
                      (setattr mt (_get_attr_wrapper_name subgraph_idx j)
                         (AttrWrapper
                            (prepare_fx
                               (_add_logger_to_subgraph_wrapper
                                  (create_submodule_from_subgraph mt first_node
                                     last_node)
                                  subgraph_idx j (str_of_qconfig qconfig))
                               qconfig example)))).
Proof.
  unfold shadow_candidate. destruct j as [|j].
  - simpl. destruct (hasattr mt _) eqn:Hh; simpl; [discriminate|].
    intros [= <-]. left. done.
  - change (S j =? 0)%nat with false. cbv iota.
    destruct (cfgs !! (S j - 1)%nat) as [c|] eqn:Ec; [|discriminate].
    destruct (c !! Node.name first_node) as [[qconfig|]|] eqn:Eq; [| |discriminate].
    + destruct (hasattr mt _) eqn:Hh; simpl; [discriminate|].
      destruct (wrapper_call_arguments first_node) as [new_args new_kwargs] eqn:Ew.
      intros [= <-]. right; right. split; [done|]. exists c, qconfig.
      repeat split; done.
    + intros [= <-]. right; left. split; [done|]. split; [|done]. eauto.
Qed.




Lemma entries_last_node (nodes : list subgraph_entry) :
  Forall (fun e => entry_is_Node e = true) nodes -> nodes <> [] ->
  exists last_node, last nodes = Some (EntryNode last_node).
Proof.
  intros Hall Hne.
  destruct (last nodes) as [e|] eqn:Hlast; [| by apply last_None in Hlast].
  rewrite Forall_forall in Hall.
  assert (He : entry_is_Node e = true).
  { apply Hall. apply last_Some in Hlast as [l' ->]. apply elem_of_app. right.
    by apply list_elem_of_singleton. }
  destruct e; [eauto | done].
Qed.

Lemma entries_all_nodes (nodes : list subgraph_entry) :
  Forall (fun e => entry_is_Node e = true) nodes ->
  existsb (fun node => negb (entry_is_Node node)) nodes = false.
Proof.
  induction 1 as [| e l He _ IH]; simpl; [done |]. by rewrite He, IH.
Qed.

(** C9, amended.  A subgraph made only of graph nodes whose first node
    takes its input from a single node without a recorded example value is
    skipped: the carrier model is left as it was, one diagnostic line is
    printed, and the loop goes on with the remaining subgraphs. *)
Theorem shadow_subgraph_skips_without_example
    (cfgs : list (gmap string (option QConfig))) (subgraph_idx : nat)
    (match_name : string) (nodes_in_this_subgraph : list subgraph_entry)
    (rest : dict (list subgraph_entry)) (first_node prev_node : Node.t)
    (st : sweep_state) :
  Forall (fun e => entry_is_Node e = true) nodes_in_this_subgraph ->
  head nodes_in_this_subgraph = Some (EntryNode first_node) ->
  get_normalized_nth_input first_node (mt_of st) 0 = InputNode prev_node ->
  Node.traced_result prev_node = None ->
  shadow_subgraph cfgs subgraph_idx nodes_in_this_subgraph st
  = Ok (print (skip_message first_node) st)
  /\ shadow_subgraphs cfgs ((match_name, nodes_in_this_subgraph) :: rest)
       subgraph_idx st
     = shadow_subgraphs cfgs rest (S subgraph_idx)
         (print (skip_message first_node) st).
Proof.
  intros Hall Hhead Hprev Hnone.
  assert (Hstep : shadow_subgraph cfgs subgraph_idx nodes_in_this_subgraph st
                  = Ok (print (skip_message first_node) st)).
  { unfold shadow_subgraph.
    rewrite (entries_all_nodes _ Hall), Hhead. simpl.
    destruct (entries_last_node _ Hall) as [last_node ->];
      [by destruct nodes_in_this_subgraph |]. simpl.
    rewrite Hprev. simpl. rewrite Hnone. reflexivity. }
  split; [done |]. simpl. by rewrite Hstep.
Qed.

(** The attributes of the carrier module after a candidate, a subgraph and
    a whole sweep: what was there stays, and only derived names are added. *)
Lemma shadow_candidate_attrs (subgraph_idx : nat) (first_node last_node : Node.t)
    (example : example_inputs) (cfgs : list (gmap string (option QConfig)))
    (j : nat) (mt mt' : GraphModule Submodule) :
  shadow_candidate subgraph_idx first_node last_node example cfgs j mt = Ok mt' ->
  attrs mt ⊆ attrs mt'
  /\ dom (attrs mt') ⊆ dom (attrs mt) ∪ {[derived_name subgraph_idx j]}.
Proof.
  intros [(_ & Hh & v & new_node & Hattrs & _) | (_ & -> & _)]%shadow_candidate_Ok.
  - rewrite Hattrs. split.
    + apply insert_subseteq. apply not_elem_of_dom. rewrite <- hasattr_true.
      by rewrite Hh.
    + rewrite dom_insert. set_solver.
  - split; [done | set_solver].
Qed.

Lemma candidates_loop_attrs (subgraph_idx : nat) (first_node last_node : Node.t)
    (example : example_inputs) (cfgs : list (gmap string (option QConfig)))
    (js : list nat) (mt mt' : GraphModule Submodule) :
  for_each (shadow_candidate subgraph_idx first_node last_node example cfgs) js mt
  = Ok mt' ->
  attrs mt ⊆ attrs mt'
  /\ dom (attrs mt') ⊆ dom (attrs mt) ∪ list_to_set (derived_name subgraph_idx <$> js).
Proof.
  revert mt. induction js as [| j js IH]; intros mt; simpl.
  - intros [= <-]. split; [done | set_solver].
  - intros (mt1 & Hstep & Hrest)%bind_Ok.
    apply shadow_candidate_attrs in Hstep as [Hsub Hdom].
    apply IH in Hrest as [Hsub' Hdom'].
    split; [by etrans | set_solver].
Qed.

Lemma candidates_loop_no_assert (subgraph_idx : nat) (first_node last_node : Node.t)
    (example : example_inputs) (cfgs : list (gmap string (option QConfig)))
    (js : list nat) (mt : GraphModule Submodule) :
  NoDup (derived_name subgraph_idx <$> js) ->
  (forall name, name ∈ derived_name subgraph_idx <$> js -> name ∉ dom (attrs mt)) ->
  for_each (shadow_candidate subgraph_idx first_node last_node example cfgs) js mt
  <> Raise AssertionError.
Proof.
  revert mt. induction js as [| j js IH]; intros mt Hnd Hfresh; simpl; [done |].
  rewrite fmap_cons in Hnd, Hfresh. apply NoDup_cons in Hnd as [Hj Hnd].
  intros [Hstep | (mt1 & Hstep & Hrest)]%bind_Raise.
  - apply shadow_candidate_assert in Hstep as [_ Hh%hasattr_true].
    apply (Hfresh (derived_name subgraph_idx j)); [by left | done].
  - apply shadow_candidate_attrs in Hstep as [_ Hdom].
    apply (IH mt1 Hnd); [| done].
    intros name Hname Hin. apply Hdom in Hin.
    apply elem_of_union in Hin as [Hin | ->%elem_of_singleton]; [| done].
    apply (Hfresh name); [by right | done].
Qed.

Lemma shadow_subgraph_attrs (cfgs : list (gmap string (option QConfig)))
    (subgraph_idx : nat) (nodes : list subgraph_entry) (st st' : sweep_state) :
  shadow_subgraph cfgs subgraph_idx nodes st = Ok st' ->
  attrs (mt_of st) ⊆ attrs (mt_of st')
  /\ dom (attrs (mt_of st'))
     ⊆ dom (attrs (mt_of st))
       ∪ list_to_set (derived_names_of subgraph_idx (length cfgs)).
Proof.
  unfold shadow_subgraph. destruct (existsb _ _).
  { intros [= <-]. split; [done | set_solver]. }
  intros (first_node & _ & (last_node & _ & (example & _ & H)%bind_Ok)%bind_Ok)%bind_Ok.
  destruct example as [example|].
  - apply bind_Ok in H as (mt' & Hloop & [= <-]). simpl.
    by apply candidates_loop_attrs in Hloop.
  - injection H as <-. simpl. split; [done | set_solver].
Qed.











End SweepFacts.



(** The candidates of that subgraph that get a branch are candidates 0 and
    1, under the names [shadow_0_0] and [shadow_wrapper_0_1]. *)
Example linear_relu_branch_candidates :
  filter (fun j => @attaches example_env node_linear example_qconfigs j = true)
    (seq 0 3)
  = [0; 1]%nat
  /\ @derived_name example_env 0 <$> [0; 1]%nat = ["shadow_0_0"; "shadow_wrapper_0_1"].
Proof. split; vm_compute; reflexivity. Qed.

(** C9, as stated, fails.  A subgraph whose entries are not all graph
    nodes is skipped before its input is looked at, so when the input of its
    first node has no recorded example value nothing is printed.  And when
    the input of the first node is a list of nodes ([torch.cat([x, y])]), a
    node of the list without a recorded example value aborts the whole sweep
    with [AttributeError]. *)
Lemma prepare_without_example_not_always_diagnosed :
  (example_nth_input node_linear (linear_relu_model None) 0 = InputNode (node_x None)
   /\ Node.traced_result (node_x None) = None
   /\ @prepare_n_shadows_model example_env (linear_relu_model None)
        [("linear_relu", [EntryNode node_linear; EntryOther])] example_qconfigs
      = Ok (@mkSweepState example_env (linear_relu_model None) []))
  /\ (example_nth_input node_cat cat_model 0
      = InputList [node_x (Some (VTensor tensor_x)); node_y None]
      /\ Node.traced_result (node_y None) = None
      /\ @prepare_n_shadows_model example_env cat_model
           [("cat", [EntryNode node_cat]);
            ("linear_relu", [EntryNode node_linear; EntryNode node_relu])]
           example_qconfigs
         = Raise AttributeError).
Proof. repeat split; vm_compute; reflexivity. Qed.

Lemma shadow_subgraph_skips_without_example_witness :
  @shadow_subgraph example_env example_qconfigs 0
    [EntryNode node_linear; EntryNode node_relu]
    (initial_state (linear_relu_model None))
  = Ok (@mkSweepState example_env (linear_relu_model None)
          ["unable to get example input for node linear, skipping"])
  /\ @shadow_subgraphs example_env example_qconfigs
       [("linear_relu", [EntryNode node_linear; EntryNode node_relu]);
        ("relu", [EntryNode node_relu])]
       0 (initial_state (linear_relu_model None))
     = @shadow_subgraphs example_env example_qconfigs
         [("relu", [EntryNode node_relu])] 1
         (@mkSweepState example_env (linear_relu_model None)
            ["unable to get example input for node linear, skipping"]).
Proof.
  apply (@shadow_subgraph_skips_without_example example_env example_qconfigs 0
           "linear_relu" [EntryNode node_linear; EntryNode node_relu]
           [("relu", [EntryNode node_relu])] node_linear (node_x None)
           (initial_state (linear_relu_model None))).
  - repeat constructor.
  - reflexivity.
  - reflexivity.
  - reflexivity.
Defined.



(* ===================================================================== *)
(** * Part III: further properties                                        *)
(* ===================================================================== *)

(** ** The life of a logger *)

Lemma forward_cases (self self' : OutputLogger) (x y : value) :
  forward self x = Ok (y, self') ->
  y = x
  /\ (self' = self
      \/ (exists t, x = VTensor t /\ self' = stats_append (VTensor (detach t)) self)
      \/ (exists t0 t1 t2,
            self' = stats_rnn_append
                      (VTuple [VTensor (detach t0);
                               VTuple [VTensor (detach t1); VTensor (detach t2)]])
                      self)).
Proof.
  intros H. split; [exact (forward_returns_input _ _ _ H)|].
  unfold forward in H.
  destruct (enabled self); simpl in H; [|left; congruence].
  destruct x as [|n|t|items|items]; simpl in H; try (left; congruence).
  - right; left. exists t. split; [done|congruence].
  - destruct (length items =? 2)%nat; [|left; congruence].
    apply bind_Ok in H as (x1 & _ & H).
    apply bind_Ok in H as (n1 & _ & H).
    destruct (n1 =? 2)%nat; [|left; congruence].
    apply bind_Ok in H as (x0 & _ & H).
    apply bind_Ok in H as (a & Ha & H).
    apply bind_Ok in H as (x10 & _ & H).
    apply bind_Ok in H as (b & Hb & H).
    apply bind_Ok in H as (x11 & _ & H).
    apply bind_Ok in H as (c & Hc & H).
    destruct x0; try discriminate. destruct x10; try discriminate.
    destruct x11; try discriminate. simpl in Ha, Hb, Hc.
    right; right. eexists _, _, _.
    inversion Ha; inversion Hb; inversion Hc; inversion H; subst. reflexivity.
Qed.

(** X1.  A call of [forward] that returns only ever appends: the earlier
    captures are kept in place (both lists are extended at the end, by at
    most one snapshot in total) and the metadata, the switch included, is
    untouched. *)
Theorem forward_only_appends (self self' : OutputLogger) (x y : value) :
  forward self x = Ok (y, self') ->
  same_metadata self self'
  /\ stats self `prefix_of` stats self'
  /\ stats_rnn self `prefix_of` stats_rnn self'
  /\ (length (stats self') + length (stats_rnn self')
      <= S (length (stats self) + length (stats_rnn self)))%nat.
Proof.
  intros H. apply forward_cases in H as [_ [->|[(t & _ & ->)|(t0 & t1 & t2 & ->)]]];
    unfold same_metadata; simpl; rewrite ?length_app; simpl;
    repeat split; try done; try lia; try (by apply prefix_app_r).
Qed.

Lemma forward_only_appends_witness :
  same_metadata (logger_at "linear" "a" "node_output" 0 0 true)
    (stats_append (VTensor (detach tensor_x))
       (logger_at "linear" "a" "node_output" 0 0 true))
  /\ [] `prefix_of` [VTensor (detach tensor_x)]
  /\ @nil value `prefix_of` []
  /\ (1 + 0 <= S (0 + 0))%nat.
Proof.
  apply (forward_only_appends (logger_at "linear" "a" "node_output" 0 0 true)
           (stats_append (VTensor (detach tensor_x))
              (logger_at "linear" "a" "node_output" 0 0 true))
           (VTensor tensor_x) (VTensor tensor_x)).
  reflexivity.
Defined.

(** X2.  Every snapshot a logger takes is detached: if no captured tensor
    was attached to the autograd graph before a call, none is after it,
    whatever the value passed in. *)
Theorem forward_captures_detached (self self' : OutputLogger) (x y : value) :
  forward self x = Ok (y, self') ->
  Forall (fun v => value_detached v = true) (stats self ++ stats_rnn self) ->
  Forall (fun v => value_detached v = true) (stats self' ++ stats_rnn self').
Proof.
  intros H Hinv.
  apply Forall_app in Hinv as [Hs Hr].
  apply forward_cases in H as [_ [->|[(t & _ & ->)|(t0 & t1 & t2 & ->)]]]; simpl;
    rewrite ?Forall_app; repeat split; try done;
    by repeat constructor.
Qed.

Lemma forward_captures_detached_witness :
  Forall (fun v => value_detached v = true)
    (stats (stats_append (VTensor (detach tensor_x))
              (logger_at "linear" "a" "node_output" 0 0 true))
     ++ stats_rnn (stats_append (VTensor (detach tensor_x))
                     (logger_at "linear" "a" "node_output" 0 0 true))).
Proof.
  apply (forward_captures_detached (logger_at "linear" "a" "node_output" 0 0 true)
           _ (VTensor tensor_x) (VTensor tensor_x)).
  - reflexivity.
  - simpl. constructor.
Defined.

Lemma forward_calls_tensors (self : OutputLogger) (ts : list Tensor) :
  enabled self = true ->
  forward_calls self (VTensor <$> ts)
  = Ok (VTensor <$> ts,
        {| stats := stats self ++ ((fun t => VTensor (detach t)) <$> ts);
           stats_rnn := stats_rnn self;
           ref_node_name := ref_node_name self;
           prev_node_name := prev_node_name self;
           model_name := model_name self;
           ref_name := ref_name self;
           prev_node_target_type := prev_node_target_type self;
           ref_node_target_type := ref_node_target_type self;
           results_type := results_type self;
           index_within_arg := index_within_arg self;
           index_of_arg := index_of_arg self;
           fqn := fqn self;
           enabled := enabled self;
           qconfig_str := qconfig_str self |}).
Proof.
  revert self. induction ts as [|t ts IH]; intros self Hen.
  - simpl. rewrite app_nil_r. by destruct self.
  - rewrite fmap_cons. cbn [forward_calls].
    unfold forward at 1. rewrite Hen. cbn.
    rewrite IH by done. cbn. rewrite <- app_assoc, ?Hen. reflexivity.
Qed.

(** X3.  A new logger called on a sequence of tensors hands each of them on
    unchanged, and the record extracted from it afterwards holds the
    detached snapshots of exactly these tensors, in the order of the calls,
    together with the metadata the logger was created with. *)
Theorem fresh_logger_reports_captures
    (ref_node prev_node model ref prev_type ref_type rtype : string)
    (within_arg of_arg : Z) (fqn_ qconfig : option string) (ts : list Tensor) :
  exists self',
    forward_calls
      (OutputLogger__init__ ref_node prev_node model ref prev_type ref_type rtype
         within_arg of_arg fqn_ qconfig)
      (VTensor <$> ts)
    = Ok (VTensor <$> ts, self')
    /\ logger_record self'
       = {| Res.type := rtype;
            Res.values := (fun t => VTensor (detach t)) <$> ts;
            Res.ref_node_name := ref_node;
            Res.ref_node_target_type := ref_type;
            Res.prev_node_name := prev_node;
            Res.prev_node_target_type := prev_type;
            Res.index_within_arg := within_arg;
            Res.index_of_arg := of_arg;
            Res.fqn := fqn_;
            Res.qconfig_str := qconfig;
            Res.comparisons := [] |}.
Proof.
  eexists. split.
  - apply forward_calls_tensors. reflexivity.
  - reflexivity.
Qed.

(** ** More on the aggregation *)

(** X4.  The only exception the aggregation raises is the assertion: a
    logger is refused exactly when its model name is already a key of the
    dictionary stored under its reference name, and a traversal that fails
    fails with [AssertionError]; the nested dictionaries are created on
    demand, so no key is ever missing. *)
Theorem extract_raises_only_assertion :
  (forall (mod_ : OutputLogger) (results : NSResultsType) (e : exn),
      extract_logger mod_ results = Raise e
      <-> e = AssertionError
          /\ exists by_key,
               dict_get (ref_name mod_) results = Some by_key
               /\ dict_in (model_name mod_) by_key = true)
  /\ (forall (model : list (string * nn_module)) (results : NSResultsType) (e : exn),
        _extract_logger_info_one_model model results = Raise e ->
        e = AssertionError).
Proof.
  assert (Hstep : forall mod_ results e,
             extract_logger mod_ results = Raise e
             <-> e = AssertionError
                 /\ exists by_key,
                      dict_get (ref_name mod_) results = Some by_key
                      /\ dict_in (model_name mod_) by_key = true).
  { intros mod_ results e. rewrite extract_logger_char.
    destruct (dict_get (ref_name mod_) results) as [by_key|] eqn:Hk; simpl.
    - destruct (dict_in (model_name mod_) by_key) eqn:Hin; split.
      + intros [= <-]. eauto.
      + intros [-> _]. done.
      + discriminate.
      + intros [_ (b & [= <-] & Hb)]. congruence.
    - split; [discriminate|]. intros [_ (b & [=] & _)]. }
  split; [exact Hstep|].
  intros model results e. rewrite extract_model_loggers.
  generalize (loggers_of model). intros ls. revert results.
  induction ls as [|l ls IH]; intros results H; [discriminate|].
  cbn [for_each] in H. apply bind_Raise in H as [H|(r & _ & H)]; [|eauto].
  by apply Hstep in H as [-> _].
Qed.

(** X5.  Recording a logger touches one group only: the list under its
    reference name, result type and model name gains exactly its record
    (it is a rearrangement of the former list and the new record), and the
    list of every other group is what it was. *)
Theorem extract_logger_frame (mod_ : OutputLogger) (results results' : NSResultsType) :
  extract_logger mod_ results = Ok results' ->
  (exists records,
      results_group (ref_name mod_) (results_type mod_) (model_name mod_) results'
      = Some records
      /\ records
         ≡ₚ default [] (results_group (ref_name mod_) (results_type mod_)
                          (model_name mod_) results)
            ++ [logger_record mod_])
  /\ (forall key rtype name,
        ~ logger_in_group key rtype name mod_ ->
        results_group key rtype name results'
        = results_group key rtype name results).
Proof.
  intros H. split.
  - eexists. split.
    + rewrite (extract_logger_group _ _ _ _ _ _ H).
      rewrite decide_True by done. reflexivity.
    + apply list_sort_perm.
  - intros key rtype name Hn.
    rewrite (extract_logger_group _ _ _ _ _ _ H).
    by rewrite decide_False.
Qed.

Lemma extract_logger_frame_witness :
  (exists records,
      results_group "add" "node_input" "a"
        [("add", [("node_input",
                   [("a", [logger_record add_logger_0; logger_record add_logger_1])])])]
      = Some records
      /\ records
         ≡ₚ default []
              (results_group "add" "node_input" "a"
                 [("add", [("node_input", [("a", [logger_record add_logger_0])])])])
            ++ [logger_record add_logger_1])
  /\ (forall key rtype name,
        ~ logger_in_group key rtype name add_logger_1 ->
        results_group key rtype name
          [("add", [("node_input",
                     [("a", [logger_record add_logger_0; logger_record add_logger_1])])])]
        = results_group key rtype name
            [("add", [("node_input", [("a", [logger_record add_logger_0])])])]).
Proof.
  apply (extract_logger_frame add_logger_1
           [("add", [("node_input", [("a", [logger_record add_logger_0])])])]).
  vm_compute. reflexivity.
Defined.

(** An invariant of the record lists carries over a traversal when
    re-sorting a list extended by a record keeps it. *)
Lemma extract_groups_invariant (Q : list Res.t -> Prop) (ls : list OutputLogger)
    (results results' : NSResultsType) :
  (forall l mod_, mod_ ∈ ls -> (l = [] \/ Q l) ->
                  Q (list_sort (l ++ [logger_record mod_]))) ->
  (forall key rtype name l, results_group key rtype name results = Some l -> Q l) ->
  for_each extract_logger ls results = Ok results' ->
  forall key rtype name l, results_group key rtype name results' = Some l -> Q l.
Proof.
  revert results. induction ls as [|m ls IH]; intros results Hstep Hinv H.
  - injection H as <-. exact Hinv.
  - cbn [for_each] in H. apply bind_Ok in H as (r1 & H1 & H).
    apply (IH r1); [| |exact H].
    + intros l mod_ Hin. apply Hstep. by right.
    + intros key rtype name l Hl.
      rewrite (extract_logger_group _ _ _ _ _ _ H1) in Hl.
      destruct (decide (logger_in_group key rtype name m)).
      * injection Hl as <-. apply Hstep; [by left|].
        destruct (results_group key rtype name results) as [old|] eqn:Hg; simpl.
        -- right. eauto.
        -- by left.
      * eauto.
Qed.

(** X6.  The aggregation keeps every record list in ascending order of the
    sort keys compared as strings: if the lists of the incoming results are
    in that order, so are all the lists after a model has been traversed. *)
Theorem extract_keeps_groups_sorted (model : list (string * nn_module))
    (results results' : NSResultsType) :
  (forall key rtype name l,
      results_group key rtype name results = Some l -> Sorted sort_key_le l) ->
  _extract_logger_info_one_model model results = Ok results' ->
  forall key rtype name l,
    results_group key rtype name results' = Some l -> Sorted sort_key_le l.
Proof.
  intros Hinv H. rewrite extract_model_loggers in H.
  apply (extract_groups_invariant (Sorted sort_key_le) _ _ _
           (fun _ _ _ _ => list_sort_sorted_by_key _) Hinv H).
Qed.

Lemma extract_keeps_groups_sorted_witness :
  Sorted sort_key_le [logger_record cat_logger_10; logger_record cat_logger_2].
Proof.
  apply (extract_keeps_groups_sorted
           [("cat_2", LoggerModule cat_logger_2); ("relu", OtherModule);
            ("cat_10", LoggerModule cat_logger_10)] []
           [("cat", [("node_input",
                      [("a", [logger_record cat_logger_10;
                              logger_record cat_logger_2])])])])
    with (key := "cat") (rtype := "node_input") (name := "a").
  - intros key rtype name l. vm_compute. discriminate.
  - vm_compute. reflexivity.
  - vm_compute. reflexivity.
Defined.

Lemma digit_keys_agree_true : digit_keys_agree = true.
Proof. vm_compute. reflexivity. Qed.

Lemma digit_in_digits (a : Z) : 0 <= a < 10 -> In a digits.
Proof.
  intros H.
  assert (a = 0 \/ a = 1 \/ a = 2 \/ a = 3 \/ a = 4 \/ a = 5 \/ a = 6 \/ a = 7
          \/ a = 8 \/ a = 9) as Hc by lia.
  unfold digits. simpl. intuition.
Qed.

Lemma single_digit_key_order (r1 r2 : Res.t) :
  single_digit_indices r1 -> single_digit_indices r2 ->
  sort_key_le r1 r2 -> index_pair_le r1 r2.
Proof.
  intros [Ha Hb] [Hc Hd] Hle.
  pose proof digit_keys_agree_true as Hall. unfold digit_keys_agree in Hall.
  rewrite forallb_forall in Hall.
  specialize (Hall _ (digit_in_digits _ Ha)). rewrite forallb_forall in Hall.
  specialize (Hall _ (digit_in_digits _ Hb)). rewrite forallb_forall in Hall.
  specialize (Hall _ (digit_in_digits _ Hc)). rewrite forallb_forall in Hall.
  specialize (Hall _ (digit_in_digits _ Hd)).
  unfold sort_key_le, sort_key in Hle. unfold sort_key_of in Hall.
  rewrite Hle in Hall. simpl in Hall.
  unfold index_pair_le.
  apply orb_true_iff in Hall as [H|H]; [left; lia|].
  apply andb_true_iff in H as [H1 H2]. right. lia.
Qed.

Lemma index_pair_le_trans (x y z : Res.t) :
  index_pair_le x y -> index_pair_le y z -> index_pair_le x z.
Proof. unfold index_pair_le. lia. Qed.

Lemma sorted_single_digit (l : list Res.t) :
  Forall single_digit_indices l -> Sorted sort_key_le l -> sorted_by_index_pair l.
Proof.
  intros Hd Hs. apply Sorted_StronglySorted; [exact index_pair_le_trans|].
  induction Hs as [|r l Hs IH Hhd]; [constructor|].
  apply Forall_cons in Hd as [Hr Hl].
  constructor; [by apply IH|].
  destruct Hhd as [|r' l' Hle]; constructor.
  apply Forall_cons in Hl as [Hr' _].
  by apply single_digit_key_order.
Qed.

(** X7.  When every logger of the model has both position indices between
    0 and 9, the record lists of the results extracted from it are in
    ascending order of the numeric pair (index_of_arg, index_within_arg):
    on single digits the textual order of the keys is the numeric one. *)
Theorem extract_sorts_single_digit_positions (model : list (string * nn_module))
    (results : NSResultsType) :
  Forall (fun l => single_digit_indices (logger_record l)) (loggers_of model) ->
  _extract_logger_info_one_model model [] = Ok results ->
  forall key rtype name l,
    results_group key rtype name results = Some l -> sorted_by_index_pair l.
Proof.
  intros Hd H key rtype name l Hl. rewrite extract_model_loggers in H.
  rewrite Forall_forall in Hd.
  assert (Hq : Sorted sort_key_le l /\ Forall single_digit_indices l).
  { refine (extract_groups_invariant
              (fun l => Sorted sort_key_le l /\ Forall single_digit_indices l)
              _ _ _ _ _ H key rtype name l Hl).
    - intros l0 mod_ Hin Hl0. split; [apply list_sort_sorted_by_key|].
      rewrite list_sort_perm. apply Forall_app. split.
      + destruct Hl0 as [->|[_ ?]]; [constructor|done].
      + constructor; [|constructor]. by apply Hd.
    - intros ? ? ? ? [=]. }
  destruct Hq. by apply sorted_single_digit.
Qed.

Lemma extract_sorts_single_digit_positions_witness :
  sorted_by_index_pair [logger_record add_logger_0; logger_record add_logger_1].
Proof.
  apply (extract_sorts_single_digit_positions
           [("add_1", LoggerModule add_logger_1); ("add_0", LoggerModule add_logger_0)]
           [("add", [("node_input",
                      [("a", [logger_record add_logger_0;
                              logger_record add_logger_1])])])])
    with (key := "add") (rtype := "node_input") (name := "a").
  - simpl. repeat (constructor; [unfold single_digit_indices; simpl; lia|]).
    constructor.
  - vm_compute. reflexivity.
  - vm_compute. reflexivity.
Defined.

(** ** More on the comparison *)

Lemma results_group_by_model (key rtype name : string) (results : NSResultsType) :
  results_group key rtype name results
  = results_by_model key rtype results ≫= dict_get name.
Proof.
  unfold results_group, results_by_model.
  destruct (dict_get key results) as [by_key|]; [|done]. simpl.
  by destruct (dict_get rtype by_key).
Qed.

Lemma set_comparison_twice (name : string) (v v' : list value) (r : Res.t) :
  Res.set_comparison name v (Res.set_comparison name v' r)
  = Res.set_comparison name v r.
Proof.
  unfold Res.set_comparison.
  destruct (decide (name = "values")); simpl; [done|].
  by rewrite dict_set_set.
Qed.


Section ComparisonMore.

Variable model_name_1 model_name_2 : string.
Variable comparison_fn : value -> value -> value.
Variable comparison_name : string.

#[local] Abbreviation W' := (with_comparison comparison_fn comparison_name).
#[local] Abbreviation CG :=
  (compared_group model_name_1 model_name_2 comparison_fn comparison_name).
#[local] Abbreviation CR :=
  (compared_results model_name_1 model_name_2 comparison_fn comparison_name).

Lemma results_by_model_compared (key rtype : string) (results : NSResultsType) :
  results_by_model key rtype (CR results) = CG <$> results_by_model key rtype results.
Proof.
  unfold results_by_model, compared_results.
  rewrite (dict_get_map_values
             (fun by_key : dict (dict (list Res.t)) =>
                map (fun tv => (tv.1, CG tv.2)) by_key)).
  destruct (dict_get key results) as [by_key|]; [|done]. simpl.
  apply (dict_get_map_values CG).
Qed.

Lemma compared_group_get (m : dict (list Res.t)) (name : string) :
  dict_get name (CG m)
  = match dict_get model_name_1 m, dict_get model_name_2 m with
    | Some results_1, Some results_2 =>
        if decide (model_name_2 = name) then Some (map (W' results_1) results_2)
        else dict_get name m
    | _, _ => dict_get name m
    end.
Proof.
  unfold compared_group.
  destruct (dict_get model_name_1 m), (dict_get model_name_2 m); try done.
  apply dict_get_set.
Qed.


Lemma counterpart_indices (l : list Res.t) (r r' : Res.t) :
  Res.getitem_index_of_arg r = Res.getitem_index_of_arg r' ->
  Res.getitem_index_within_arg r = Res.getitem_index_within_arg r' ->
  counterpart l r = counterpart l r'.
Proof.
  intros H1 H2. unfold counterpart.
  induction l as [|r1 l IH]; [done|]. simpl.
  rewrite IH.
  rewrite (bool_decide_ext (same_index_pair r1 r) (same_index_pair r1 r')); [done|].
  unfold same_index_pair. rewrite H1, H2. done.
Qed.

Lemma with_comparison_twice (l l' : list Res.t) (r : Res.t) :
  comparison_name ∉ Res.compared_keys ->
  Forall2 same_core l l' -> W' l' (W' l r) = W' l r.
Proof.
  intros Hname Hll.
  destruct (with_comparison_same_core comparison_fn comparison_name l r Hname)
    as (Hi1 & Hi2 & Hv).
  unfold with_comparison at 1.
  rewrite <- (counterpart_indices l' r _ Hi1 Hi2).
  pose proof (counterpart_same_core l l' r Hll) as Hcp.
  rewrite <- Hv.
  unfold with_comparison.
  destruct (counterpart l r) as [r1|] eqn:E1, (counterpart l' r) as [r1'|] eqn:E2;
    inversion Hcp as [? ? (_ & _ & Hvs)|]; subst; [|done].
  rewrite <- Hvs. apply set_comparison_twice.
Qed.

Lemma compared_group_again (m : dict (list Res.t)) :
  comparison_name ∉ Res.compared_keys ->
  group_comparable model_name_1 model_name_2 m ->
  group_comparable model_name_1 model_name_2 (CG m) /\ CG (CG m) = CG m.
Proof.
  intros Hname Hc. unfold group_comparable in Hc.
  destruct (dict_get model_name_1 m) as [l1|] eqn:E1; [|done].
  destruct (dict_get model_name_2 m) as [l2|] eqn:E2; [|done].
  assert (Hcg : CG m = dict_set model_name_2 (map (W' l1) l2) m).
  { unfold compared_group. by rewrite E1, E2. }
  assert (H2 : dict_get model_name_2 (CG m) = Some (map (W' l1) l2)).
  { rewrite compared_group_get, E1, E2. by rewrite decide_True. }
  assert (H1 : exists l1', dict_get model_name_1 (CG m) = Some l1'
                           /\ Forall2 same_core l1 l1').
  { rewrite compared_group_get, E1, E2.
    destruct (decide (model_name_2 = model_name_1)) as [Heq|Hne].
    - eexists. split; [done|]. rewrite Heq, E1 in E2. injection E2 as <-.
      apply Forall2_fmap_r, Forall_Forall2_diag, Forall_forall.
      intros r _. by apply with_comparison_same_core.
    - exists l1. split; [done|].
      clear. induction l1; constructor; [by repeat split|done]. }
  destruct H1 as (l1' & H1 & Hsame).
  split.
  - unfold group_comparable. rewrite H1, H2.
    rewrite Forall_fmap. eapply Forall_impl; [exact Hc|].
    intros r2 Hex. simpl.
    destruct (with_comparison_same_core comparison_fn comparison_name l1 r2 Hname)
      as (Hi1 & Hi2 & _).
    revert Hi1 Hi2. generalize (W' l1 r2). intros r2' Hi1 Hi2.
    clear -Hex Hsame Hi1 Hi2.
    induction Hsame as [|a b l l' (Ha1 & Ha2 & _) Hrest IH].
    + inversion Hex.
    + inversion Hex as [? ? Hhd|? ? Htl]; subst.
      * left. unfold same_index_pair in *. rewrite <- Ha1, <- Ha2, <- Hi1, <- Hi2.
        exact Hhd.
      * right. by apply IH.
  - unfold compared_group at 1. rewrite H1, H2.
    rewrite Hcg, dict_set_set. f_equal.
    rewrite <- list_fmap_compose. apply list_fmap_ext.
    intros i r2 _. simpl. by apply with_comparison_twice.
Qed.

(** X8.  When the comparison name is none of ['index_within_arg'],
    ['index_of_arg'] and ['values'], running the comparison again with the
    same arguments on its own result succeeds and changes nothing: what is
    stored under the comparison name is replaced by the same values. *)
Theorem extend_idempotent (results results' : NSResultsType) :
  comparison_name ∉ Res.compared_keys ->
  extend_logger_results_with_comparison model_name_1 model_name_2 comparison_fn
    comparison_name results = Ok results' ->
  extend_logger_results_with_comparison model_name_1 model_name_2 comparison_fn
    comparison_name results' = Ok results'.
Proof.
  intros Hname. rewrite !extend_char by (by right).
  destruct (decide (results_comparable model_name_1 model_name_2 results))
    as [Hc|]; [|discriminate].
  intros [= <-].
  assert (H : results_comparable model_name_1 model_name_2 (CR results)
              /\ CR (CR results) = CR results).
  { unfold results_comparable, compared_results in *.
    induction Hc as [|[key by_key] rest Hk Hrest [IH1 IH2]]; [by split|].
    simpl in *.
    assert (Hin : Forall (fun tv : string * dict (list Res.t) =>
                            group_comparable model_name_1 model_name_2 tv.2)
                    (map (fun tv => (tv.1, CG tv.2)) by_key)
                  /\ map (fun tv : string * dict (list Res.t) => (tv.1, CG tv.2))
                       (map (fun tv => (tv.1, CG tv.2)) by_key)
                     = map (fun tv => (tv.1, CG tv.2)) by_key).
    { clear -Hk Hname. induction Hk as [|[t m] by_key Hm _ [IHa IHb]]; [by split|].
      simpl in *. destruct (compared_group_again m Hname Hm) as [Hg He].
      split; [by constructor|]. by rewrite He, IHb. }
    destruct Hin as [Hin1 Hin2]. split; [by constructor|].
    by rewrite Hin2, IH2. }
  destruct H as [H1 H2]. rewrite decide_True by done. by rewrite H2.
Qed.



(** X10.  When the two model names differ, or the comparison name is none
    of ['index_within_arg'], ['index_of_arg'] and ['values'], then in a
    result of the comparison every record of the second model holds, under
    the comparison name, the values of the comparison function on its
    captures and those of the first record of the first model at its
    position, paired in capture order; their number is the length of the
    shorter capture sequence, so surplus captures of either model are dropped
    without notice. *)
Theorem extend_truncates_to_shorter (results results' : NSResultsType)
    (key rtype : string) (results_1 results_2 : list Res.t) :
  model_name_1 <> model_name_2 \/ comparison_name ∉ Res.compared_keys ->
  extend_logger_results_with_comparison model_name_1 model_name_2 comparison_fn
    comparison_name results = Ok results' ->
  results_group key rtype model_name_1 results = Some results_1 ->
  results_group key rtype model_name_2 results = Some results_2 ->
  exists results_2',
    results_group key rtype model_name_2 results' = Some results_2'
    /\ Forall2
         (fun result_2 result_2' =>
            exists result_1 compared,
              counterpart results_1 result_2 = Some result_1
              /\ same_index_pair result_1 result_2
              /\ Res.get_comparison comparison_name result_2' = Some compared
              /\ compared
                 = zip_with comparison_fn (Res.values result_1) (Res.values result_2)
              /\ length compared
                 = (length (Res.values result_1) `min` length (Res.values result_2))%nat)
         results_2 results_2'.
Proof.
  intros Hsafe. rewrite extend_char by done.
  destruct (decide (results_comparable model_name_1 model_name_2 results))
    as [Hc|]; [|discriminate].
  intros [= <-]. rewrite !results_group_by_model, results_by_model_compared.
  destruct (results_by_model key rtype results) as [m|] eqn:Em; [|done]. simpl.
  intros E1 E2. rewrite compared_group_get, E1, E2, decide_True by done.
  eexists. split; [done|].
  assert (Hm : group_comparable model_name_1 model_name_2 m).
  { unfold results_by_model in Em.
    destruct (dict_get key results) as [by_key|] eqn:Ek; [|done]. simpl in Em.
    unfold results_comparable in Hc. rewrite Forall_forall in Hc.
    specialize (Hc _ (dict_get_elem_of _ _ _ Ek)). simpl in Hc.
    rewrite Forall_forall in Hc.
    exact (Hc _ (dict_get_elem_of _ _ _ Em)). }
  unfold group_comparable in Hm. rewrite E1, E2 in Hm.
  apply Forall2_fmap_r, Forall_Forall2_diag.
  eapply Forall_impl; [exact Hm|]. intros r2 Hex. simpl.
  apply counterpart_is_Some in Hex as [r1 Hr1].
  exists r1, (zip_with comparison_fn (Res.values r1) (Res.values r2)).
  split; [done|]. split.
  { apply find_some in Hr1 as [_ Hb]. by apply bool_decide_eq_true in Hb. }
  unfold with_comparison. rewrite Hr1. simpl. rewrite get_set_comparison.
  split; [done|]. split; [done|]. apply length_zip_with.
Qed.

End ComparisonMore.

Lemma extend_idempotent_witness :
  ("sqnr" ∉ Res.compared_keys)
  /\ extend_logger_results_with_comparison "a" "b" pair_metric "sqnr"
       linear_compared
     = Ok linear_compared.
Proof.
  assert (Hname : "sqnr" ∉ Res.compared_keys)
    by (apply (bool_decide_unpack _); vm_compute; exact I).
  split; [exact Hname|].
  apply (extend_idempotent "a" "b" pair_metric "sqnr" linear_results
           linear_compared Hname).
  vm_compute. reflexivity.
Defined.

(** ** Weight extraction *)

Section WeightFacts.

Context {Model : Type}.
Variable WEIGHT : string.
Variable extract_weight_from_node : Node.t -> Model -> option Res.t.
Variable maybe_add_missing_fqns : NSResultsType -> NSResultsType.
Variable rekey_logger_info_on_node_name_of_model : NSResultsType -> string -> NSResultsType.

#[local] Abbreviation step_w := (extract_weight WEIGHT extract_weight_from_node).
#[local] Abbreviation run_w := (_extract_weights_one_model WEIGHT extract_weight_from_node).
#[local] Abbreviation bad := (lacks_weight_key WEIGHT).

Lemma extract_weight_char (model_name : string) (model : Model) (node : Node.t)
    (ref_name : string) (results : NSResultsType) :
  step_w model_name model (node, ref_name) results
  = match extract_weight_from_node node model with
    | None => Ok results
    | Some w =>
        match dict_get ref_name results with
        | None => Ok (dict_set ref_name [(WEIGHT, [(model_name, [w])])] results)
        | Some by_ref =>
            match dict_get WEIGHT by_ref with
            | None => Raise KeyError
            | Some by_type =>
                Ok (dict_set ref_name
                      (dict_set WEIGHT (dict_set model_name [w] by_type) by_ref)
                      results)
            end
        end
    end.
Proof.
  unfold extract_weight.
  destruct (extract_weight_from_node node model) as [w|]; [|done].
  unfold dict_in, dict_getitem.
  destruct (dict_get ref_name results) as [by_ref|] eqn:E.
  - rewrite E. simpl. by destruct (dict_get WEIGHT by_ref).
  - rewrite dict_get_set_eq. simpl. rewrite decide_True by done. simpl.
    by rewrite dict_set_set, decide_True.
Qed.

Lemma extract_weight_group (model_name : string) (model : Model) (node : Node.t)
    (ref_name : string) (results results' : NSResultsType)
    (key rtype name : string) :
  step_w model_name model (node, ref_name) results = Ok results' ->
  results_group key rtype name results'
  = match extract_weight_from_node node model with
    | Some w =>
        if decide (key = ref_name /\ rtype = WEIGHT /\ name = model_name)
        then Some [w]
        else results_group key rtype name results
    | None => results_group key rtype name results
    end.
Proof.
  rewrite extract_weight_char.
  destruct (extract_weight_from_node node model) as [w|]; [|by intros [= <-]].
  unfold results_group.
  destruct (dict_get ref_name results) as [by_ref|] eqn:E.
  - destruct (dict_get WEIGHT by_ref) as [by_type|] eqn:E'; [|discriminate].
    intros [= <-]. rewrite dict_get_set.
    destruct (decide (ref_name = key)) as [<-|Hk].
    + rewrite E. simpl. rewrite dict_get_set.
      destruct (decide (WEIGHT = rtype)) as [<-|Ht].
      * rewrite E'. simpl. rewrite dict_get_set.
        destruct (decide (model_name = name)) as [<-|Hn].
        -- by rewrite decide_True.
        -- rewrite decide_False; [done|]. intros (_ & _ & ?). done.
      * rewrite decide_False; [done|]. intros (_ & ? & _). done.
    + rewrite decide_False; [done|]. intros (? & _ & _). done.
  - intros [= <-]. rewrite dict_get_set.
    destruct (decide (ref_name = key)) as [<-|Hk].
    + rewrite E. simpl.
      destruct (decide (rtype = WEIGHT)) as [->|Ht]; simpl.
      * destruct (decide (name = model_name)) as [->|Hn].
        -- by rewrite decide_True.
        -- rewrite decide_False; [done|]. intros (_ & _ & ?). done.
      * rewrite decide_False; [done|]. intros (_ & ? & _). done.
    + rewrite decide_False; [done|]. intros (? & _ & _). done.
Qed.

Lemma extract_weight_bad (model_name : string) (model : Model) (node : Node.t)
    (ref_name : string) (results results' : NSResultsType) (ref' : string) :
  step_w model_name model (node, ref_name) results = Ok results' ->
  bad ref' results' <-> bad ref' results.
Proof.
  rewrite extract_weight_char.
  destruct (extract_weight_from_node node model) as [w|]; [|by intros [= <-]].
  unfold lacks_weight_key.
  destruct (dict_get ref_name results) as [by_ref|] eqn:E.
  - destruct (dict_get WEIGHT by_ref) as [by_type|] eqn:E'; [|discriminate].
    intros [= <-]. setoid_rewrite dict_get_set.
    destruct (decide (ref_name = ref')) as [<-|Hk]; [|done].
    split.
    + intros (b & [= <-] & Hb). rewrite dict_get_set_eq in Hb. done.
    + intros (b & Hb1 & Hb2). congruence.
  - intros [= <-]. setoid_rewrite dict_get_set.
    destruct (decide (ref_name = ref')) as [<-|Hk]; [|done].
    split.
    + intros (b & [= <-] & Hb). simpl in Hb. by rewrite decide_True in Hb.
    + intros (b & Hb1 & _). congruence.
Qed.

Lemma extract_weight_raises (model_name : string) (model : Model) (node : Node.t)
    (ref_name : string) (results : NSResultsType) (e : exn) :
  step_w model_name model (node, ref_name) results = Raise e
  <-> e = KeyError
      /\ extract_weight_from_node node model <> None
      /\ bad ref_name results.
Proof.
  rewrite extract_weight_char. unfold lacks_weight_key.
  destruct (extract_weight_from_node node model) as [w|].
  - destruct (dict_get ref_name results) as [by_ref|] eqn:E.
    + destruct (dict_get WEIGHT by_ref) as [by_type|] eqn:E'; split.
      * discriminate.
      * intros (_ & _ & b & [= <-] & Hb). congruence.
      * intros [= <-]. eauto.
      * by intros (-> & _).
    + split; [discriminate|]. intros (_ & _ & b & [=] & _).
  - split; [discriminate|]. intros (_ & ? & _). done.
Qed.

Lemma extract_weights_bad (model_name : string) (model : Model)
    (nodes_and_names : list (Node.t * string)) (results results' : NSResultsType)
    (ref' : string) :
  run_w model_name model nodes_and_names results = Ok results' ->
  bad ref' results' <-> bad ref' results.
Proof.
  unfold _extract_weights_one_model. revert results.
  induction nodes_and_names as [|[node ref_name] rest IH]; intros results H.
  - by injection H as <-.
  - cbn [for_each] in H. apply bind_Ok in H as (r1 & H1 & H).
    rewrite (IH _ H). by apply (extract_weight_bad _ _ _ _ _ _ _ H1).
Qed.

Lemma extract_weights_raises (model_name : string) (model : Model)
    (nodes_and_names : list (Node.t * string)) (results : NSResultsType) (e : exn) :
  run_w model_name model nodes_and_names results = Raise e
  <-> e = KeyError
      /\ exists node ref_name,
           (node, ref_name) ∈ nodes_and_names
           /\ extract_weight_from_node node model <> None
           /\ lacks_weight_key WEIGHT ref_name results.
Proof.
  unfold _extract_weights_one_model. revert results.
  induction nodes_and_names as [|[node ref_name] rest IH]; intros results.
  - simpl. split; [discriminate|]. intros (_ & ? & ? & Hin & _). inversion Hin.
  - cbn [for_each]. split.
    + intros H. apply bind_Raise in H as [H|(r1 & H1 & H)].
      * apply extract_weight_raises in H as (-> & Hw & Hb).
        split; [done|]. exists node, ref_name. split; [left|done].
      * apply IH in H as (-> & n & r & Hin & Hw & Hb).
        split; [done|]. exists n, r. split; [by right|]. split; [done|].
        by apply (extract_weight_bad _ _ _ _ _ _ _ H1).
    + intros (-> & n & r & Hin & Hw & Hb).
      destruct (step_w model_name model (node, ref_name) results) as [r1|e1] eqn:H1.
      * simpl. apply IH. split; [done|]. exists n, r.
        apply elem_of_cons in Hin as [[= -> ->]|Hin].
        -- assert (Hr : step_w model_name model (node, ref_name) results
                         = Raise KeyError) by (by apply extract_weight_raises).
           congruence.
        -- split; [done|]. split; [done|].
           by apply (extract_weight_bad _ _ _ _ _ _ _ H1).
      * simpl. apply extract_weight_raises in H1 as (-> & _). done.
Qed.

(** X11.  Weight extraction fails exactly when a node that has a weight is
    listed under a reference name whose entry in the incoming results has
    no dictionary for the weights; the failure is [KeyError].  An entry the
    function creates itself always has one: after an extraction that
    returns, the reference names with such an entry are those that had one
    before. *)
Theorem extract_weights_raises_iff (model_name : string) (model : Model)
    (nodes_and_names : list (Node.t * string)) (results : NSResultsType) :
  (forall e,
      _extract_weights_one_model WEIGHT extract_weight_from_node model_name model
        nodes_and_names results = Raise e
      <-> e = KeyError
          /\ exists node ref_name,
               (node, ref_name) ∈ nodes_and_names
               /\ extract_weight_from_node node model <> None
               /\ lacks_weight_key WEIGHT ref_name results)
  /\ (forall results' ref_name,
        _extract_weights_one_model WEIGHT extract_weight_from_node model_name model
          nodes_and_names results = Ok results' ->
        lacks_weight_key WEIGHT ref_name results'
        <-> lacks_weight_key WEIGHT ref_name results).
Proof.
  split.
  - intros e. apply extract_weights_raises.
  - intros results' ref_name H. by eapply extract_weights_bad.
Qed.

Lemma last_cons_default {A : Type} (x : A) (l : list A) :
  last (x :: l) = Some (default x (last l)).
Proof.
  revert x. induction l as [|y l IH]; intros x; [done|].
  change (last (x :: y :: l)) with (last (y :: l)). rewrite IH.
  simpl. by destruct (last l).
Qed.

Lemma weights_for_cons (model : Model) (key : string) (node : Node.t)
    (name : string) (rest : list (Node.t * string)) :
  weights_for extract_weight_from_node model key ((node, name) :: rest)
  = (if decide (name = key) then option_list (extract_weight_from_node node model)
     else [])
    ++ weights_for extract_weight_from_node model key rest.
Proof.
  unfold weights_for. cbn [omap list_omap].
  destruct (decide (name = key)); [|done].
  by destruct (extract_weight_from_node node model).
Qed.

Lemma extract_weights_groups (model_name : string) (model : Model)
    (nodes_and_names : list (Node.t * string)) (results results' : NSResultsType)
    (key rtype name : string) :
  run_w model_name model nodes_and_names results = Ok results' ->
  results_group key rtype name results'
  = if decide (rtype = WEIGHT /\ name = model_name)
    then match last (weights_for extract_weight_from_node model key nodes_and_names) with
         | Some w => Some [w]
         | None => results_group key rtype name results
         end
    else results_group key rtype name results.
Proof.
  unfold _extract_weights_one_model. revert results.
  induction nodes_and_names as [|[node ref_name] rest IH]; intros results H.
  - injection H as <-. simpl. by destruct (decide _).
  - cbn [for_each] in H. apply bind_Ok in H as (r1 & H1 & H).
    rewrite (IH _ H). rewrite (extract_weight_group _ _ _ _ _ _ _ _ _ H1).
    rewrite weights_for_cons.
    destruct (decide (rtype = WEIGHT /\ name = model_name)) as [[-> ->]|Hn].
    + destruct (decide (ref_name = key)) as [->|Hk].
      * destruct (extract_weight_from_node node model) as [w|]; [|done].
        rewrite !decide_True by done.
        change (option_list (Some w) ++ ?l) with (w :: l). rewrite last_cons_default.
        simpl. by destruct (last _).
      * destruct (extract_weight_from_node node model) as [w|]; [|done].
        rewrite decide_False; [done|]. intros (? & _). done.
    + destruct (extract_weight_from_node node model) as [w|]; [|done].
      rewrite decide_False; [done|]. intros (_ & ? & ?). by apply Hn.
Qed.

(** X12.  After a weight extraction that returns, the entry of a reference
    name for the weights of the model is the one-element list holding the
    weight of the last listed node that has one under that name (earlier
    ones are overwritten), or what it was when no such node has a weight;
    the record lists of every other result type and model are untouched. *)
Theorem extract_weights_last_wins (model_name : string) (model : Model)
    (nodes_and_names : list (Node.t * string)) (results results' : NSResultsType) :
  run_w model_name model nodes_and_names results = Ok results' ->
  forall key,
    results_group key WEIGHT model_name results'
    = match last (weights_for extract_weight_from_node model key nodes_and_names) with
      | Some w => Some [w]
      | None => results_group key WEIGHT model_name results
      end
    /\ forall rtype name,
         ~ (rtype = WEIGHT /\ name = model_name) ->
         results_group key rtype name results' = results_group key rtype name results.
Proof.
  intros H key. split.
  - rewrite (extract_weights_groups _ _ _ _ _ _ _ _ H). by rewrite decide_True.
  - intros rtype name Hn.
    rewrite (extract_weights_groups _ _ _ _ _ _ _ _ H). by rewrite decide_False.
Qed.

Lemma weights_for_absent (model : Model) (key : string)
    (f : NSSubgraph * NSSubgraph -> Node.t)
    (pairs : dict (NSSubgraph * NSSubgraph)) :
  key ∉ pairs.*1 ->
  weights_for extract_weight_from_node model key
    (map (fun kv => (f kv.2, kv.1)) pairs) = [].
Proof.
  induction pairs as [|[k v] pairs IH]; [done|]. intros Hn.
  rewrite fmap_cons in Hn. apply not_elem_of_cons in Hn as [Hk Hn].
  cbn [map]. rewrite weights_for_cons. cbn [fst snd].
  rewrite decide_False by done. by apply IH.
Qed.

Lemma weights_for_unique (model : Model) (key : string)
    (f : NSSubgraph * NSSubgraph -> Node.t)
    (pairs : dict (NSSubgraph * NSSubgraph)) (v : NSSubgraph * NSSubgraph) :
  NoDup pairs.*1 -> (key, v) ∈ pairs ->
  weights_for extract_weight_from_node model key
    (map (fun kv => (f kv.2, kv.1)) pairs)
  = option_list (extract_weight_from_node (f v) model).
Proof.
  induction pairs as [|[k v'] pairs IH]; intros Hnd Hin; [inversion Hin|].
  rewrite fmap_cons in Hnd. apply NoDup_cons in Hnd as [Hk Hnd].
  cbn [map]. rewrite weights_for_cons. cbn [fst snd] in *.
  apply elem_of_cons in Hin as [[= <- <-]|Hin].
  - rewrite decide_True by done.
    rewrite (weights_for_absent model key f pairs Hk). apply app_nil_r.
  - rewrite decide_False.
    + by apply IH.
    + intros ->. apply Hk. apply list_elem_of_fmap. by exists (key, v).
Qed.

(** X13.  [_extract_weights_impl] never fails on the pairs of a matching,
    and in the results it hands to the completion of the fully qualified
    names each match name holds, for either model, the one-element list
    with the weight of the base node of its subgraph, and no entry for a
    model whose base node has no weight. *)
Theorem extract_weights_impl_populates (model_name_a : string) (gm_a : Model)
    (model_name_b : string) (gm_b : Model)
    (matched_subgraph_pairs : dict (NSSubgraph * NSSubgraph)) :
  NoDup matched_subgraph_pairs.*1 ->
  model_name_a <> model_name_b ->
  exists populated,
    _extract_weights_impl WEIGHT extract_weight_from_node maybe_add_missing_fqns
      rekey_logger_info_on_node_name_of_model
      model_name_a gm_a model_name_b gm_b matched_subgraph_pairs
    = Ok (rekey_logger_info_on_node_name_of_model
            (maybe_add_missing_fqns populated) model_name_b)
    /\ forall match_name subgraph_a subgraph_b,
         (match_name, (subgraph_a, subgraph_b)) ∈ matched_subgraph_pairs ->
         results_group match_name WEIGHT model_name_a populated
         = (fun w => [w]) <$> extract_weight_from_node (base_op_node subgraph_a) gm_a
         /\ results_group match_name WEIGHT model_name_b populated
            = (fun w => [w]) <$> extract_weight_from_node (base_op_node subgraph_b) gm_b.
Proof.
  intros Hnd Hab. unfold _extract_weights_impl.
  assert (Ha : map (fun '(match_name, (subgraph_a, subgraph_b)) =>
                      (base_op_node subgraph_a, match_name)) matched_subgraph_pairs
               = map (fun kv => ((fun v : NSSubgraph * NSSubgraph =>
                                    base_op_node v.1) kv.2, kv.1))
                   matched_subgraph_pairs).
  { apply map_ext. by intros [k [a b]]. }
  assert (Hb : map (fun '(match_name, (subgraph_a, subgraph_b)) =>
                      (base_op_node subgraph_b, match_name)) matched_subgraph_pairs
               = map (fun kv => ((fun v : NSSubgraph * NSSubgraph =>
                                    base_op_node v.2) kv.2, kv.1))
                   matched_subgraph_pairs).
  { apply map_ext. by intros [k [a b]]. }
  rewrite Ha, Hb. clear Ha Hb.
  match goal with
  | |- (exists _, ?ra ≫= _ = _ /\ _) => destruct ra as [r1|e] eqn:H1
  end.
  2:{ apply extract_weights_raises in H1 as (_ & n & r & _ & _ & b & [=] & _). }
  cbn [mbind result_bind].
  match goal with
  | |- (exists _, ?rb ≫= _ = _ /\ _) => destruct rb as [r2|e] eqn:H2
  end.
  2:{ apply extract_weights_raises in H2 as (_ & n & r & _ & _ & Hbad).
      apply (extract_weights_bad _ _ _ _ _ _ H1) in Hbad as (b & [=] & _). }
  cbn [mbind result_bind]. exists r2. split; [done|].
  intros match_name subgraph_a subgraph_b Hin.
  rewrite !(extract_weights_groups _ _ _ _ _ _ _ _ H2).
  rewrite !(extract_weights_groups _ _ _ _ _ _ _ _ H1).
  rewrite (weights_for_unique gm_a match_name (fun v => base_op_node v.1) _ _ Hnd Hin).
  rewrite (weights_for_unique gm_b match_name (fun v => base_op_node v.2) _ _ Hnd Hin).
  simpl.
  split.
  - rewrite decide_False by (intros [_ ?]; done).
    rewrite decide_True by done.
    by destruct (extract_weight_from_node (base_op_node subgraph_a) gm_a).
  - rewrite decide_True by done.
    rewrite decide_False by (intros [_ ?]; done).
    by destruct (extract_weight_from_node (base_op_node subgraph_b) gm_b).
Qed.

End WeightFacts.

(** ** Conversion of a swept model *)

Section ConvertFacts.

Context `{cenv : ConvertEnv}.

Lemma convert_node_Ok (node : Node.t) (model model' : GraphModule Submodule) :
  convert_node node model = Ok model' ->
  graph model' = graph model
  /\ dom (attrs model') = dom (attrs model)
  /\ (is_wrapper_node node -> is_Some (attrs model !! Node.name node))
  /\ (forall name, (is_wrapper_node node -> Node.name node <> name) ->
                   attrs model' !! name = attrs model !! name).
Proof.
  unfold convert_node, is_wrapper_node.
  destruct (String.prefix _ _).
  - destruct (attrs model !! Node.name node) as [orig_mod|] eqn:E; [|discriminate].
    intros H. apply bind_Ok in H as (c & _ & [= <-]). simpl.
    split; [done|]. split; [|split].
    + rewrite dom_insert_L. apply elem_of_dom_2 in E. set_solver.
    + eauto.
    + intros name Hn. apply lookup_insert_ne. by apply Hn.
  - intros [= <-]. repeat split; try done.
Qed.

Lemma convert_nodes_Ok (nodes : list Node.t) (model model' : GraphModule Submodule) :
  for_each convert_node nodes model = Ok model' ->
  graph model' = graph model
  /\ dom (attrs model') = dom (attrs model)
  /\ (forall node, node ∈ nodes -> is_wrapper_node node ->
                   is_Some (attrs model !! Node.name node))
  /\ (forall name,
        (forall node, node ∈ nodes -> is_wrapper_node node -> Node.name node <> name) ->
        attrs model' !! name = attrs model !! name).
Proof.
  revert model. induction nodes as [|n nodes IH]; intros model H.
  - injection H as <-. repeat split; try done. intros ? Hin. inversion Hin.
  - cbn [for_each] in H. apply bind_Ok in H as (m1 & H1 & H).
    apply convert_node_Ok in H1 as (Hg1 & Hd1 & Hs1 & Hl1).
    apply IH in H as (Hg & Hd & Hs & Hl).
    split; [congruence|]. split; [congruence|]. split.
    + intros node Hin Hw. apply elem_of_cons in Hin as [->|Hin]; [by apply Hs1|].
      specialize (Hs _ Hin Hw). apply elem_of_dom in Hs. rewrite Hd1 in Hs.
      by apply elem_of_dom.
    + intros name Hn. rewrite Hl, Hl1; [done| |].
      * intros Hw. apply Hn; [left|done].
      * intros node Hin. apply Hn. by right.
Qed.

Lemma convert_nodes_total (nodes : list Node.t) (model : GraphModule Submodule) :
  (forall a, exists a', convert_fx a = Ok a') ->
  (forall node, node ∈ nodes -> is_wrapper_node node ->
                is_Some (attrs model !! Node.name node)) ->
  exists model', for_each convert_node nodes model = Ok model'.
Proof.
  intros Htot. revert model. induction nodes as [|n nodes IH]; intros model Hs.
  - by eexists.
  - cbn [for_each].
    assert (exists m1, convert_node n model = Ok m1) as [m1 H1].
    { unfold convert_node.
      destruct (String.prefix _ _) eqn:Hp; [|by eexists].
      destruct (Hs n) as [orig_mod ->]; [left|done|].
      destruct (Htot orig_mod) as [c ->]. by eexists. }
    rewrite H1. cbn [mbind result_bind]. apply IH.
    intros node Hin Hw. assert (Hin' : node ∈ n :: nodes) by (by right). specialize (Hs node Hin' Hw).
    apply convert_node_Ok in H1 as (_ & Hd1 & _).
    apply elem_of_dom. rewrite Hd1. by apply elem_of_dom.
Qed.

Lemma convert_nodes_raise (nodes : list Node.t) (model : GraphModule Submodule)
    (e : exn) :
  (forall a, exists a', convert_fx a = Ok a') ->
  for_each convert_node nodes model = Raise e -> e = AttributeError.
Proof.
  intros Htot. revert model. induction nodes as [|n nodes IH]; intros model H.
  - discriminate.
  - cbn [for_each] in H. apply bind_Raise in H as [H|(m1 & _ & H)]; [|eauto].
    unfold convert_node in H.
    destruct (String.prefix _ _); [|discriminate].
    destruct (attrs model !! Node.name n) as [orig_mod|]; [|congruence].
    destruct (Htot orig_mod) as [c Hc]. rewrite Hc in H. discriminate.
Qed.

(** X14.  A conversion that returns leaves the graph and the attribute
    names as they were, every logger attribute of the result is enabled,
    and an attribute that no wrapper node of the graph is named after is
    the one the model had, with its loggers switched on: a logger keeps
    its captures and its metadata. *)
Theorem convert_enables_loggers (model model' : GraphModule Submodule) :
  convert_n_shadows_model model = Ok model' ->
  graph model' = graph model
  /\ dom (attrs model') = dom (attrs model)
  /\ (forall name child,
        attrs model' !! name = Some (AttrLogger child) -> enabled child = true)
  /\ (forall name,
        (forall node, node ∈ graph model -> is_wrapper_node node ->
                      Node.name node <> name) ->
        attrs model' !! name = enable_loggers <$> attrs model !! name)
  /\ (forall name child,
        (forall node, node ∈ graph model -> is_wrapper_node node ->
                      Node.name node <> name) ->
        attrs model !! name = Some (AttrLogger child) ->
        attrs model' !! name = Some (AttrLogger (set_enabled true child))).
Proof.
  unfold convert_n_shadows_model. intros H.
  apply bind_Ok in H as (m1 & H1 & [= <-]). simpl.
  apply convert_nodes_Ok in H1 as (Hg & Hd & _ & Hl).
  split; [done|]. split; [by rewrite dom_fmap_L|]. split; [|split].
  - intros name child Hc. rewrite lookup_fmap in Hc.
    destruct (attrs m1 !! name) as [[l|w|]|]; simpl in Hc; try discriminate.
    by injection Hc as <-.
  - intros name Hn. rewrite lookup_fmap. by rewrite Hl.
  - intros name child Hn Hc. rewrite lookup_fmap, Hl by done. by rewrite Hc.
Qed.

(** X15.  When the converter itself does not fail, the conversion returns
    exactly when every wrapper node of the graph (a node whose name starts
    with the wrapper prefix) is the name of an attribute of the model;
    otherwise it fails with [AttributeError]. *)
Theorem convert_succeeds_iff (model : GraphModule Submodule) :
  (forall a, exists a', convert_fx a = Ok a') ->
  ((exists model', convert_n_shadows_model model = Ok model')
   <-> forall node, node ∈ graph model -> is_wrapper_node node ->
                    is_Some (attrs model !! Node.name node))
  /\ (forall e, convert_n_shadows_model model = Raise e -> e = AttributeError).
Proof.
  intros Htot. unfold convert_n_shadows_model. split; [split|].
  - intros [model' H]. apply bind_Ok in H as (m1 & H1 & _).
    by apply convert_nodes_Ok in H1 as (_ & _ & Hs & _).
  - intros Hs. destruct (convert_nodes_total _ _ Htot Hs) as [m1 ->]. by eexists.
  - intros e H. apply bind_Raise in H as [H|(m1 & _ & [=])].
    by apply convert_nodes_raise in H.
Qed.

End ConvertFacts.

Lemma convert_enables_loggers_witness :
  exists model',
    @convert_n_shadows_model example_env example_convert_env (mt_of linear_relu_swept)
    = Ok model'
    /\ attrs model' !! "shadow_0_0"
       = Some (AttrLogger
                 (set_enabled true
                    (logger_at "subgraph_0_0" "subgraph_0_0" "node_output" 0 0 false))).
Proof.
  assert (Hrun : exists model',
             @convert_n_shadows_model example_env example_convert_env
               (mt_of linear_relu_swept) = Ok model').
  { eexists. vm_compute. reflexivity. }
  destruct Hrun as [model' Hrun]. exists model'. split; [exact Hrun|].
  apply (@convert_enables_loggers example_env example_convert_env
           (mt_of linear_relu_swept) model' Hrun).
  - intros node Hin. unfold is_wrapper_node.
    apply list_elem_of_In in Hin. simpl in Hin.
    destruct Hin as [<-|[<-|[<-|[<-|[<-|[]]]]]]; vm_compute; intros Hw Heq;
      discriminate.
  - reflexivity.
Defined.

(** ** More on the sweep builder *)

Section SweepMore.

Context `{env : SweepEnv}.



Lemma insert_after_sublist (anchor : string) (new_node : Node.t)
    (nodes : list Node.t) :
  nodes `sublist_of` insert_after anchor new_node nodes.
Proof.
  induction nodes as [|n nodes IH]; simpl.
  - by apply sublist_cons.
  - destruct (decide (Node.name n = anchor)).
    + by apply sublist_skip, sublist_cons.
    + by apply sublist_skip.
Qed.

Lemma insert_before_sublist (anchor : string) (new_node : Node.t)
    (nodes : list Node.t) :
  nodes `sublist_of` insert_before anchor new_node nodes.
Proof.
  induction nodes as [|n nodes IH]; simpl.
  - by apply sublist_cons.
  - destruct (decide (Node.name n = anchor)).
    + by apply sublist_cons.
    + by apply sublist_skip.
Qed.

Lemma shadow_candidate_sublist (subgraph_idx : nat) (first_node last_node : Node.t)
    (example : example_inputs) (cfgs : list (gmap string (option QConfig)))
    (j : nat) (mt mt' : GraphModule Submodule) :
  shadow_candidate subgraph_idx first_node last_node example cfgs j mt = Ok mt' ->
  graph mt `sublist_of` graph mt'.
Proof.
  intros H. apply shadow_candidate_inv in H
    as [(_ & _ & ->)|[(_ & _ & ->)|(_ & c & q & _ & _ & _ & ->)]]; simpl.
  - apply insert_after_sublist.
  - done.
  - apply insert_before_sublist.
Qed.

Lemma candidates_loop_sublist (subgraph_idx : nat) (first_node last_node : Node.t)
    (example : example_inputs) (cfgs : list (gmap string (option QConfig)))
    (js : list nat) (mt mt' : GraphModule Submodule) :
  for_each (shadow_candidate subgraph_idx first_node last_node example cfgs) js mt
  = Ok mt' ->
  graph mt `sublist_of` graph mt'.
Proof.
  revert mt. induction js as [|j js IH]; intros mt H.
  - by injection H as <-.
  - cbn [for_each] in H. apply bind_Ok in H as (m1 & H1 & H).
    etrans; [by eapply shadow_candidate_sublist|by apply IH].
Qed.

(** What a subgraph that returns has done to the state. *)
Lemma shadow_subgraph_inv (cfgs : list (gmap string (option QConfig)))
    (subgraph_idx : nat) (nodes : list subgraph_entry) (st st' : sweep_state) :
  shadow_subgraph cfgs subgraph_idx nodes st = Ok st' ->
  st' = st
  \/ (exists first_node, st' = print (skip_message first_node) st)
  \/ (exists first_node last_node example,
        head nodes = Some (EntryNode first_node)
        /\ last nodes = Some (EntryNode last_node)
        /\ example_inputs_of (get_normalized_nth_input first_node (mt_of st) 0)
           = Ok (Some example)
        /\ stdout st' = stdout st
        /\ for_each (shadow_candidate subgraph_idx first_node last_node example cfgs)
             (seq 0 (length cfgs + 1)) (mt_of st)
           = Ok (mt_of st')).
Proof.
  unfold shadow_subgraph.
  destruct (existsb _ nodes); [intros [= <-]; by left|].
  intros H.
  apply bind_Ok in H as (first_node & Hf & H).
  apply bind_Ok in H as (last_node & Hl & H).
  apply bind_Ok in H as (example & He & H).
  destruct example as [example|].
  - apply bind_Ok in H as (mt & Hmt & [= <-]). right; right.
    exists first_node, last_node, example. simpl.
    unfold entry_node in Hf, Hl.
    destruct (head nodes) as [[?|]|]; try discriminate.
    destruct (last nodes) as [[?|]|]; try discriminate.
    injection Hf as ->. injection Hl as ->. done.
  - injection H as <-. right; left. by exists first_node.
Qed.

Lemma shadow_subgraphs_ind (P : sweep_state -> sweep_state -> Prop)
    (cfgs : list (gmap string (option QConfig))) :
  (forall st, P st st) ->
  (forall st1 st2 st3, P st1 st2 -> P st2 st3 -> P st1 st3) ->
  (forall subgraph_idx nodes st st',
      shadow_subgraph cfgs subgraph_idx nodes st = Ok st' -> P st st') ->
  forall subgraphs_dedup subgraph_idx st st',
    shadow_subgraphs cfgs subgraphs_dedup subgraph_idx st = Ok st' -> P st st'.
Proof.
  intros Hrefl Htrans Hstep subgraphs_dedup.
  induction subgraphs_dedup as [|[match_name nodes] rest IH];
    intros subgraph_idx st st' H.
  - injection H as <-. apply Hrefl.
  - cbn [shadow_subgraphs] in H. apply bind_Ok in H as (st1 & H1 & H).
    eapply Htrans; [by eapply Hstep|by eapply IH].
Qed.

(** X16.  The sweep keeps every node of the traced graph, in the order it
    had: the graph it returns is the original graph with nodes inserted. *)
Theorem prepare_keeps_original_nodes (mt : GraphModule Submodule)
    (subgraphs_dedup : dict (list subgraph_entry))
    (cfgs : list (gmap string (option QConfig))) (st' : sweep_state) :
  prepare_n_shadows_model mt subgraphs_dedup cfgs = Ok st' ->
  graph mt `sublist_of` graph (mt_of st').
Proof.
  unfold prepare_n_shadows_model. intros H.
  refine (shadow_subgraphs_ind
            (fun st st' => graph (mt_of st) `sublist_of` graph (mt_of st')) cfgs
            _ _ _ _ _ _ _ H); [done|by intros; etrans|].
  intros subgraph_idx nodes st st1 H1.
  apply shadow_subgraph_inv in H1
    as [->|[(first_node & ->)|(f & l & ex & _ & _ & _ & _ & Hloop)]]; try done.
  by eapply candidates_loop_sublist.
Qed.


Lemma candidates_loop_kinds (subgraph_idx : nat) (first_node last_node : Node.t)
    (example : example_inputs) (cfgs : list (gmap string (option QConfig)))
    (js : list nat) (mt mt' : GraphModule Submodule) :
  for_each (shadow_candidate subgraph_idx first_node last_node example cfgs) js mt
  = Ok mt' ->
  forall name v,
    attrs mt' !! name = Some v ->
    attrs mt !! name = Some v \/ is_branch_attribute v.
Proof.
  revert mt. induction js as [|j js IH]; intros mt H name v Hv.
  - injection H as <-. by left.
  - cbn [for_each] in H. apply bind_Ok in H as (m1 & H1 & H).
    destruct (IH _ H _ _ Hv) as [Hv1|?]; [|by right].
    apply shadow_candidate_inv in H1
      as [(_ & _ & ->)|[(_ & _ & ->)|(_ & c & q & _ & _ & _ & ->)]];
      simpl in Hv1; [|by left|].
    + apply lookup_insert_Some in Hv1 as [[_ <-]|[_ ?]]; [right|by left].
      left. by eexists.
    + apply lookup_insert_Some in Hv1 as [[_ <-]|[_ ?]]; [right|by left].
      right. by eexists.
Qed.

Lemma shadow_subgraphs_dom (cfgs : list (gmap string (option QConfig)))
    (subgraphs_dedup : dict (list subgraph_entry)) (subgraph_idx : nat)
    (st st' : sweep_state) :
  shadow_subgraphs cfgs subgraphs_dedup subgraph_idx st = Ok st' ->
  dom (attrs (mt_of st'))
  ⊆ dom (attrs (mt_of st))
    ∪ list_to_set (concat ((fun i => derived_names_of i (length cfgs))
                             <$> seq subgraph_idx (length subgraphs_dedup))).
Proof.
  revert subgraph_idx st.
  induction subgraphs_dedup as [|[match_name nodes] rest IH];
    intros subgraph_idx st H.
  - injection H as <-. set_solver.
  - cbn [shadow_subgraphs] in H. apply bind_Ok in H as (st1 & H1 & H).
    apply shadow_subgraph_attrs in H1 as [_ H1]. apply IH in H.
    cbn [length seq]. rewrite fmap_cons. cbn [concat].
    rewrite list_to_set_app_L. set_solver.
Qed.

(** X18.  The attributes of the swept model are those of the traced model
    and attributes under names derived for a (subgraph, candidate) pair;
    each attribute that was not there before is a logger or a prepared
    wrapper. *)
Theorem prepare_adds_only_branches (mt : GraphModule Submodule)
    (subgraphs_dedup : dict (list subgraph_entry))
    (cfgs : list (gmap string (option QConfig))) (st' : sweep_state) :
  prepare_n_shadows_model mt subgraphs_dedup cfgs = Ok st' ->
  dom (attrs (mt_of st'))
  ⊆ dom (attrs mt)
    ∪ list_to_set (derived_names (length subgraphs_dedup) (length cfgs))
  /\ forall name v,
       attrs (mt_of st') !! name = Some v ->
       attrs mt !! name = Some v \/ is_branch_attribute v.
Proof.
  unfold prepare_n_shadows_model. intros H. split.
  - apply shadow_subgraphs_dom in H. exact H.
  - refine (shadow_subgraphs_ind
              (fun st st' =>
                 forall name v,
                   attrs (mt_of st') !! name = Some v ->
                   attrs (mt_of st) !! name = Some v \/ is_branch_attribute v) cfgs
              _ _ _ _ _ _ _ H); [by left| |].
    + intros st1 st2 st3 H12 H23 name v Hv.
      destruct (H23 _ _ Hv) as [Hv2|?]; [|by right]. by apply H12.
    + intros subgraph_idx nodes st st1 H1 name v Hv.
      apply shadow_subgraph_inv in H1
        as [->|[(first_node & ->)|(f & l & ex & _ & _ & _ & _ & Hloop)]];
        [by left|by left|].
      by eapply candidates_loop_kinds.
Qed.

Lemma shadow_subgraphs_stdout (cfgs : list (gmap string (option QConfig)))
    (subgraphs_dedup : dict (list subgraph_entry)) (subgraph_idx : nat)
    (st st' : sweep_state) :
  shadow_subgraphs cfgs subgraphs_dedup subgraph_idx st = Ok st' ->
  exists lines,
    stdout st' = stdout st ++ lines
    /\ (length lines <= length subgraphs_dedup)%nat
    /\ Forall (fun line => exists first_node, line = skip_message first_node) lines.
Proof.
  revert subgraph_idx st.
  induction subgraphs_dedup as [|[match_name nodes] rest IH];
    intros subgraph_idx st H.
  - injection H as <-. exists []. rewrite app_nil_r. repeat split; [done|constructor].
  - cbn [shadow_subgraphs] in H. apply bind_Ok in H as (st1 & H1 & H).
    apply IH in H as (lines & Hl & Hlen & Hall).
    apply shadow_subgraph_inv in H1
      as [->|[(first_node & ->)|(f & l & ex & _ & _ & _ & Hout & _)]].
    + exists lines. split; [done|]. split; [simpl; lia|done].
    + exists (skip_message first_node :: lines). simpl in *.
      rewrite Hl, <- app_assoc. split; [done|]. split; [simpl; lia|].
      constructor; [by eexists|done].
    + exists lines. rewrite Hl, Hout. split; [done|]. split; [simpl; lia|done].
Qed.

(** X19.  The sweep prints nothing but the diagnostic of a skipped
    subgraph, and at most one line for each subgraph. *)
Theorem prepare_prints_only_skips (mt : GraphModule Submodule)
    (subgraphs_dedup : dict (list subgraph_entry))
    (cfgs : list (gmap string (option QConfig))) (st' : sweep_state) :
  prepare_n_shadows_model mt subgraphs_dedup cfgs = Ok st' ->
  (length (stdout st') <= length subgraphs_dedup)%nat
  /\ Forall (fun line => exists first_node, line = skip_message first_node)
       (stdout st').
Proof.
  unfold prepare_n_shadows_model. intros H.
  apply shadow_subgraphs_stdout in H as (lines & Hl & Hlen & Hall).
  simpl in Hl. by rewrite Hl.
Qed.

Lemma candidates_loop_raises (subgraph_idx : nat) (first_node last_node : Node.t)
    (example : example_inputs) (cfgs : list (gmap string (option QConfig)))
    (js : list nat) (mt : GraphModule Submodule) (e : exn) :
  for_each (shadow_candidate subgraph_idx first_node last_node example cfgs) js mt
  = Raise e ->
  e = AssertionError
  \/ (e = KeyError
      /\ exists j c, j ∈ js /\ j <> 0%nat /\ cfgs !! (j - 1)%nat = Some c
                     /\ c !! Node.name first_node = None)
  \/ (e = IndexError
      /\ exists j, j ∈ js /\ j <> 0%nat /\ cfgs !! (j - 1)%nat = None).
Proof.
  revert mt. induction js as [|j js IH]; intros mt H; [discriminate|].
  cbn [for_each] in H. apply bind_Raise in H as [H|(m1 & _ & H)].
  - unfold shadow_candidate in H. destruct j as [|j].
    + simpl in H. destruct (hasattr mt _); simpl in H; [|discriminate].
      left. congruence.
    + change (S j =? 0)%nat with false in H. cbv iota in H.
      destruct (cfgs !! (S j - 1)%nat) as [c|] eqn:Ec.
      * destruct (c !! Node.name first_node) as [[q|]|] eqn:Eq.
        -- destruct (hasattr mt _); simpl in H.
           ++ left. congruence.
           ++ destruct (wrapper_call_arguments first_node). discriminate.
        -- discriminate.
        -- right; left. split; [congruence|]. exists (S j), c.
           repeat split; [left|done|done|done].
      * right; right. split; [congruence|]. exists (S j).
        repeat split; [left|done|done].
  - apply IH in H as [?|[(-> & j' & c & Hin & ?)|(-> & j' & Hin & ?)]].
    + by left.
    + right; left. split; [done|]. exists j', c. split; [by right|done].
    + right; right. split; [done|]. exists j'. split; [by right|done].
Qed.

Lemma candidates_loop_configs (subgraph_idx : nat) (first_node last_node : Node.t)
    (example : example_inputs) (cfgs : list (gmap string (option QConfig)))
    (js : list nat) (mt mt' : GraphModule Submodule) :
  for_each (shadow_candidate subgraph_idx first_node last_node example cfgs) js mt
  = Ok mt' ->
  forall j, j ∈ js -> j <> 0%nat ->
    exists c, cfgs !! (j - 1)%nat = Some c /\ is_Some (c !! Node.name first_node).
Proof.
  revert mt. induction js as [|j0 js IH]; intros mt H j Hin Hj; [inversion Hin|].
  cbn [for_each] in H. apply bind_Ok in H as (m1 & H1 & H).
  apply elem_of_cons in Hin as [->|Hin]; [|by eapply IH].
  apply shadow_candidate_inv in H1
    as [(-> & _)|[(_ & (c & Hc & Hq) & _)|(_ & c & q & Hc & Hq & _)]];
    [done|exists c; split; [done|by eexists]..].
Qed.

(** X20.  A subgraph of nodes with a usable example input, whose derived
    names are distinct and not yet taken, is processed without failure
    exactly when every candidate mapping has an entry (a config or null)
    for its first node; a mapping without one makes the build fail with
    [KeyError]. *)
Theorem shadow_subgraph_needs_every_config
    (cfgs : list (gmap string (option QConfig))) (subgraph_idx : nat)
    (nodes_in_this_subgraph : list subgraph_entry) (first_node : Node.t)
    (example : example_inputs) (st : sweep_state) :
  Forall (fun e => entry_is_Node e = true) nodes_in_this_subgraph ->
  head nodes_in_this_subgraph = Some (EntryNode first_node) ->
  example_inputs_of (get_normalized_nth_input first_node (mt_of st) 0)
  = Ok (Some example) ->
  NoDup (derived_names_of subgraph_idx (length cfgs)) ->
  (forall name, name ∈ derived_names_of subgraph_idx (length cfgs) ->
                name ∉ dom (attrs (mt_of st))) ->
  ((exists st', shadow_subgraph cfgs subgraph_idx nodes_in_this_subgraph st = Ok st')
   <-> Forall (fun c => is_Some (c !! Node.name first_node)) cfgs)
  /\ (~ Forall (fun c => is_Some (c !! Node.name first_node)) cfgs ->
      shadow_subgraph cfgs subgraph_idx nodes_in_this_subgraph st = Raise KeyError).
Proof.
  intros Hall Hhead Hex Hnd Hfresh.
  destruct (entries_last_node nodes_in_this_subgraph Hall) as [last_node Hlast].
  { intros ->. discriminate. }
  assert (Hrun : shadow_subgraph cfgs subgraph_idx nodes_in_this_subgraph st
                 = (mt ← for_each
                           (shadow_candidate subgraph_idx first_node last_node example
                              cfgs)
                           (seq 0 (length cfgs + 1)) (mt_of st);
                    Ok {| mt_of := mt; stdout := stdout st |})).
  { unfold shadow_subgraph. rewrite (entries_all_nodes _ Hall), Hhead, Hlast.
    simpl. by rewrite Hex. }
  rewrite Hrun.
  set (loop := for_each _ _ _).
  assert (Hok : forall mt', loop = Ok mt' ->
                  Forall (fun c => is_Some (c !! Node.name first_node)) cfgs).
  { intros mt' Hloop. apply Forall_lookup. intros i c Hc.
    destruct (candidates_loop_configs _ _ _ _ _ _ _ _ Hloop (S i)) as (c' & Hc' & Hs).
    - apply elem_of_seq. apply lookup_lt_Some in Hc. lia.
    - done.
    - replace (S i - 1)%nat with i in Hc' by lia. congruence. }
  assert (Hraise : forall e, loop = Raise e ->
                     e = KeyError
                     /\ ~ Forall (fun c => is_Some (c !! Node.name first_node)) cfgs).
  { intros e Hloop.
    pose proof (candidates_loop_no_assert subgraph_idx first_node last_node example
                  cfgs (seq 0 (length cfgs + 1)) (mt_of st) Hnd Hfresh) as Hna.
    pose proof Hloop as Hkind.
    apply candidates_loop_raises in Hkind
      as [->|[(-> & j & c & Hin & Hj & Hc & Hq)|(-> & j & Hin & Hj & Hc)]].
    - by destruct Hna.
    - split; [done|]. intros HF. rewrite Forall_lookup in HF.
      destruct (HF _ _ Hc) as [? ?]. congruence.
    - apply elem_of_seq in Hin. apply lookup_ge_None in Hc. lia. }
  destruct loop as [mt'|e] eqn:Hloop; simpl.
  - split; [|intros Hn; destruct Hn; by eapply Hok].
    split; [intros _; by eapply Hok|intros _; by eexists].
  - destruct (Hraise e eq_refl) as [-> Hn].
    split; [|done]. split; [intros [st' [=]]|done].
Qed.

End SweepMore.

(** ** Grouping the results of a sweep *)

Lemma length_str_split (sep : ascii) (s : string) :
  length (str_split sep s) = S (occurrences sep s).
Proof.
  unfold str_split. induction s as [|c s IH]; [done|]. simpl.
  destruct (str_split_pieces sep s) as [piece pieces]. simpl in IH.
  destruct (Ascii.eqb c sep); simpl; lia.
Qed.





Lemma str_split_three_iff (s : string) :
  occurrences "_" s = 2%nat <-> exists a b c, str_split "_" s = [a; b; c].
Proof.
  pose proof (length_str_split "_" s) as Hlen. split.
  - intros Hocc. rewrite Hocc in Hlen.
    destruct (str_split "_" s) as [|a [|b [|c [|d l]]]]; try discriminate.
    by exists a, b, c.
  - intros (a & b & c & Hs). rewrite Hs in Hlen. simpl in Hlen. lia.
Qed.

Lemma group_subgraph_char (k : string) (records : list Res.t)
    (acc : dict (dict Grouped.t)) :
  group_subgraph (k, records) acc
  = match str_split "_" k, records with
    | [a; b; c], first :: _ =>
        Returns (dict_set (a ++ "_" ++ b)
                   (dict_set c (summary_of first)
                      (default [] (dict_get (a ++ "_" ++ b) acc))) acc)
    | [a; b; c], [] => Raises IndexError
    | _, _ => RaisesOther "ValueError"
    end.
Proof.
  unfold group_subgraph.
  destruct (str_split "_" k) as [|a [|b [|c [|d l]]]]; try done;
    by destruct records.
Qed.




Lemma group_subgraphs_outcome (items : dict (list Res.t))
    (acc : dict (dict Grouped.t)) :
  match group_subgraphs items acc with
  | Returns _ =>
      Forall (fun item => occurrences "_" item.1 = 2%nat /\ item.2 <> []) items
  | Raises e =>
      e = IndexError
      /\ exists item, item ∈ items /\ occurrences "_" item.1 = 2%nat /\ item.2 = []
  | RaisesOther cls =>
      cls = "ValueError"
      /\ exists item, item ∈ items /\ occurrences "_" item.1 <> 2%nat
  end.
Proof.
  revert acc. induction items as [|[k records] rest IH]; intros acc.
  - simpl. constructor.
  - cbn [group_subgraphs]. rewrite group_subgraph_char.
    destruct (decide (occurrences "_" k = 2%nat)) as [Hk|Hk].
    + destruct (proj1 (str_split_three_iff k) Hk) as (a & b & c & ->).
      destruct records as [|first others].
      * cbn [mbind outcome_bind]. split; [done|]. exists (k, []). split; [left|done].
      * cbn [mbind outcome_bind]. specialize (IH (dict_set (a ++ "_" ++ b)
                          (dict_set c (summary_of first)
                             (default [] (dict_get (a ++ "_" ++ b) acc))) acc)).
        destruct (group_subgraphs rest _) as [g|e|cls].
        -- constructor; [done|exact IH].
        -- destruct IH as (-> & item & Hin & ?). split; [done|].
           exists item. split; [by right|done].
        -- destruct IH as (-> & item & Hin & ?). split; [done|].
           exists item. split; [by right|done].
    + assert (Hv : match str_split "_" k, records with
                   | [a; b; c], first :: _ =>
                       Returns (dict_set (a ++ "_" ++ b)
                                  (dict_set c (summary_of first)
                                     (default [] (dict_get (a ++ "_" ++ b) acc))) acc)
                   | [a; b; c], [] => Raises IndexError
                   | _, _ => RaisesOther "ValueError"
                   end = RaisesOther "ValueError").
      { destruct (str_split "_" k) as [|a [|b [|c [|d l]]]] eqn:Hs;
          try (by destruct records).
        destruct Hk. apply str_split_three_iff. eauto. }
      rewrite Hv. cbn [mbind outcome_bind]. split; [done|].
      exists (k, records). split; [left|done].
Qed.

(** X21.  The grouping returns exactly when the results have an entry
    ['model'] with an entry ['node_output'] in which every name contains
    exactly two underscores and every record list is non-empty.  A missing
    entry raises [KeyError], an empty record list [IndexError], and a name
    with another number of underscores [ValueError]. *)
Theorem group_results_succeeds_iff (results : NSResultsType) :
  ((exists grouped, group_results_by_subgraph results = Returns grouped)
   <-> exists items,
         results_by_model "model" "node_output" results = Some items
         /\ Forall (fun item => occurrences "_" item.1 = 2%nat /\ item.2 <> []) items)
  /\ (results_by_model "model" "node_output" results = None ->
      group_results_by_subgraph results = Raises KeyError)
  /\ (forall e items,
        results_by_model "model" "node_output" results = Some items ->
        group_results_by_subgraph results = Raises e ->
        e = IndexError /\ exists item, item ∈ items /\ item.2 = [])
  /\ (forall cls,
        group_results_by_subgraph results = RaisesOther cls ->
        cls = "ValueError"
        /\ exists items item,
          results_by_model "model" "node_output" results = Some items
          /\ item ∈ items /\ occurrences "_" item.1 <> 2%nat).
Proof.
  unfold group_results_by_subgraph, results_by_model.
  destruct (dict_get "model" results) as [by_type|]; simpl.
  2:{ split; [split|split; [done|split; [done|done]]].
      - intros [? [=]].
      - intros (? & [=] & _). }
  destruct (dict_get "node_output" by_type) as [items|]; simpl.
  2:{ split; [split|split; [done|split; [done|done]]].
      - intros [? [=]].
      - intros (? & [=] & _). }
  pose proof (group_subgraphs_outcome items []) as Hout.
  destruct (group_subgraphs items []) as [g|e|cls].
  - split; [split|split; [done|split; [done|done]]].
    + intros _. by exists items.
    + intros _. by eexists.
  - destruct Hout as (-> & item & Hin & Hk & Hr).
    split; [split|split; [done|split; [|done]]].
    + intros [? [=]].
    + intros (items' & [= <-] & HF). rewrite Forall_forall in HF.
      destruct (HF _ Hin) as [_ ?]. done.
    + intros e items' [= <-] [= <-]. split; [done|]. by exists item.
  - destruct Hout as (-> & item & Hin & Hk).
    split; [split|split; [done|split; [done|]]].
    + intros [? [=]].
    + intros (items' & [= <-] & HF). rewrite Forall_forall in HF.
      destruct (HF _ Hin) as [? _]. done.
    + intros cls [= <-]. split; [done|]. by exists items, item.
Qed.


Lemma dict_get_None_keys {V : Type} (k : string) (d : dict V) :
  k ∉ d.*1 -> dict_get k d = None.
Proof.
  induction d as [|[k' v] d IH]; [done|]. intros Hn.
  rewrite fmap_cons in Hn. apply not_elem_of_cons in Hn as [Hk Hn]. simpl in *.
  rewrite decide_False by done. by apply IH.
Qed.

Lemma dict_set_fresh {V : Type} (k : string) (v : V) (d : dict V) :
  dict_get k d = None -> dict_set k v d = d ++ [(k, v)].
Proof.
  induction d as [|[k' v'] d IH]; [done|]. simpl.
  destruct (decide (k = k')); [done|]. intros H. by rewrite IH.
Qed.



(** ** Comparing the candidates of a sweep with their baseline *)

Lemma outcome_bind_Returns {A B : Type} (m : outcome A) (f : A -> outcome B) (b : B) :
  m ≫= f = Returns b -> exists a, m = Returns a /\ f a = Returns b.
Proof. destruct m; simpl; [eauto|discriminate..]. Qed.

Lemma dict_get_NoDup {V : Type} (k : string) (v : V) (d : dict V) :
  NoDup d.*1 -> (k, v) ∈ d -> dict_get k d = Some v.
Proof.
  induction d as [|[k' v'] d IH]; intros Hnd Hin; [inversion Hin|].
  rewrite fmap_cons in Hnd. apply NoDup_cons in Hnd as [Hk Hnd]. simpl in *.
  apply elem_of_cons in Hin as [[= <- <-]|Hin].
  - by rewrite decide_True.
  - rewrite decide_False; [by apply IH|].
    intros ->. apply Hk. apply list_elem_of_fmap. by exists (k', v).
Qed.

Section ResultsComparisonFacts.

Variable comparison_fn : value -> value -> value.
Variable comparison_fn_name : string.
Variable torch_stack : list value -> outcome value.
Variable torch_mean : value -> outcome value.

#[local] Abbreviation candidate_step :=
  (compare_candidate comparison_fn comparison_fn_name torch_stack torch_mean).
#[local] Abbreviation subgraph_step :=
  (compare_subgraph comparison_fn comparison_fn_name torch_stack torch_mean).

Lemma compare_candidate_unfold (baseline_values : list value) (k : string)
    (r : Grouped.t) (acc : dict Candidate.t) :
  candidate_step baseline_values (k, r) acc
  = if decide (k = "0") then Returns acc
    else
      raw ← torch_stack (zip_with comparison_fn baseline_values (Grouped.values r));
      mean ← torch_mean raw;
      Returns (dict_set k
                 {| Candidate.qconfig_str := Grouped.qconfig_str r;
                    Candidate.cmp_fn_name := comparison_fn_name;
                    Candidate.cmp_raw := raw;
                    Candidate.cmp_mean := mean |} acc).
Proof. unfold compare_candidate. by rewrite compare_values_zip. Qed.

Lemma compare_subgraph_unfold (name : string) (subgraph_results : dict Grouped.t)
    (acc : dict Compared.t) :
  subgraph_step (name, subgraph_results) acc
  = match dict_get "0" subgraph_results with
    | None => Raises KeyError
    | Some baseline =>
        candidates ← outcome_for_each (candidate_step (Grouped.values baseline))
                       subgraph_results [];
        Returns (dict_set name
                   {| Compared.ref_node_name := Grouped.ref_node_name baseline;
                      Compared.candidates := candidates |} acc)
    end.
Proof. reflexivity. Qed.

(** The candidates of a subgraph, as the loop leaves them. *)
Lemma compare_candidates_closed (baseline_values : list value)
    (items : dict Grouped.t) (acc candidates : dict Candidate.t) :
  NoDup items.*1 ->
  (forall k, k ∈ items.*1 -> k ∉ acc.*1) ->
  outcome_for_each (candidate_step baseline_values) items acc = Returns candidates ->
  exists new,
    candidates = acc ++ new
    /\ new.*1 = filter (fun k => k <> "0") items.*1
    /\ forall k r, (k, r) ∈ items -> k <> "0" ->
         exists raw mean,
           torch_stack (zip_with comparison_fn baseline_values (Grouped.values r))
           = Returns raw
           /\ torch_mean raw = Returns mean
           /\ (k, {| Candidate.qconfig_str := Grouped.qconfig_str r;
                     Candidate.cmp_fn_name := comparison_fn_name;
                     Candidate.cmp_raw := raw;
                     Candidate.cmp_mean := mean |}) ∈ new.
Proof.
  revert acc. induction items as [|[k0 r0] items IH]; intros acc Hnd Hfresh H.
  - injection H as <-. exists []. rewrite app_nil_r. repeat split; try done.
    intros k r Hin. inversion Hin.
  - rewrite fmap_cons in Hnd. apply NoDup_cons in Hnd as [Hk0 Hnd].
    cbn [outcome_for_each] in H. apply outcome_bind_Returns in H as (acc1 & H1 & H).
    rewrite compare_candidate_unfold in H1. rewrite fmap_cons. cbn [fst].
    destruct (decide (k0 = "0")) as [->|Hne].
    + injection H1 as <-.
      destruct (IH acc Hnd) as (new & -> & Hkeys & Hall); [|exact H|].
      { intros k Hin. apply Hfresh. rewrite fmap_cons. by right. }
      exists new. split; [done|]. split.
      * rewrite filter_cons_False by (intros ?; done). exact Hkeys.
      * intros k r Hin Hk. apply elem_of_cons in Hin as [[= -> ->]|Hin]; [done|].
        by apply Hall.
    + apply outcome_bind_Returns in H1 as (raw & Hraw & H1).
      apply outcome_bind_Returns in H1 as (mean & Hmean & [= <-]).
      rewrite dict_set_fresh in H.
      2:{ apply dict_get_None_keys, Hfresh. rewrite fmap_cons. left. }
      match type of H with
      | outcome_for_each _ _ ?a = _ =>
          destruct (IH a Hnd) as (new & -> & Hkeys & Hall); [|exact H|]
      end.
      { intros k Hin. rewrite fmap_app, not_elem_of_app. split.
        - apply Hfresh. rewrite fmap_cons. by right.
        - cbn. rewrite list_elem_of_singleton. intros ->. done. }
      eexists (_ :: new). split; [by rewrite <- app_assoc|]. split.
      * rewrite fmap_cons, filter_cons_True by done. cbn [fst]. by rewrite Hkeys.
      * intros k r Hin Hk. apply elem_of_cons in Hin as [[= -> ->]|Hin].
        -- exists raw, mean. split; [done|]. split; [done|]. left.
        -- destruct (Hall k r Hin Hk) as (raw' & mean' & ? & ? & ?).
           exists raw', mean'. split; [done|]. split; [done|]. by right.
Qed.

Lemma compare_candidates_total (baseline_values : list value)
    (items : dict Grouped.t) (acc : dict Candidate.t) :
  (forall l, exists t, torch_stack l = Returns t) ->
  (forall t, exists m, torch_mean t = Returns m) ->
  exists candidates,
    outcome_for_each (candidate_step baseline_values) items acc = Returns candidates.
Proof.
  intros Hs Hm. revert acc. induction items as [|[k0 r0] items IH]; intros acc.
  - by eexists.
  - cbn [outcome_for_each]. rewrite compare_candidate_unfold.
    destruct (decide (k0 = "0")); [apply IH|].
    destruct (Hs (zip_with comparison_fn baseline_values (Grouped.values r0)))
      as [raw ->].
    cbn [mbind outcome_bind]. destruct (Hm raw) as [mean ->].
    cbn [mbind outcome_bind]. apply IH.
Qed.

Lemma create_results_baselines (items : dict (dict Grouped.t))
    (acc results_comparison : dict Compared.t) :
  outcome_for_each subgraph_step items acc = Returns results_comparison ->
  Forall (fun item => is_Some (dict_get "0" item.2)) items.
Proof.
  revert acc. induction items as [|[name subgraph_results] items IH]; intros acc H.
  - constructor.
  - cbn [outcome_for_each] in H. apply outcome_bind_Returns in H as (acc1 & H1 & H).
    constructor; [|by eapply IH].
    rewrite compare_subgraph_unfold in H1. simpl.
    destruct (dict_get "0" subgraph_results); [by eexists|discriminate].
Qed.

Lemma create_results_total (items : dict (dict Grouped.t)) (acc : dict Compared.t) :
  (forall l, exists t, torch_stack l = Returns t) ->
  (forall t, exists m, torch_mean t = Returns m) ->
  match outcome_for_each subgraph_step items acc with
  | Returns _ => Forall (fun item => is_Some (dict_get "0" item.2)) items
  | Raises e =>
      e = KeyError /\ ~ Forall (fun item => is_Some (dict_get "0" item.2)) items
  | RaisesOther _ => False
  end.
Proof.
  intros Hs Hm. revert acc.
  induction items as [|[name subgraph_results] items IH]; intros acc.
  - constructor.
  - cbn [outcome_for_each]. rewrite compare_subgraph_unfold.
    destruct (dict_get "0" subgraph_results) as [baseline|] eqn:E.
    + destruct (compare_candidates_total (Grouped.values baseline) subgraph_results []
                  Hs Hm) as [candidates ->].
      cbn [mbind outcome_bind].
      match goal with |- context [outcome_for_each _ items ?a] => specialize (IH a) end.
      destruct (outcome_for_each _ items _) as [rc|e|cls].
      * constructor; [simpl; rewrite E; by eexists|done].
      * destruct IH as [-> Hn]. split; [done|]. intros HF. apply Hn.
        by apply Forall_cons in HF as [_ ?].
      * done.
    + cbn [mbind outcome_bind]. split; [done|]. intros HF.
      apply Forall_cons in HF as [[? HF] _]. simpl in HF. congruence.
Qed.

(** X24.  [create_results_comparison] needs the baseline: it can only
    return when every subgraph has a candidate ['0']; when the tensor
    library does not fail, it returns exactly then, and a subgraph without
    candidate ['0'] makes it fail with [KeyError]. *)
Theorem create_results_needs_baseline (results_grouped : dict (dict Grouped.t)) :
  (forall results_comparison,
      create_results_comparison comparison_fn comparison_fn_name torch_stack
        torch_mean results_grouped = Returns results_comparison ->
      Forall (fun item => is_Some (dict_get "0" item.2)) results_grouped)
  /\ ((forall l, exists t, torch_stack l = Returns t) ->
      (forall t, exists m, torch_mean t = Returns m) ->
      ((exists results_comparison,
           create_results_comparison comparison_fn comparison_fn_name torch_stack
             torch_mean results_grouped = Returns results_comparison)
       <-> Forall (fun item => is_Some (dict_get "0" item.2)) results_grouped)
      /\ (~ Forall (fun item => is_Some (dict_get "0" item.2)) results_grouped ->
          create_results_comparison comparison_fn comparison_fn_name torch_stack
            torch_mean results_grouped = Raises KeyError)).
Proof.
  unfold create_results_comparison. split.
  - intros rc H. by eapply create_results_baselines.
  - intros Hs Hm. pose proof (create_results_total results_grouped [] Hs Hm) as Hout.
    destruct (outcome_for_each _ results_grouped []) as [rc|e|cls].
    + split; [split; [done|by eexists]|]. intros Hn. by destruct Hn.
    + destruct Hout as [-> Hn]. split; [|done].
      split; [intros [? [=]]|intros HF; by destruct Hn].
    + done.
Qed.

Lemma create_results_closed (items : dict (dict Grouped.t))
    (acc results_comparison : dict Compared.t) :
  NoDup items.*1 ->
  (forall k, k ∈ items.*1 -> k ∉ acc.*1) ->
  Forall (fun item => NoDup item.2.*1) items ->
  outcome_for_each subgraph_step items acc = Returns results_comparison ->
  exists new,
    results_comparison = acc ++ new
    /\ new.*1 = items.*1
    /\ forall name subgraph_results,
         (name, subgraph_results) ∈ items ->
         exists baseline candidates,
           dict_get "0" subgraph_results = Some baseline
           /\ (name, {| Compared.ref_node_name := Grouped.ref_node_name baseline;
                        Compared.candidates := candidates |}) ∈ new
           /\ candidates.*1 = filter (fun k => k <> "0") subgraph_results.*1
           /\ forall k r, (k, r) ∈ subgraph_results -> k <> "0" ->
                exists raw mean,
                  torch_stack (zip_with comparison_fn (Grouped.values baseline)
                                 (Grouped.values r)) = Returns raw
                  /\ torch_mean raw = Returns mean
                  /\ (k, {| Candidate.qconfig_str := Grouped.qconfig_str r;
                            Candidate.cmp_fn_name := comparison_fn_name;
                            Candidate.cmp_raw := raw;
                            Candidate.cmp_mean := mean |}) ∈ candidates.
Proof.
  revert acc. induction items as [|[name0 sr0] items IH];
    intros acc Hnd Hfresh Hinner H.
  - injection H as <-. exists []. rewrite app_nil_r. repeat split; try done.
    intros ? ? Hin. inversion Hin.
  - rewrite fmap_cons in Hnd. apply NoDup_cons in Hnd as [Hk0 Hnd].
    apply Forall_cons in Hinner as [Hsr0 Hinner]. simpl in Hsr0.
    cbn [outcome_for_each] in H. apply outcome_bind_Returns in H as (acc1 & H1 & H).
    rewrite compare_subgraph_unfold in H1.
    destruct (dict_get "0" sr0) as [baseline|] eqn:E; [|discriminate].
    apply outcome_bind_Returns in H1 as (candidates & Hc & [= <-]).
    apply compare_candidates_closed in Hc as (newc & -> & Hkeys & Hall);
      [|done|intros k _ Hin; inversion Hin].
    rewrite dict_set_fresh in H.
    2:{ apply dict_get_None_keys, Hfresh. rewrite fmap_cons. left. }
    match type of H with
    | outcome_for_each _ _ ?a = _ =>
        destruct (IH a Hnd) as (new & -> & Hnew & Hrest); [|done|exact H|]
    end.
    { intros k Hin. rewrite fmap_app, not_elem_of_app. split.
      - apply Hfresh. rewrite fmap_cons. by right.
      - cbn. rewrite list_elem_of_singleton. intros ->. done. }
    eexists (_ :: new). split; [by rewrite <- app_assoc|]. split.
    + rewrite !fmap_cons. cbn [fst]. by rewrite Hnew.
    + intros name sr Hin. apply elem_of_cons in Hin as [[= -> ->]|Hin].
      * exists baseline, newc. split; [done|]. split; [left|]. by split.
      * destruct (Hrest name sr Hin) as (b & c & ? & ? & ?).
        exists b, c. split; [done|]. split; [by right|done].
Qed.

(** X25.  What [create_results_comparison] returns, for grouped results
    whose names are distinct at both levels: it has the subgraph names of
    its input in the same order; for each subgraph the reference node name
    is the baseline's, the candidates are those of the input in the same
    order without the baseline ['0'], and each candidate holds its config
    string, the name of the comparison, the stacked comparisons of the
    baseline values with its values, paired in capture order, and their
    mean. *)
Theorem create_results_compares_with_baseline
    (results_grouped : dict (dict Grouped.t)) (results_comparison : dict Compared.t) :
  NoDup results_grouped.*1 ->
  Forall (fun item => NoDup item.2.*1) results_grouped ->
  create_results_comparison comparison_fn comparison_fn_name torch_stack torch_mean
    results_grouped = Returns results_comparison ->
  results_comparison.*1 = results_grouped.*1
  /\ forall name subgraph_results,
       (name, subgraph_results) ∈ results_grouped ->
       exists baseline compared,
         dict_get "0" subgraph_results = Some baseline
         /\ dict_get name results_comparison = Some compared
         /\ Compared.ref_node_name compared = Grouped.ref_node_name baseline
         /\ (Compared.candidates compared).*1
            = filter (fun k => k <> "0") subgraph_results.*1
         /\ dict_get "0" (Compared.candidates compared) = None
         /\ forall k r, (k, r) ∈ subgraph_results -> k <> "0" ->
              exists raw mean,
                torch_stack (zip_with comparison_fn (Grouped.values baseline)
                               (Grouped.values r)) = Returns raw
                /\ torch_mean raw = Returns mean
                /\ dict_get k (Compared.candidates compared)
                   = Some {| Candidate.qconfig_str := Grouped.qconfig_str r;
                             Candidate.cmp_fn_name := comparison_fn_name;
                             Candidate.cmp_raw := raw;
                             Candidate.cmp_mean := mean |}.
Proof.
  unfold create_results_comparison. intros Hnd Hinner H.
  apply create_results_closed in H as (new & -> & Hkeys & Hall);
    [|done|intros k _ Hin; inversion Hin|done].
  simpl. split; [done|].
  intros name sr Hin. destruct (Hall name sr Hin) as (b & c & Hb & Hc & Hck & Hcs).
  assert (Hsr : NoDup sr.*1).
  { rewrite Forall_forall in Hinner. exact (Hinner _ Hin). }
  assert (Hcnd : NoDup c.*1).
  { rewrite Hck. by apply NoDup_filter. }
  exists b, {| Compared.ref_node_name := Grouped.ref_node_name b;
               Compared.candidates := c |}.
  split; [done|]. split.
  { apply dict_get_NoDup; [by rewrite Hkeys|done]. }
  split; [done|]. split; [done|]. split.
  { apply dict_get_None_keys. simpl. rewrite Hck.
    intros Hin0. apply list_elem_of_filter in Hin0 as [? _]. done. }
  intros k r Hkr Hk. destruct (Hcs k r Hkr Hk) as (raw & mean & ? & ? & ?).
  exists raw, mean. split; [done|]. split; [done|]. by apply dict_get_NoDup.
Qed.

End ResultsComparisonFacts.

(** ** The summary table *)

Section SummaryFacts.

Variable tabulate_found : bool.
Variable tabulate : list (list cell) -> list string -> string.
Variable minus_10000 : value.
Variable value_gt : value -> value -> bool.

#[local] Abbreviation row_of := (data_row_of minus_10000 value_gt).

Lemma data_row_of_cells (subgraph_name : string) (subgraph_data : Compared.t) :
  row_of (subgraph_name, subgraph_data)
  = [CellStr subgraph_name; CellStr (Compared.ref_node_name subgraph_data);
     CellBest
       (find_top_candidate value_gt
          (map (fun '(candidate_name, candidate) => Candidate.cmp_mean candidate)
             (Compared.candidates subgraph_data)) 0 minus_10000 None).2]
    ++ map CellValue
         (map (fun '(candidate_name, candidate) => Candidate.cmp_mean candidate)
            (Compared.candidates subgraph_data)).
Proof. unfold data_row_of. by destruct (find_top_candidate _ _ _ _ _). Qed.

Lemma max_candidate_idx_len_row (name : string) (data : Compared.t) (acc : Z) :
  max_candidate_idx_len_step (row_of (name, data)) acc
  = Ok (Z.max acc (Z.of_nat (String.length (Compared.ref_node_name data)))).
Proof. rewrite data_row_of_cells. reflexivity. Qed.

Lemma max_candidate_idx_len_loop (items : dict Compared.t) (acc : Z) :
  exists n,
    for_each max_candidate_idx_len_step (map row_of items) acc = Ok n
    /\ Z.to_nat n
       = (Z.to_nat acc
          `max` max_list (map (fun item => String.length (Compared.ref_node_name item.2))
                            items))%nat.
Proof.
  revert acc. induction items as [|[name data] items IH]; intros acc.
  - exists acc. simpl. split; [done|lia].
  - cbn [map for_each]. rewrite max_candidate_idx_len_row.
    cbn [mbind result_bind].
    destruct (IH (Z.max acc (Z.of_nat (String.length (Compared.ref_node_name data)))))
      as (n & Hrun & Hn).
    exists n. split; [exact Hrun|]. rewrite Hn. simpl. lia.
Qed.

Lemma summary_table_char (results_comparison : dict Compared.t) :
  summary_table minus_10000 value_gt results_comparison
  = Ok (map row_of results_comparison,
        ["subgraph_idx"; "ref_node_name"; "best_idx"]
        ++ map (fun x => str_of_int (Z.of_nat x + 1))
             (seq 0 (longest_ref_node_name results_comparison))).
Proof.
  unfold summary_table.
  destruct (max_candidate_idx_len_loop results_comparison (-1)) as (n & -> & Hn).
  cbn [mbind result_bind].
  assert (Hr : Z.to_nat n = longest_ref_node_name results_comparison).
  { rewrite Hn. unfold longest_ref_node_name. simpl. lia. }
  unfold range. rewrite Hr. do 3 f_equal. rewrite map_map. reflexivity.
Qed.


(** X27.  Without [tabulate] the summary prints the installation hint and
    then fails with [UnboundLocalError], whatever the comparison holds;
    with it, the summary never fails and prints one line, the table of the
    rows under the headers. *)
Theorem print_summary_needs_tabulate (results_comparison : dict Compared.t) :
  print_n_shadows_summary tabulate_found tabulate minus_10000 value_gt
    results_comparison
  = if tabulate_found
    then ([tabulate (map row_of results_comparison)
             (["subgraph_idx"; "ref_node_name"; "best_idx"]
              ++ map (fun x => str_of_int (Z.of_nat x + 1))
                   (seq 0 (longest_ref_node_name results_comparison)))],
          Returns tt)
    else (["`print_tabular` relies on the library `tabulate`, which could not be found on this machine. Run `pip install tabulate` to install the library."],
          RaisesOther "UnboundLocalError").
Proof.
  unfold print_n_shadows_summary. rewrite summary_table_char.
  by destruct tabulate_found.
Qed.

Lemma find_top_candidate_inv (means : list value) (idx : nat) (best_val : value)
    (best_candidate : option nat) (b : value) (bc : option nat) :
  (forall x y z, value_gt x y = true -> value_gt y z = true -> value_gt x z = true) ->
  (forall x y z, value_gt x z = true -> value_gt x y = true \/ value_gt y z = true) ->
  find_top_candidate value_gt means idx best_val best_candidate = (b, bc) ->
  (b = best_val /\ bc = best_candidate
   /\ Forall (fun v => value_gt v best_val = false) means)
  \/ (exists j,
        bc = Some (idx + j + 1)%nat
        /\ means !! j = Some b
        /\ value_gt b best_val = true
        /\ (forall i v, (i < j)%nat -> means !! i = Some v -> value_gt b v = true)
        /\ (forall i v, (j < i)%nat -> means !! i = Some v -> value_gt v b = false)).
Proof.
  intros Htrans Hcotrans. revert idx best_val best_candidate.
  induction means as [|val rest IH]; intros idx best_val best_candidate H.
  - injection H as <- <-. left. by repeat split.
  - cbn [find_top_candidate] in H.
    destruct (value_gt val best_val) eqn:Hgt.
    + apply IH in H as [(-> & -> & Hall)|(j & -> & Hj & Hb & Hearlier & Hlater)].
      * right. exists 0%nat. split; [f_equal; lia|]. split; [done|]. split; [done|].
        split; [intros; lia|]. intros i v Hi Hv.
        destruct i as [|i]; [lia|]. simpl in Hv.
        rewrite Forall_forall in Hall. apply Hall. by eapply list_elem_of_lookup_2.
      * right. exists (S j). split; [f_equal; lia|]. split; [done|].
        split; [by eapply Htrans|]. split.
        -- intros i v Hi Hv. destruct i as [|i]; simpl in Hv.
           ++ by injection Hv as <-.
           ++ eapply Hearlier; [|done]. lia.
        -- intros i v Hi Hv. destruct i as [|i]; [lia|]. simpl in Hv.
           eapply Hlater; [|done]. lia.
    + apply IH in H as [(-> & -> & Hall)|(j & -> & Hj & Hb & Hearlier & Hlater)].
      * left. split; [done|]. split; [done|]. by constructor.
      * right. exists (S j). split; [f_equal; lia|]. split; [done|].
        split; [done|]. split.
        -- intros i v Hi Hv. destruct i as [|i]; simpl in Hv.
           ++ injection Hv as <-.
              destruct (Hcotrans _ val _ Hb) as [?|?]; [done|congruence].
           ++ eapply Hearlier; [|done]. lia.
        -- intros i v Hi Hv. destruct i as [|i]; [lia|]. simpl in Hv.
           eapply Hlater; [|done]. lia.
Qed.

(** X28.  The best index of a row, when the order on the means is
    transitive and cotransitive (as the order of numbers is): it is empty
    exactly when no mean is greater than -10000.0; otherwise it is the
    position, counted from 1, of the first candidate with the greatest
    mean: every earlier mean is smaller and no later mean is greater. *)
Theorem best_candidate_is_first_maximum (means : list value) :
  (forall x y z, value_gt x y = true -> value_gt y z = true -> value_gt x z = true) ->
  (forall x y z, value_gt x z = true -> value_gt x y = true \/ value_gt y z = true) ->
  ((find_top_candidate value_gt means 0 minus_10000 None).2 = None
   <-> Forall (fun v => value_gt v minus_10000 = false) means)
  /\ forall best_candidate,
       (find_top_candidate value_gt means 0 minus_10000 None).2 = Some best_candidate ->
       exists j best_val,
         best_candidate = (j + 1)%nat
         /\ means !! j = Some best_val
         /\ value_gt best_val minus_10000 = true
         /\ (forall i v, (i < j)%nat -> means !! i = Some v ->
                         value_gt best_val v = true)
         /\ (forall i v, (j < i)%nat -> means !! i = Some v ->
                         value_gt v best_val = false).
Proof.
  intros Htrans Hcotrans.
  destruct (find_top_candidate value_gt means 0 minus_10000 None) as [b bc] eqn:H.
  apply find_top_candidate_inv in H
    as [(-> & -> & Hall)|(j & -> & Hj & Hb & Hearlier & Hlater)]; [| |done..]; simpl.
  - split; [done|]. intros ? [=].
  - split.
    + split; [discriminate|]. intros Hall. rewrite Forall_forall in Hall.
      rewrite Hall in Hb; [discriminate|]. by eapply list_elem_of_lookup_2.
    + intros ? [= <-]. exists j, b. by repeat split.
Qed.

End SummaryFacts.

(** ** The properties above on the examples *)

Lemma extract_raises_only_assertion_witness :
  extract_logger (logger_at "add" "node_input" "node_input" 0 1 true)
    [("add", [("node_input", [("a", [logger_record add_logger_0])])])]
  = Raise AssertionError.
Proof.
  apply (proj1 extract_raises_only_assertion
           (logger_at "add" "node_input" "node_input" 0 1 true)
           [("add", [("node_input", [("a", [logger_record add_logger_0])])])]
           AssertionError).
  split; [reflexivity|]. eexists. split; reflexivity.
Defined.


Lemma extend_truncates_to_shorter_witness :
  exists results_2',
    results_group "linear" "node_output" "b" linear_compared = Some results_2'
    /\ Forall2
         (fun result_2 result_2' =>
            exists result_1 compared,
              counterpart [linear_record [VInt 1; VInt 2]] result_2 = Some result_1
              /\ same_index_pair result_1 result_2
              /\ Res.get_comparison "sqnr" result_2' = Some compared
              /\ compared
                 = zip_with pair_metric (Res.values result_1) (Res.values result_2)
              /\ length compared
                 = (length (Res.values result_1) `min` length (Res.values result_2))%nat)
         [linear_record [VInt 10; VInt 20; VInt 30]] results_2'.
Proof.
  apply (extend_truncates_to_shorter "a" "b" pair_metric "sqnr" linear_results
           linear_compared "linear" "node_output");
    [left; discriminate | vm_compute; reflexivity ..].
Defined.

Lemma extract_weights_last_wins_witness :
  results_group "base_op_linear_0" "weight" "a"
    [("base_op_linear_0", [("weight", [("a", [weight_record node_linear tensor_x])])])]
  = match last (weights_for example_weight_from_node (linear_weights tensor_x)
                  "base_op_linear_0"
                  [(node_linear, "base_op_linear_0"); (node_relu, "base_op_relu_0")])
    with
    | Some w => Some [w]
    | None => results_group "base_op_linear_0" "weight" "a" []
    end
  /\ forall rtype name,
       ~ (rtype = "weight" /\ name = "a") ->
       results_group "base_op_linear_0" rtype name
         [("base_op_linear_0",
           [("weight", [("a", [weight_record node_linear tensor_x])])])]
       = results_group "base_op_linear_0" rtype name [].
Proof.
  apply (extract_weights_last_wins "weight" example_weight_from_node "a"
           (linear_weights tensor_x)
           [(node_linear, "base_op_linear_0"); (node_relu, "base_op_relu_0")] []).
  vm_compute. reflexivity.
Defined.

Lemma extract_weights_impl_populates_witness :
  exists populated,
    _extract_weights_impl "weight" example_weight_from_node (fun results => results)
      (fun results _ => results)
      "a" (linear_weights tensor_x) "b" (linear_weights tensor_h)
      [("base_op_linear_0", (example_subgraph node_linear, example_subgraph node_linear));
       ("base_op_relu_0", (example_subgraph node_relu, example_subgraph node_relu))]
    = Ok populated
    /\ forall match_name subgraph_a subgraph_b,
         (match_name, (subgraph_a, subgraph_b))
         ∈ [("base_op_linear_0",
             (example_subgraph node_linear, example_subgraph node_linear));
            ("base_op_relu_0", (example_subgraph node_relu, example_subgraph node_relu))] ->
         results_group match_name "weight" "a" populated
         = (fun w => [w])
             <$> example_weight_from_node (base_op_node subgraph_a)
                   (linear_weights tensor_x)
         /\ results_group match_name "weight" "b" populated
            = (fun w => [w])
                <$> example_weight_from_node (base_op_node subgraph_b)
                      (linear_weights tensor_h).
Proof.
  apply (extract_weights_impl_populates "weight" example_weight_from_node
           (fun results => results) (fun results _ => results)
           "a" (linear_weights tensor_x) "b" (linear_weights tensor_h)).
  - apply (bool_decide_unpack _). vm_compute. exact I.
  - discriminate.
Defined.

Lemma convert_succeeds_iff_witness :
  ((exists model',
       @convert_n_shadows_model example_env example_convert_env
         (mt_of linear_relu_swept) = Ok model')
   <-> forall node, node ∈ graph (mt_of linear_relu_swept) ->
                    @is_wrapper_node example_env example_convert_env node ->
                    is_Some (attrs (mt_of linear_relu_swept) !! Node.name node))
  /\ (forall e,
        @convert_n_shadows_model example_env example_convert_env
          (mt_of linear_relu_swept) = Raise e ->
        e = AttributeError).
Proof.
  apply (@convert_succeeds_iff example_env example_convert_env
           (mt_of linear_relu_swept)).
  intros a. exists a. reflexivity.
Defined.

Lemma prepare_keeps_original_nodes_witness :
  graph (linear_relu_model (Some (VTensor tensor_x)))
  `sublist_of` graph (mt_of linear_relu_swept).
Proof.
  apply (@prepare_keeps_original_nodes example_env
           (linear_relu_model (Some (VTensor tensor_x)))
           [("linear_relu", [EntryNode node_linear; EntryNode node_relu])]
           example_qconfigs linear_relu_swept).
  vm_compute. reflexivity.
Defined.


Lemma prepare_adds_only_branches_witness :
  dom (attrs (mt_of linear_relu_swept))
  ⊆ dom (attrs (linear_relu_model (Some (VTensor tensor_x))))
    ∪ list_to_set (@derived_names example_env 1 2)
  /\ forall name v,
       attrs (mt_of linear_relu_swept) !! name = Some v ->
       attrs (linear_relu_model (Some (VTensor tensor_x))) !! name = Some v
       \/ is_branch_attribute v.
Proof.
  apply (@prepare_adds_only_branches example_env
           (linear_relu_model (Some (VTensor tensor_x)))
           [("linear_relu", [EntryNode node_linear; EntryNode node_relu])]
           example_qconfigs linear_relu_swept).
  vm_compute. reflexivity.
Defined.

Lemma prepare_prints_only_skips_witness :
  (length ["unable to get example input for node linear, skipping"] <= 1)%nat
  /\ Forall (fun line => exists first_node, line = @skip_message example_env first_node)
       ["unable to get example input for node linear, skipping"].
Proof.
  apply (@prepare_prints_only_skips example_env (linear_relu_model None)
           [("linear_relu", [EntryNode node_linear; EntryNode node_relu])]
           example_qconfigs
           (@mkSweepState example_env (linear_relu_model None)
              ["unable to get example input for node linear, skipping"])).
  vm_compute. reflexivity.
Defined.

Lemma shadow_subgraph_needs_every_config_witness :
  ((exists st',
       @shadow_subgraph example_env example_qconfigs 0
         [EntryNode node_linear; EntryNode node_relu]
         (initial_state (linear_relu_model (Some (VTensor tensor_x)))) = Ok st')
   <-> Forall (fun c => is_Some (c !! Node.name node_linear)) example_qconfigs)
  /\ (~ Forall (fun c => is_Some (c !! Node.name node_linear)) example_qconfigs ->
      @shadow_subgraph example_env example_qconfigs 0
        [EntryNode node_linear; EntryNode node_relu]
        (initial_state (linear_relu_model (Some (VTensor tensor_x))))
      = Raise KeyError).
Proof.
  apply (@shadow_subgraph_needs_every_config example_env example_qconfigs 0
           [EntryNode node_linear; EntryNode node_relu] node_linear
           (ExampleTuple [VTensor tensor_x])
           (initial_state (linear_relu_model (Some (VTensor tensor_x))))).
  - repeat constructor.
  - reflexivity.
  - vm_compute. reflexivity.
  - apply (bool_decide_unpack _). vm_compute. exact I.
  - apply Forall_forall. apply (bool_decide_unpack _). vm_compute. exact I.
Defined.

Lemma group_results_succeeds_iff_witness :
  group_results_by_subgraph [("a", [("node_output", [])])] = Raises KeyError.
Proof.
  apply (proj1 (proj2 (group_results_succeeds_iff [("a", [("node_output", [])])]))).
  reflexivity.
Defined.



Lemma create_results_needs_baseline_witness :
  Forall (fun item : string * dict Grouped.t => is_Some (dict_get "0" item.2))
    swept_grouped.
Proof.
  apply (proj1 (create_results_needs_baseline int_difference "difference"
                  example_stack example_mean swept_grouped) swept_comparison).
  vm_compute. reflexivity.
Defined.

Lemma create_results_compares_with_baseline_witness :
  swept_comparison.*1 = swept_grouped.*1
  /\ forall name subgraph_results,
       (name, subgraph_results) ∈ swept_grouped ->
       exists baseline compared,
         dict_get "0" subgraph_results = Some baseline
         /\ dict_get name swept_comparison = Some compared
         /\ Compared.ref_node_name compared = Grouped.ref_node_name baseline
         /\ (Compared.candidates compared).*1
            = filter (fun k => k <> "0") subgraph_results.*1
         /\ dict_get "0" (Compared.candidates compared) = None
         /\ forall k r, (k, r) ∈ subgraph_results -> k <> "0" ->
              exists raw mean,
                example_stack (zip_with int_difference (Grouped.values baseline)
                                 (Grouped.values r)) = Returns raw
                /\ example_mean raw = Returns mean
                /\ dict_get k (Compared.candidates compared)
                   = Some {| Candidate.qconfig_str := Grouped.qconfig_str r;
                             Candidate.cmp_fn_name := "difference";
                             Candidate.cmp_raw := raw;
                             Candidate.cmp_mean := mean |}.
Proof.
  apply (create_results_compares_with_baseline int_difference "difference"
           example_stack example_mean swept_grouped swept_comparison).
  - apply (bool_decide_unpack _). vm_compute. exact I.
  - repeat constructor; apply (bool_decide_unpack _); vm_compute; exact I.
  - vm_compute. reflexivity.
Defined.

Lemma best_candidate_is_first_maximum_witness :
  ((find_top_candidate example_value_gt [VInt 45; VInt 50; VInt 50] 0
      (VInt (-10000)) None).2 = None
   <-> Forall (fun v => example_value_gt v (VInt (-10000)) = false)
         [VInt 45; VInt 50; VInt 50])
  /\ forall best_candidate,
       (find_top_candidate example_value_gt [VInt 45; VInt 50; VInt 50] 0
          (VInt (-10000)) None).2 = Some best_candidate ->
       exists j best_val,
         best_candidate = (j + 1)%nat
         /\ [VInt 45; VInt 50; VInt 50] !! j = Some best_val
         /\ example_value_gt best_val (VInt (-10000)) = true
         /\ (forall i v, (i < j)%nat -> [VInt 45; VInt 50; VInt 50] !! i = Some v ->
                         example_value_gt best_val v = true)
         /\ (forall i v, (j < i)%nat -> [VInt 45; VInt 50; VInt 50] !! i = Some v ->
                         example_value_gt v best_val = false).
Proof.
  apply (best_candidate_is_first_maximum (VInt (-10000)) example_value_gt
           [VInt 45; VInt 50; VInt 50]).
  - intros x y z. unfold example_value_gt. rewrite !Z.ltb_lt. lia.
  - intros x y z. unfold example_value_gt. rewrite !Z.ltb_lt. lia.
Defined.
